(** * Region-aware caption decoder: functional model and verified properties

    The development models three source files:

    - [im2txt/show_and_tell_model.py]: [build_image_ssd_embeddings]
      (box decoding, region selection) and [build_model] (embedding fusion,
      the LSTM in its two modes, the projection head and the masked loss);
    - [ricga/run_inference.py] and [ricga/create_results.py]: the two
      caption drivers.

    Tensors are nested lists of real numbers: every arithmetic operation is
    the exact one over [R] (float32 rounding, infinities and NaN are outside
    the model).  Operations that TensorFlow rejects (an index out of range, a
    shape mismatch, a split that does not divide) return [None].
    TensorFlow's own operations ([tf.image.non_max_suppression],
    [tf.nn.dynamic_rnn], [BasicLSTMCell], [DropoutWrapper], ...) are written
    out after their documented behaviour; the networks, the vocabulary, the
    beam search and the file system are parameters. *)

From Stdlib Require Import String Ascii Reals Lra Lia ZArith List Bool.
Import ListNotations.

(** ** Failure as [option], with a bind notation *)

Declare Scope opt_scope.
Delimit Scope opt_scope with opt.

Definition obind {A B : Type} (o : option A) (k : A -> option B) : option B :=
  match o with
  | Some a => k a
  | None => None
  end.

Notation "x <- e ;; k" := (obind e (fun x => k))
  (at level 61, e at next level, right associativity) : opt_scope.
Notation "' p <- e ;; k" := (obind e (fun x => match x with p => k end))
  (at level 61, p pattern, e at next level, right associativity) : opt_scope.

Local Open Scope opt_scope.

Fixpoint mapM {A B : Type} (f : A -> option B) (l : list A) : option (list B) :=
  match l with
  | [] => Some []
  | a :: l' => b <- f a ;; bs <- mapM f l' ;; Some (b :: bs)
  end.

(** Pairwise combination of two axes that must have the same extent. *)
Fixpoint zipWithM {A B C : Type} (f : A -> B -> option C)
    (la : list A) (lb : list B) : option (list C) :=
  match la, lb with
  | [], [] => Some []
  | a :: la', b :: lb' =>
      c <- f a b ;; cs <- zipWithM f la' lb' ;; Some (c :: cs)
  | _, _ => None
  end.

(** ** Python slices *)

Module Py.

(** Normalisation of one slice bound against a sequence of length [n]:
    a negative bound counts from the end, and both are clamped to [0, n]. *)
Definition bound (n i : Z) : Z :=
  if (i <? 0)%Z then Z.max (i + n) 0 else Z.min i n.

(** [l[lo:hi]] with unit stride; [None] is an omitted bound. *)
Definition slice {A : Type} (lo hi : option Z) (l : list A) : list A :=
  let n := Z.of_nat (length l) in
  let start := match lo with Some i => bound n i | None => 0%Z end in
  let stop := match hi with Some i => bound n i | None => n end in
  firstn (Z.to_nat (stop - start)) (skipn (Z.to_nat start) l).

(** [sep.join(words)] *)
Fixpoint join (sep : string) (words : list string) : string :=
  match words with
  | [] => EmptyString
  | [w] => w
  | w :: ws => (w ++ sep ++ join sep ws)%string
  end.

(** [range(n)] for an integer [n]: empty when [n <= 0]. *)
Definition range (n : Z) : list nat := seq 0 (Z.to_nat n).

(** [enumerate(xs)] *)
Definition enumerate {A : Type} (xs : list A) : list (nat * A) :=
  combine (seq 0 (length xs)) xs.

End Py.

(** ** Tensors of rank 1 to 4 *)

Abbreviation T1 := (list R).
Abbreviation T2 := (list (list R)).
Abbreviation T3 := (list (list (list R))).
Abbreviation T4 := (list (list (list (list R)))).

Module TF.

Local Open Scope R_scope.

(** [t[:, :, lo:hi]] *)
Definition slice3 (lo hi : option Z) (t : T3) : T3 :=
  map (map (Py.slice lo hi)) t.

(** [t[:, :, k]]: an index outside the last axis is rejected. *)
Definition index3 (k : nat) (t : T3) : option T2 :=
  mapM (mapM (fun row : T1 => nth_error row k)) t.

(** Elementwise binary operation on two rank-2 tensors of equal shape. *)
Definition ew2 (op : R -> R -> R) (a b : T2) : option T2 :=
  zipWithM (zipWithM (fun x y => Some (op x y))) a b.

Definition subtract := ew2 Rminus.
Definition add := ew2 Rplus.
Definition multiply := ew2 Rmult.

(** [k * t] for a Python scalar [k]. *)
Definition scale2 (k : R) (t : T2) : T2 := map (map (Rmult k)) t.

Definition exp2 (t : T2) : T2 := map (map exp) t.

(** [tf.expand_dims(t, -1)] on a rank-2 tensor. *)
Definition expand_dims_last (t : T2) : T3 := map (map (fun v => [v])) t.

(** [t[:, None]] on a rank-3 tensor. *)
Definition newaxis1 (t : T3) : T4 := map (fun m => [m]) t.

(** [tf.concat((a, b), axis=-1)] on rank-4 tensors: all other axes must
    agree. *)
Definition concat_last4_pair (a b : T4) : option T4 :=
  zipWithM (zipWithM (zipWithM (fun x y : T1 => Some (x ++ y)))) a b.

Fixpoint concat_last4_from (acc : T4) (ts : list T4) : option T4 :=
  match ts with
  | [] => Some acc
  | t :: ts' => acc' <- concat_last4_pair acc t ;; concat_last4_from acc' ts'
  end.

Definition concat_last4 (ts : list T4) : option T4 :=
  match ts with
  | [] => None
  | t :: ts' => concat_last4_from t ts'
  end.

(** [tf.squeeze(t, 1)]: axis 1 must have extent one. *)
Definition squeeze1 (t : T4) : option T3 :=
  mapM (fun b : T3 => match b with [m] => Some m | _ => None end) t.

(** [tf.minimum(tf.maximum(t, lo), hi)] with scalar bounds. *)
Definition clip3 (lo hi : R) (t : T3) : T3 :=
  map (map (map (fun v => Rmin (Rmax v lo) hi))) t.

End TF.

(** ** Box decoding ([build_image_ssd_embeddings], scope
       [ssd_out_processing]) *)

Section BoxDecoding.

Local Open Scope R_scope.

(** The decoded boxes [decode_bbox] computed from the detector output
    [ssd_output] of shape [batch, priors, 4 + classes + 8]. *)
Definition decode_bbox_of (ssd_output : T3) : option T3 :=
  let mbox_loc := TF.slice3 None (Some 4%Z) ssd_output in
  let variances := TF.slice3 (Some (-4)%Z) None ssd_output in
  let mbox_priorbox := TF.slice3 (Some (-8)%Z) (Some (-4)%Z) ssd_output in
  pb0 <- TF.index3 0 mbox_priorbox ;;
  pb1 <- TF.index3 1 mbox_priorbox ;;
  pb2 <- TF.index3 2 mbox_priorbox ;;
  pb3 <- TF.index3 3 mbox_priorbox ;;
  loc0 <- TF.index3 0 mbox_loc ;;
  loc1 <- TF.index3 1 mbox_loc ;;
  loc2 <- TF.index3 2 mbox_loc ;;
  loc3 <- TF.index3 3 mbox_loc ;;
  var0 <- TF.index3 0 variances ;;
  var1 <- TF.index3 1 variances ;;
  var2 <- TF.index3 2 variances ;;
  var3 <- TF.index3 3 variances ;;
  prior_width <- TF.subtract pb2 pb0 ;;
  prior_height <- TF.subtract pb3 pb1 ;;
  sum_x <- TF.add pb2 pb0 ;;
  let prior_center_x := TF.scale2 0.5 sum_x in
  sum_y <- TF.add pb3 pb1 ;;
  let prior_center_y := TF.scale2 0.5 sum_y in
  lw_x <- TF.multiply loc0 prior_width ;;
  decode_bbox_center_x <- TF.multiply lw_x var0 ;;
  decode_bbox_center_x <- TF.add decode_bbox_center_x prior_center_x ;;
  lw_y <- TF.multiply loc1 prior_width ;;
  decode_bbox_center_y <- TF.multiply lw_y var1 ;;
  decode_bbox_center_y <- TF.add decode_bbox_center_y prior_center_y ;;
  lv_w <- TF.multiply loc2 var2 ;;
  let decode_bbox_width := TF.exp2 lv_w in
  decode_bbox_width <- TF.multiply decode_bbox_width prior_width ;;
  lv_h <- TF.multiply loc3 var3 ;;
  let decode_bbox_height := TF.exp2 lv_h in
  decode_bbox_height <- TF.multiply decode_bbox_height prior_height ;;
  xmin <- TF.subtract decode_bbox_center_x (TF.scale2 0.5 decode_bbox_width) ;;
  let decode_bbox_xmin := TF.expand_dims_last xmin in
  ymin <- TF.subtract decode_bbox_center_y (TF.scale2 0.5 decode_bbox_height) ;;
  let decode_bbox_ymin := TF.expand_dims_last ymin in
  xmax <- TF.add decode_bbox_center_x (TF.scale2 0.5 decode_bbox_width) ;;
  let decode_bbox_xmax := TF.expand_dims_last xmax in
  ymax <- TF.add decode_bbox_center_y (TF.scale2 0.5 decode_bbox_height) ;;
  let decode_bbox_ymax := TF.expand_dims_last ymax in
  cat <- TF.concat_last4 [TF.newaxis1 decode_bbox_xmin;
                          TF.newaxis1 decode_bbox_ymin;
                          TF.newaxis1 decode_bbox_xmax;
                          TF.newaxis1 decode_bbox_ymax] ;;
  decode_bbox <- TF.squeeze1 cat ;;
  Some (TF.clip3 0 1 decode_bbox).

End BoxDecoding.

(** *** The decoder as the specification words it

    One prior box, its four raw offsets and its four variances give one
    clipped box.  This second definition follows the written algorithm; it
    is compared below with [decode_bbox_of], which follows the code. *)

Record Prior := mkPrior { px0 : R; py0 : R; px1 : R; py1 : R }.
Record Offsets := mkOffsets { dx : R; dy : R; dw : R; dh : R }.
Record Variances := mkVariances { vx : R; vy : R; vw : R; vh : R }.
Record Box := mkBox { xmin : R; ymin : R; xmax : R; ymax : R }.

(** One row of the detector output: offsets, class confidences, prior
    box, variances. *)
Record Candidate := mkCandidate {
  cand_offsets : Offsets;
  cand_conf : T1;
  cand_prior : Prior;
  cand_variances : Variances
}.

Definition pack (c : Candidate) : T1 :=
  let o := cand_offsets c in
  let p := cand_prior c in
  let v := cand_variances c in
  [dx o; dy o; dw o; dh o] ++ cand_conf c
    ++ [px0 p; py0 p; px1 p; py1 p] ++ [vx v; vy v; vw v; vh v].

Definition box_row (b : Box) : T1 := [xmin b; ymin b; xmax b; ymax b].

Section BoxDecoderSpec.

Local Open Scope R_scope.

Definition clip01 (v : R) : R := Rmin (Rmax v 0) 1.

Definition BoxDecoder (p : Prior) (o : Offsets) (v : Variances) : Box :=
  let prior_w := px1 p - px0 p in
  let prior_h := py1 p - py0 p in
  let prior_cx := 0.5 * (px1 p + px0 p) in
  let prior_cy := 0.5 * (py1 p + py0 p) in
  let cx := dx o * prior_w * vx v + prior_cx in
  let cy := dy o * prior_w * vy v + prior_cy in
  let w := exp (dw o * vw v) * prior_w in
  let h := exp (dh o * vh v) * prior_h in
  {| xmin := clip01 (cx - w / 2);
     ymin := clip01 (cy - h / 2);
     xmax := clip01 (cx + w / 2);
     ymax := clip01 (cy + h / 2) |}.

Definition decode_candidate (c : Candidate) : Box :=
  BoxDecoder (cand_prior c) (cand_offsets c) (cand_variances c).

End BoxDecoderSpec.

(** Entry [i, p] of a rank-2 arrangement (of rows, of boxes, ...). *)
Definition at2 {A : Type} (t : list (list A)) (i p : nat) : option A :=
  row <- nth_error t i ;; nth_error row p.

(** A box inside the unit square with its corners in order. *)
Definition well_formed_box (b : Box) : Prop :=
  (0 <= xmin b <= 1 /\ 0 <= ymin b <= 1 /\ 0 <= xmax b <= 1 /\ 0 <= ymax b <= 1
   /\ xmin b <= xmax b /\ ymin b <= ymax b)%R.

(** A detector output with one image and one prior: the whole image as the
    prior, zero offsets, unit variances, two class confidences. *)
Definition unit_candidate : Candidate :=
  {| cand_offsets := mkOffsets 0 0 0 0;
     cand_conf := [0%R; 0%R];
     cand_prior := mkPrior 0 0 1 1;
     cand_variances := mkVariances 1 1 1 1 |}.

(** ** Region selection ([build_image_ssd_embeddings], continued) *)

Module NMS.

Local Open Scope R_scope.

(** Arg-sort by decreasing score; among equal scores the lower index comes
    first. *)
Fixpoint insert_desc (scores : T1) (i : nat) (sorted : list nat) : list nat :=
  match sorted with
  | [] => [i]
  | j :: rest =>
      if Rle_dec (nth j scores 0) (nth i scores 0)
      then i :: sorted
      else j :: insert_desc scores i rest
  end.

Definition decreasing_arg_sort (scores : T1) : list nat :=
  fold_right (insert_desc scores) [] (seq 0 (length scores)).

(** Intersection over union of two boxes given by opposite corners (in
    either order); zero when one of them has no area. *)
Definition iou (a b : T1) : option R :=
  match a, b with
  | [a0; a1; a2; a3], [b0; b1; b2; b3] =>
      let ymin_a := Rmin a0 a2 in let xmin_a := Rmin a1 a3 in
      let ymax_a := Rmax a0 a2 in let xmax_a := Rmax a1 a3 in
      let ymin_b := Rmin b0 b2 in let xmin_b := Rmin b1 b3 in
      let ymax_b := Rmax b0 b2 in let xmax_b := Rmax b1 b3 in
      let area_a := (ymax_a - ymin_a) * (xmax_a - xmin_a) in
      let area_b := (ymax_b - ymin_b) * (xmax_b - xmin_b) in
      if Rle_dec area_a 0 then Some 0
      else if Rle_dec area_b 0 then Some 0
      else
        let iymin := Rmax ymin_a ymin_b in let ixmin := Rmax xmin_a xmin_b in
        let iymax := Rmin ymax_a ymax_b in let ixmax := Rmin xmax_a xmax_b in
        let inter := Rmax (iymax - iymin) 0 * Rmax (ixmax - ixmin) 0 in
        Some (inter / (area_a + area_b - inter))
  | _, _ => None
  end.

(** Does box [i] overlap one of the boxes already [selected] by more than
    the threshold? *)
Fixpoint suppressed (boxes : T2) (threshold : R) (i : nat) (selected : list nat)
    : option bool :=
  match selected with
  | [] => Some false
  | j :: rest =>
      bi <- nth_error boxes i ;;
      bj <- nth_error boxes j ;;
      v <- iou bi bj ;;
      if Rlt_dec threshold v then Some true
      else suppressed boxes threshold i rest
  end.

(** The greedy pass over the candidates in decreasing score order; it stops
    as soon as [output_size] boxes are selected. *)
Fixpoint greedy (boxes : T2) (threshold : R) (output_size : nat)
    (candidates selected : list nat) : option (list nat) :=
  match candidates with
  | [] => Some selected
  | i :: rest =>
      if (output_size <=? length selected)%nat then Some selected
      else
        s <- suppressed boxes threshold i (rev selected) ;;
        if s : bool then greedy boxes threshold output_size rest selected
        else greedy boxes threshold output_size rest (selected ++ [i])
  end.

(** [tf.image.non_max_suppression(boxes, scores, max_output_size)] with the
    default overlap threshold 0.5: [boxes] is [num_boxes, 4], [scores] is
    [num_boxes]; the result lists the selected indices. *)
Definition non_max_suppression (boxes : T2) (scores : T1) (max_output_size : nat)
    : option (list nat) :=
  if negb (forallb (fun b : T1 => (length b =? 4)%nat) boxes) then None
  else if negb (length scores =? length boxes)%nat then None
  else
    greedy boxes 0.5 (Nat.min max_output_size (length boxes))
           (decreasing_arg_sort scores) [].

End NMS.

Module TFRegion.

(** [tf.reduce_max] over one row; the maximum of no number is not a real
    number. *)
Definition reduce_max1 (row : T1) : option R :=
  match row with
  | [] => None
  | v :: rest => Some (fold_left Rmax rest v)
  end.

(** [tf.reduce_max(t, 2)] *)
Definition reduce_max_last (t : T3) : option T2 := mapM (mapM reduce_max1) t.

(** [tf.stack] of rank-1 index tensors: their lengths must agree. *)
Definition stack_indices (xs : list (list nat)) : option (list (list nat)) :=
  match xs with
  | [] => Some []
  | x :: rest =>
      if forallb (fun y : list nat => (length y =? length x)%nat) rest
      then Some xs else None
  end.

End TFRegion.

Section RegionSelection.

(** The image type, the resampling to 300x300, the detector network and the
    crop of one image to one box are outside this file's scope. *)
Variable Image : Type.
Variable resize_300x300 : Image -> Image.
Variable ssd : list Image -> T3.
Variable crop : Image -> T1 -> Image.

(** [tf.image.crop_and_resize(images, boxes, box_ind, crop_size)]: box [k]
    is cut out of image [box_ind[k]]. *)
Definition crop_and_resize (images : list Image) (boxes : T2) (box_ind : list nat)
    : option (list Image) :=
  zipWithM (fun box k => img <- nth_error images k ;; Some (crop img box))
           boxes box_ind.

(** The selected box of every image, from the decoded boxes and the
    per-prior maximal class confidence. *)
Definition select_good_box (decode_bbox : T3) (mbox_conf_max : T2) : option T2 :=
  idx_list <- mapM (fun ib : nat * T2 =>
                      let (i, bboxes) := ib in
                      scores <- nth_error mbox_conf_max i ;;
                      NMS.non_max_suppression bboxes scores 1)
                   (Py.enumerate decode_bbox) ;;
  idx <- TFRegion.stack_indices idx_list ;;
  mapM (fun ii : nat * list nat =>
          let (i, idx_item) := ii in
          k <- nth_error idx_item 0 ;;
          at2 decode_bbox i k)
       (Py.enumerate idx).

Record RegionOutputs := mkRegionOutputs {
  good_box : T2;
  region_images : list Image
}.

(** [build_image_ssd_embeddings] up to the region images. *)
Definition build_image_ssd_embeddings (images : list Image) : option RegionOutputs :=
  let images_300x300 := map resize_300x300 images in
  let ssd_output := ssd images_300x300 in
  (* the reshape to the static batch size of [images] *)
  ssd_output <- (if (length ssd_output =? length images)%nat
                 then Some ssd_output else None) ;;
  decode_bbox <- decode_bbox_of ssd_output ;;
  let mbox_conf := TF.slice3 (Some 4%Z) (Some (-8)%Z) ssd_output in
  mbox_conf_max <- TFRegion.reduce_max_last mbox_conf ;;
  good_box <- select_good_box decode_bbox mbox_conf_max ;;
  region_images <- crop_and_resize images_300x300 good_box
                     (seq 0 (length images)) ;;
  Some {| good_box := good_box; region_images := region_images |}.

End RegionSelection.

Arguments crop_and_resize {Image} crop images boxes box_ind.
Arguments mkRegionOutputs {Image} good_box region_images.
Arguments good_box {Image} r.
Arguments region_images {Image} r.
Arguments build_image_ssd_embeddings {Image} resize_300x300 ssd crop images.

(** The maximal class confidence of a candidate. *)
Definition max_conf (c : Candidate) : R :=
  match cand_conf c with
  | [] => 0%R
  | v :: rest => fold_left Rmax rest v
  end.

(** [c] is a candidate of [row] whose maximal class confidence no other
    candidate of the row exceeds. *)
Definition best_of (row : list Candidate) (c : Candidate) : Prop :=
  In c row /\ forall c', In c' row -> (max_conf c' <= max_conf c)%R.

(** The index the arg-sort puts first. *)
Definition top_index (scores : T1) : nat := hd 0%nat (NMS.decreasing_arg_sort scores).

(** *** Small concrete detector outputs *)

(** A stand-in for the external image pipeline: images are units, the
    detector answers every image with the same rows. *)
Definition constant_ssd (rows : list Candidate) (images : list unit) : T3 :=
  map (fun _ => map pack rows) images.

Definition keep_image (img : unit) (box : T1) : unit := img.

(** Two priors with overlapping boxes and maximal class confidences 0.9 and
    0.1. *)
Definition confident_candidate : Candidate :=
  {| cand_offsets := mkOffsets 0 0 0 0;
     cand_conf := [0.2%R; 0.9%R];
     cand_prior := mkPrior 0 0 1 1;
     cand_variances := mkVariances 1 1 1 1 |}.

Definition doubtful_candidate : Candidate :=
  {| cand_offsets := mkOffsets 0 0 0 0;
     cand_conf := [0.1%R; 0.05%R];
     cand_prior := mkPrior 0 0 0.5 0.5;
     cand_variances := mkVariances 1 1 1 1 |}.

(** ** Tensor operations used by [build_model] *)

Module NN.

Local Open Scope R_scope.

Definition sum (v : T1) : R := fold_right Rplus 0 v.

Definition sigmoid (x : R) : R := 1 / (1 + exp (- x)).

(** The integer part, as a real number. *)
Definition floor (x : R) : R := IZR (Int_part x).

Definition add1 (a b : T1) : option T1 := zipWithM (fun x y => Some (x + y)) a b.

(** [tf.concat(values, axis=1)] on rank-2 tensors. *)
Definition concat1_pair (a b : T2) : option T2 :=
  zipWithM (fun x y : T1 => Some (x ++ y)) a b.

Fixpoint concat1_from (acc : T2) (ts : list T2) : option T2 :=
  match ts with
  | [] => Some acc
  | t :: ts' => acc' <- concat1_pair acc t ;; concat1_from acc' ts'
  end.

Definition concat1 (values : list T2) : option T2 :=
  match values with
  | [] => None
  | t :: ts => concat1_from t ts
  end.

(** [tf.concat([a, b], 2)] on rank-3 tensors. *)
Definition concat2 (a b : T3) : option T3 :=
  zipWithM (zipWithM (fun x y : T1 => Some (x ++ y))) a b.

(** [tf.expand_dims(t, 1)] on a rank-2 tensor. *)
Definition expand_dims1 (t : T2) : T3 := map (fun row => [row]) t.

Definition replicate {A : Type} (n : nat) (l : list A) : list A :=
  concat (repeat l n).

(** [tf.tile(t, [m0, m1, m2])] *)
Definition tile3 (m0 m1 m2 : nat) (t : T3) : T3 :=
  replicate m0 (map (fun mat => replicate m1 (map (replicate m2) mat)) t).

(** [tf.shape(t)[0]] and [tf.shape(t)[1]] of a rank-3 tensor. *)
Definition shape0 {A : Type} (t : list A) : nat := length t.
Definition shape1 {A : Type} (t : list (list A)) : nat :=
  match t with
  | [] => 0%nat
  | m :: _ => length m
  end.

(** [tf.squeeze(t, axis=[1])] on a rank-3 tensor. *)
Definition squeeze1 (t : T3) : option T2 :=
  mapM (fun m : T2 => match m with [row] => Some row | _ => None end) t.

(** [count] consecutive pieces of [size] entries each. *)
Fixpoint chunks (size count : nat) (l : T1) : list T1 :=
  match count with
  | O => []
  | S count' => firstn size l :: chunks size count' (skipn size l)
  end.

(** One row cut in [num] equal pieces; the length must divide. *)
Definition split_row (num : nat) (row : T1) : option (list T1) :=
  if (num =? 0)%nat then None
  else if (length row mod num =? 0)%nat
       then Some (chunks (length row / num) num row)
       else None.

(** [tf.split(value, num, axis=1)] on a rank-2 tensor: [num] tensors. *)
Definition split1 (num : nat) (value : T2) : option (list T2) :=
  rows <- mapM (split_row num) value ;;
  Some (map (fun k => map (fun pieces : list T1 => nth k pieces []) rows)
            (seq 0 num)).

(** A placeholder of static shape [None, width]. *)
Definition placeholder (width : nat) (fed : T2) : option T2 :=
  if forallb (fun row : T1 => (length row =? width)%nat) fed
  then Some fed else None.

(** [tf.nn.embedding_lookup(params, ids)] for ids of shape [batch, time]. *)
Definition lookup_row (params : T2) (id : Z) : option T1 :=
  if (id <? 0)%Z then None else nth_error params (Z.to_nat id).

Definition embedding_lookup (params : T2) (ids : list (list Z)) : option T3 :=
  mapM (mapM (lookup_row params)) ids.

(** Exchange of the two leading axes; [extent] is the size of axis 1 of the
    argument, which every entry along axis 0 must have. *)
Definition swap01 (extent : nat) (t : T3) : option T3 :=
  if forallb (fun m : T2 => (length m =? extent)%nat) t
  then mapM (fun k => mapM (fun m : T2 => nth_error m k) t) (seq 0 extent)
  else None.

(** [tf.where(cond, a, b)] with one condition per row. *)
Definition where_rows (cond : list bool) (a b : T2) : option T2 :=
  ab <- zipWithM (fun x y : T1 => Some (x, y)) a b ;;
  zipWithM (fun (c : bool) (p : T1 * T1) => Some (if c then fst p else snd p))
           cond ab.

(** [tf.reshape(t, [-1, width])] of a rank-3 tensor. *)
Definition reshape_rows (width : nat) (t : T3) : option T2 :=
  let flat := concat (concat t) in
  if (width =? 0)%nat then None
  else if (length flat mod width =? 0)%nat
       then Some (chunks width (length flat / width) flat)
       else None.

(** [x . W] accumulated row by row of [W], starting from [acc]. *)
Fixpoint matvec_from (acc : T1) (x : T1) (W : T2) : option T1 :=
  match x, W with
  | [], [] => Some acc
  | xk :: x', wk :: W' =>
      acc' <- zipWithM (fun a w => Some (a + xk * w)) acc wk ;;
      matvec_from acc' x' W'
  | _, _ => None
  end.

(** A dense layer on one row: [x . W + b] with [W] of shape
    [len(x), output_size] and [b] of shape [output_size]. *)
Definition linear (W : T2) (b : T1) (output_size : nat) (x : T1) : option T1 :=
  if (length b =? output_size)%nat
  then y <- matvec_from (repeat 0 output_size) x W ;; add1 y b
  else None.

(** [tf.contrib.layers.fully_connected] without activation. *)
Definition fully_connected (W : T2) (b : T1) (num_outputs : nat) (inputs : T2)
    : option T2 :=
  mapM (linear W b num_outputs) inputs.

Definition softmax_row (logits : T1) : T1 :=
  let z := sum (map exp logits) in map (fun x => exp x / z) logits.

(** [tf.nn.softmax] *)
Definition softmax (logits : T2) : T2 := map softmax_row logits.

(** The cross entropy of one row of logits against one label; a label
    outside the row is rejected. *)
Definition xent_row (label : Z) (logits : T1) : option R :=
  if (label <? 0)%Z then None
  else x <- nth_error logits (Z.to_nat label) ;;
       Some (ln (sum (map exp logits)) - x).

(** [tf.nn.sparse_softmax_cross_entropy_with_logits] *)
Definition sparse_softmax_cross_entropy_with_logits (labels : list Z) (logits : T2)
    : option T1 :=
  zipWithM xent_row labels logits.

(** [tf.multiply] of two rank-1 tensors of equal length. *)
Definition multiply1 (a b : T1) : option T1 :=
  zipWithM (fun x y => Some (x * y)) a b.

(** [tf.reduce_sum(mask, 1)] of an integer tensor. *)
Definition reduce_sum_rows (mask : list (list Z)) : list Z :=
  map (fold_right Z.add 0%Z) mask.

(** One step of [BasicLSTMCell] on one example: the gates are the four
    quarters of [(inputs ++ h) . W + b]; forget bias 1. *)
Definition BasicLSTMCell_row (num_units : nat) (W : T2) (b : T1)
    (inputs : T1) (ch : T1 * T1) : option (T1 * (T1 * T1)) :=
  let (c, h) := ch in
  z <- linear W b (4 * num_units) (inputs ++ h) ;;
  gates <- split_row 4 z ;;
  match gates with
  | [i; j; f; o] =>
      keep <- zipWithM (fun cv fv => Some (cv * sigmoid (fv + 1))) c f ;;
      write <- zipWithM (fun iv jv => Some (sigmoid iv * tanh jv)) i j ;;
      new_c <- add1 keep write ;;
      new_h <- zipWithM (fun cv ov => Some (tanh cv * sigmoid ov)) new_c o ;;
      Some (new_h, (new_c, new_h))
  | _ => None
  end.

(** The cell on a batch: one example per row of [inputs], [c] and [h]. *)
Definition BasicLSTMCell (num_units : nat) (W : T2) (b : T1)
    (inputs : T2) (state : T2 * T2) : option (T2 * (T2 * T2)) :=
  ch <- zipWithM (fun c h : T1 => Some (c, h)) (fst state) (snd state) ;;
  rows <- zipWithM (BasicLSTMCell_row num_units W b) inputs ch ;;
  Some (map fst rows,
        (map (fun r => fst (snd r)) rows, map (fun r => snd (snd r)) rows)).

(** [cell.zero_state(batch_size)] *)
Definition zero_state (batch_size num_units : nat) : T2 * T2 :=
  (repeat (repeat 0 num_units) batch_size, repeat (repeat 0 num_units) batch_size).

End NN.

(** ** The session: variables and random source *)

Inductive Mode := train | eval | inference.

Record ModelConfig := mkModelConfig {
  embedding_size : nat;
  num_lstm_units : nat;
  vocab_size : nat;
  lstm_dropout_keep_prob : R
}.

(** The variables [build_seq_embeddings] and [build_model] create. *)
Record Variables := mkVariables {
  embedding_map : T2;     (* seq_embedding/map: [vocab_size, embedding_size] *)
  lstm_kernel : T2;       (* lstm: [2 * embedding_size + H, 4 * H] *)
  lstm_bias : T1;         (* lstm: [4 * H] *)
  logits_weights : T2;    (* logits: [H, vocab_size] *)
  logits_biases : T1      (* logits: [vocab_size] *)
}.

(** The random source of the dropout operations: a stream of uniform
    samples and the position of the next one. *)
Record Rng := mkRng { samples : nat -> R; cursor : nat }.

(** What the core keeps from one call to the next. *)
Record Session := mkSession { variables : Variables; rng : Rng }.

(** Computations that read the variables, may draw random numbers and may
    fail. *)
Definition M (A : Type) : Type := Session -> option (A * Session).

Definition ret {A : Type} (a : A) : M A := fun s => Some (a, s).

Definition mbind {A B : Type} (m : M A) (k : A -> M B) : M B :=
  fun s => match m s with
           | Some (a, s') => k a s'
           | None => None
           end.

Definition lift {A : Type} (o : option A) : M A :=
  fun s => match o with
           | Some a => Some (a, s)
           | None => None
           end.

Definition get_variables : M Variables := fun s => Some (variables s, s).

(** [n] fresh uniform samples. *)
Definition random_uniform (n : nat) : M T1 :=
  fun s =>
    let r := rng s in
    Some (map (fun k => samples r (cursor r + k)) (seq 0 n),
          {| variables := variables s;
             rng := {| samples := samples r; cursor := cursor r + n |} |}).

Declare Scope M_scope.
Delimit Scope M_scope with M.

Notation "x <- e ;; k" := (mbind e (fun x => k))
  (at level 61, e at next level, right associativity) : M_scope.
Notation "' p <- e ;; k" := (mbind e (fun x => match x with p => k end))
  (at level 61, p pattern, e at next level, right associativity) : M_scope.

Fixpoint mapM_M {A B : Type} (f : A -> M B) (l : list A) : M (list B) :=
  match l with
  | [] => ret []
  | a :: l' => (b <- f a ;; bs <- mapM_M f l' ;; ret (b :: bs))%M
  end.

Section Model.

Local Open Scope M_scope.
Local Open Scope R_scope.

(** [tf.nn.dropout(x, keep_prob)]: [x / keep_prob * floor(keep_prob + u)]
    with one fresh sample [u] per entry. *)
Definition dropout_row (keep_prob : R) (row : T1) : M T1 :=
  u <- random_uniform (length row) ;;
  lift (zipWithM (fun x ui => Some (x / keep_prob * NN.floor (keep_prob + ui)))
                 row u).

Definition dropout (keep_prob : R) (x : T2) : M T2 :=
  mapM_M (dropout_row keep_prob) x.

(** [DropoutWrapper]: a keep probability below one drops entries. *)
Definition maybe_dropout (keep_prob : R) (x : T2) : M T2 :=
  if Rlt_dec keep_prob 1 then dropout keep_prob x else ret x.

Variable config : ModelConfig.

Definition basic_lstm_cell (inputs : T2) (state : T2 * T2) : M (T2 * (T2 * T2)) :=
  vars <- get_variables ;;
  lift (NN.BasicLSTMCell (num_lstm_units config) (lstm_kernel vars)
          (lstm_bias vars) inputs state).

(** The cell [build_model] uses: wrapped in dropout on its input and its
    output when the mode is "train". *)
Definition lstm_cell (mode : Mode) (inputs : T2) (state : T2 * T2)
    : M (T2 * (T2 * T2)) :=
  match mode with
  | train =>
      let keep_prob := lstm_dropout_keep_prob config in
      inputs <- maybe_dropout keep_prob inputs ;;
      '(output, new_state) <- basic_lstm_cell inputs state ;;
      output <- maybe_dropout keep_prob output ;;
      ret (output, new_state)
  | _ => basic_lstm_cell inputs state
  end.

(** Scope [process_lstm_input]: the fused image context and the sequence
    context. *)
Definition process_lstm_input (mode : Mode)
    (image_embeddings region_aspect_embeddings : T2) (seq_embeddings : T3)
    : option (T2 * T3) :=
  (image_embeddings_with_aspect <-
     NN.concat1 [image_embeddings; region_aspect_embeddings] ;;
   let expand_region_aspect_embeddings := NN.expand_dims1 image_embeddings in
   let tile_expand_region_aspect_embeddings :=
     match mode with
     | inference =>
         NN.tile3 (NN.shape0 seq_embeddings) 1 1 expand_region_aspect_embeddings
     | _ =>
         NN.tile3 1 (NN.shape1 seq_embeddings) 1 expand_region_aspect_embeddings
     end in
   seq_embeddings_with_aspect <-
     NN.concat2 seq_embeddings tile_expand_region_aspect_embeddings ;;
   Some (image_embeddings_with_aspect, seq_embeddings_with_aspect))%opt.

(** The loop of [tf.nn.dynamic_rnn] over the time-major inputs: the cell
    runs on the whole batch at every step; an example whose length is
    reached gets a zero output and keeps its state. *)
Fixpoint rnn_loop (cell : T2 -> T2 * T2 -> M (T2 * (T2 * T2)))
    (inputs : list T2) (time : nat) (sequence_length : list Z)
    (zero_output : T2) (state : T2 * T2) : M (list T2 * (T2 * T2)) :=
  match inputs with
  | [] => ret ([], state)
  | input_t :: rest =>
      '(new_output, new_state) <- cell input_t state ;;
      let copy_cond := map (fun len => (len <=? Z.of_nat time)%Z) sequence_length in
      output <- lift (NN.where_rows copy_cond zero_output new_output) ;;
      c <- lift (NN.where_rows copy_cond (fst state) (fst new_state)) ;;
      h <- lift (NN.where_rows copy_cond (snd state) (snd new_state)) ;;
      '(outputs, final_state) <-
         rnn_loop cell rest (S time) sequence_length zero_output (c, h) ;;
      ret (output :: outputs, final_state)
  end.

(** [tf.nn.dynamic_rnn(cell, inputs, sequence_length, initial_state)] on
    batch-major inputs of shape [batch, time, depth]. *)
Definition dynamic_rnn (cell : T2 -> T2 * T2 -> M (T2 * (T2 * T2)))
    (inputs : T3) (sequence_length : list Z) (initial_state : T2 * T2)
    : M (T3 * (T2 * T2)) :=
  let batch := length inputs in
  inputs_by_time <- lift (NN.swap01 (NN.shape1 inputs) inputs) ;;
  _ <- lift (if (length sequence_length =? batch)%nat then Some tt else None) ;;
  let zero_output := repeat (repeat 0 (num_lstm_units config)) batch in
  '(outputs_by_time, final_state) <-
     rnn_loop cell inputs_by_time 0 sequence_length zero_output initial_state ;;
  outputs <- lift (NN.swap01 batch outputs_by_time) ;;
  ret (outputs, final_state).

(** What is fed to the graph. *)
Record Feeds := mkFeeds {
  image_embeddings : T2;            (* [batch, embedding_size] *)
  region_aspect_embeddings : T2;    (* [batch, embedding_size] *)
  input_seqs : list (list Z);       (* [batch, padded_length] *)
  target_seqs : list (list Z);      (* training and eval only *)
  input_mask : list (list Z);       (* training and eval only *)
  state_feed : T2                   (* inference only: [batch, 2 * H] *)
}.

(** The tensors of the graph that callers fetch; the ones a mode does not
    build are [None]. *)
Record Fetches := mkFetches {
  image_embeddings_with_aspect : T2;
  seq_embeddings_with_aspect : T3;
  logits : T2;
  initial_state : option T2;
  state : option T2;
  softmax : option T2;
  batch_loss : option R;
  target_cross_entropy_losses : option T1;
  target_cross_entropy_loss_weights : option T1
}.

(** [build_seq_embeddings] *)
Definition build_seq_embeddings (input_seqs : list (list Z)) : M T3 :=
  vars <- get_variables ;;
  lift (NN.embedding_lookup (embedding_map vars) input_seqs).

(** The first call of the cell, on the fused image context and the zero
    state. *)
Definition seed_state (mode : Mode) (image_embeddings_with_aspect : T2)
    (batch_size : nat) : M (T2 * T2) :=
  let zero_state := NN.zero_state batch_size (num_lstm_units config) in
  '(_, initial_state) <- lstm_cell mode image_embeddings_with_aspect zero_state ;;
  ret initial_state.

Definition project_logits (lstm_outputs : T2) : M T2 :=
  vars <- get_variables ;;
  lift (NN.fully_connected (logits_weights vars) (logits_biases vars)
          (vocab_size config) lstm_outputs).

(** [build_seq_embeddings] followed by [build_model]. *)
Definition build_model (mode : Mode) (feeds : Feeds) : M Fetches :=
  seq_embeddings <- build_seq_embeddings (input_seqs feeds) ;;
  '(with_aspect, seq_with_aspect) <-
     lift (process_lstm_input mode (image_embeddings feeds)
             (region_aspect_embeddings feeds) seq_embeddings) ;;
  initial_state <- seed_state mode with_aspect (length (image_embeddings feeds)) ;;
  match mode with
  | inference =>
      initial_concat <-
        lift (NN.concat1 [fst initial_state; snd initial_state]) ;;
      state_feed <-
        lift (NN.placeholder (2 * num_lstm_units config) (state_feed feeds)) ;;
      state_tuple <- lift (NN.split1 2 state_feed) ;;
      match state_tuple with
      | [c; h] =>
          inputs <- lift (NN.squeeze1 seq_with_aspect) ;;
          '(lstm_outputs, state_tuple) <- lstm_cell mode inputs (c, h) ;;
          state <- lift (NN.concat1 [fst state_tuple; snd state_tuple]) ;;
          lstm_outputs <-
            lift (NN.reshape_rows (num_lstm_units config) [lstm_outputs]) ;;
          logits <- project_logits lstm_outputs ;;
          ret {| image_embeddings_with_aspect := with_aspect;
                 seq_embeddings_with_aspect := seq_with_aspect;
                 logits := logits;
                 initial_state := Some initial_concat;
                 state := Some state;
                 softmax := Some (NN.softmax logits);
                 batch_loss := None;
                 target_cross_entropy_losses := None;
                 target_cross_entropy_loss_weights := None |}
      | _ => lift None
      end
  | _ =>
      let sequence_length := NN.reduce_sum_rows (input_mask feeds) in
      '(lstm_outputs, _) <-
         dynamic_rnn (lstm_cell mode) seq_with_aspect sequence_length
                     initial_state ;;
      lstm_outputs <-
        lift (NN.reshape_rows (num_lstm_units config) lstm_outputs) ;;
      logits <- project_logits lstm_outputs ;;
      let targets := concat (target_seqs feeds) in
      let weights := map IZR (concat (input_mask feeds)) in
      losses <- lift (NN.sparse_softmax_cross_entropy_with_logits targets logits) ;;
      weighted <- lift (NN.multiply1 losses weights) ;;
      let batch_loss := NN.sum weighted / NN.sum weights in
      ret {| image_embeddings_with_aspect := with_aspect;
             seq_embeddings_with_aspect := seq_with_aspect;
             logits := logits;
             initial_state := None;
             state := None;
             softmax := None;
             batch_loss := Some batch_loss;
             target_cross_entropy_losses := Some losses;
             target_cross_entropy_loss_weights := Some weights |}
  end.

End Model.

(** ** The stepwise protocol of a decoding driver

    A driver first fetches [initial_state] for its image, then calls the
    graph once per token, feeding the state the previous call returned. *)

Section Stepwise.

Local Open Scope M_scope.

Variable config : ModelConfig.

(** Modelled from the spec: the driver side of the stepwise protocol
    ([ricga/inference_wrapper.py] is not among the sources).  Fetching
    [lstm/initial_state] with only the image fed. *)
Definition fetch_initial_state (image_embeddings region_aspect_embeddings : T2)
    : M T2 :=
  with_aspect <-
    lift (NN.concat1 [image_embeddings; region_aspect_embeddings]) ;;
  initial_state <-
    seed_state config inference with_aspect (length image_embeddings) ;;
  lift (NN.concat1 [fst initial_state; snd initial_state]).

(** Modelled from the spec: one call of the driver on the graph of
    [build_model]: the tokens of [input_feed] (one per hypothesis, expanded
    to shape [batch, 1] as in [build_inputs]) and the states of [state_feed]
    go in, the fetched tensors come out. *)
Definition inference_step (image_embeddings region_aspect_embeddings : T2)
    (input_feed : list Z) (state_feed : T2) : M Fetches :=
  build_model config inference
    {| image_embeddings := image_embeddings;
       region_aspect_embeddings := region_aspect_embeddings;
       input_seqs := map (fun token => [token]) input_feed;
       target_seqs := [];
       input_mask := [];
       state_feed := state_feed |}.

(** Modelled from the spec: one hypothesis decoded token by token, the
    state of each call fed to the next; the logits of every call are
    collected. *)
Fixpoint stepwise_loop (image_embeddings region_aspect_embeddings : T2)
    (tokens : list Z) (previous_state : T2) : M (list T2) :=
  match tokens with
  | [] => ret []
  | token :: rest =>
      out <- inference_step image_embeddings region_aspect_embeddings
               [token] previous_state ;;
      new_state <- lift (state out) ;;
      more <- stepwise_loop image_embeddings region_aspect_embeddings
                rest new_state ;;
      ret (logits out :: more)
  end.

(** Modelled from the spec: a whole stepwise run for one image, from the
    seeded initial state. *)
Definition stepwise (image_embedding region_aspect_embedding : T1)
    (tokens : list Z) : M (list T2) :=
  first_state <-
    fetch_initial_state [image_embedding] [region_aspect_embedding] ;;
  stepwise_loop [image_embedding] [region_aspect_embedding] tokens first_state.

(** Stepwise decoding of every example of a batch agrees with the logits
    [build_model] computes for the batch in [mode]: whenever the batch run
    succeeds, so does the stepwise run of example [b] over its valid
    tokens, with the same logits at every valid position. *)
Definition stepwise_agrees (mode : Mode) (s : Session) (feeds : Feeds) : Prop :=
  forall out s',
    build_model config mode feeds s = Some (out, s') ->
    forall b image region tokens mask,
      nth_error (image_embeddings feeds) b = Some image ->
      nth_error (region_aspect_embeddings feeds) b = Some region ->
      nth_error (input_seqs feeds) b = Some tokens ->
      nth_error (input_mask feeds) b = Some mask ->
      let valid := Z.to_nat (fold_right Z.add 0%Z mask) in
      exists steps s'',
        stepwise image region (firstn valid tokens) s = Some (steps, s'') /\
        length steps = Nat.min valid (length tokens) /\
        forall t, (t < valid)%nat -> (t < length tokens)%nat ->
          exists row,
            nth_error (logits out) (b * length tokens + t) = Some row /\
            nth_error steps t = Some [row].

End Stepwise.

(** ** Two views of [build_model] in unrolled mode

    The unrolled branch of [build_model] is the computation of the logits
    followed by the loss head; the two parts are named here so that they
    can be reasoned about one at a time. *)

Section UnrolledParts.

Local Open Scope M_scope.
Local Open Scope R_scope.

Variable config : ModelConfig.

Definition unrolled_logits (mode : Mode) (feeds : Feeds) : M (T2 * T3 * T2) :=
  seq_embeddings <- build_seq_embeddings (input_seqs feeds) ;;
  '(with_aspect, seq_with_aspect) <-
     lift (process_lstm_input mode (image_embeddings feeds)
             (region_aspect_embeddings feeds) seq_embeddings) ;;
  initial_state <-
    seed_state config mode with_aspect (length (image_embeddings feeds)) ;;
  '(lstm_outputs, _) <-
     dynamic_rnn config (lstm_cell config mode) seq_with_aspect
       (NN.reduce_sum_rows (input_mask feeds)) initial_state ;;
  lstm_outputs <- lift (NN.reshape_rows (num_lstm_units config) lstm_outputs) ;;
  logits <- project_logits config lstm_outputs ;;
  ret (with_aspect, seq_with_aspect, logits).

(** The weighted per-token losses: cross entropy of every flattened
    position times its mask weight. *)
Definition weighted_losses (targets : list Z) (logits : T2) (weights : T1)
    : option (T1 * T1) :=
  (losses <- NN.sparse_softmax_cross_entropy_with_logits targets logits ;;
   weighted <- NN.multiply1 losses weights ;;
   Some (losses, weighted))%opt.

Definition loss_head (feeds : Feeds) (with_aspect : T2) (seq_with_aspect : T3)
    (logits : T2) : option Fetches :=
  let weights := map IZR (concat (input_mask feeds)) in
  ('(losses, weighted) <-
     weighted_losses (concat (target_seqs feeds)) logits weights ;;
   Some {| image_embeddings_with_aspect := with_aspect;
           seq_embeddings_with_aspect := seq_with_aspect;
           logits := logits;
           initial_state := None;
           state := None;
           softmax := None;
           batch_loss := Some (NN.sum weighted / NN.sum weights);
           target_cross_entropy_losses := Some losses;
           target_cross_entropy_loss_weights := Some weights |})%opt.

End UnrolledParts.

(** The sum over all flattened token positions of loss times weight. *)
Definition masked_sum (losses weights : T1) : R :=
  NN.sum (map (fun p => (fst p * snd p)%R) (combine losses weights)).

(** Replacing the target sequences of a set of feeds. *)
Definition with_targets (feeds : Feeds) (targets : list (list Z)) : Feeds :=
  {| image_embeddings := image_embeddings feeds;
     region_aspect_embeddings := region_aspect_embeddings feeds;
     input_seqs := input_seqs feeds;
     target_seqs := targets;
     input_mask := input_mask feeds;
     state_feed := state_feed feeds |}.

(** *** A small concrete model

    One image, a vocabulary of two words, embeddings of length one, one LSTM
    unit.  The recurrent kernel is zero and the bias opens the candidate
    gate, so the cell state grows at every step. *)

Definition tiny_config : ModelConfig :=
  {| embedding_size := 1;
     num_lstm_units := 1;
     vocab_size := 2;
     lstm_dropout_keep_prob := 0.5%R |}.

Definition tiny_variables : Variables :=
  {| embedding_map := [[1]; [2]]%R;
     lstm_kernel := [[0; 0; 0; 0]; [0; 0; 0; 0]; [0; 0; 0; 0]]%R;
     lstm_bias := [0; 1; 0; 0]%R;
     logits_weights := [[1; -1]]%R;
     logits_biases := [0; 0]%R |}.

Definition tiny_session : Session :=
  {| variables := tiny_variables;
     rng := {| samples := fun _ => 0%R; cursor := 0 |} |}.

(** One caption of padded length two whose first token only is valid. *)
Definition tiny_feeds : Feeds :=
  {| image_embeddings := [[1]]%R;
     region_aspect_embeddings := [[1]]%R;
     input_seqs := [[0; 1]]%Z;
     target_seqs := [[1; 0]]%Z;
     input_mask := [[1; 0]]%Z;
     state_feed := [] |}.

(** A computation that leaves the session as it found it and whose result
    depends on the session through the variables only. *)
Definition session_pure {A : Type} (m : M A) : Prop :=
  forall s,
    (forall a s', m s = Some (a, s') -> s' = s) /\
    (forall s2, variables s2 = variables s ->
       option_map fst (m s2) = option_map fst (m s)).

(** The same variables with another random source. *)
Definition reseeded_session : Session :=
  {| variables := tiny_variables;
     rng := {| samples := fun _ => 0.25%R; cursor := 7 |} |}.

(** ** The caption drivers ([run_inference.py], [create_results.py]) *)

(** A finished hypothesis of the beam search. *)
Record Caption := mkCaption {
  sentence : list Z;      (* token ids, begin and end tokens included *)
  logprob : R
}.

(** An entry of the annotation file. *)
Record ImgObj := mkImgObj { file_name : string; id : Z }.

(** An entry of the result file. *)
Record CaptionRecord := mkCaptionRecord { image_id : Z; caption : string }.

(** What the drivers print, one constructor per [print] statement with the
    values substituted into its format string. *)
Inductive Line :=
| CaptionsFor (basename : string)
| CaptionLine (i : nat) (sentence : string) (p : R)
| Progress (done total : Z).

Section Drivers.

(** The vocabulary, the beam search, the file system and the path
    functions are outside this file's scope. *)
Variable id_to_word : Z -> string.
Variable beam_search : string -> list Caption.
Variable read_file : string -> option string.
Variable basename : string -> string.
Variable path_join : string -> string -> string.

(** The two statements both drivers share:
    [sentence = [vocab.id_to_word(w) for w in caption.sentence[1:-1]]] and
    [sentence = " ".join(sentence)]. *)
Definition joined_sentence (c : Caption) : string :=
  let words := map id_to_word (Py.slice (Some 1%Z) (Some (-1)%Z) (sentence c)) in
  Py.join " " words.

(** [run_inference.main] from the loop over the files on: the printed
    lines, and whether the loop ran to its end ([false]: a file could not
    be read). *)
Fixpoint run_inference (filenames : list string) : list Line * bool :=
  match filenames with
  | [] => ([], true)
  | filename :: rest =>
      match read_file filename with
      | None => ([], false)
      | Some image =>
          let captions := beam_search image in
          let printed :=
            CaptionsFor (basename filename)
            :: map (fun ic : nat * Caption =>
                      let (i, c) := ic in
                      CaptionLine i (joined_sentence c) (exp (logprob c)))
                   (Py.enumerate captions) in
          let (more, finished) := run_inference rest in
          (printed ++ more, finished)
      end
  end.

Variable image_dir : string.
Variable img_objs : list ImgObj.
Variable eval_num : Z.

(** One round of the loop of [create_results.main] on the list [result]
    and the printed lines; [None] is an exception. *)
Definition create_results_round (acc : option (list CaptionRecord * list Line))
    (i : nat) : option (list CaptionRecord * list Line) :=
  ('(result, printed) <- acc ;;
   img <- nth_error img_objs i ;;
   image <- read_file (path_join image_dir (file_name img)) ;;
   first_caption <- nth_error (beam_search image) 0 ;;
   let result :=
     result ++ [{| image_id := id img;
                   caption := joined_sentence first_caption |}] in
   let total := Z.min (Z.of_nat (length img_objs)) eval_num in
   let printed :=
     if ((Z.of_nat i + 1) mod 10 =? 0)%Z
     then printed ++ [Progress (Z.of_nat i + 1) total]
     else printed in
   Some (result, printed))%opt.

(** [create_results.main]: the records handed to [json.dump], and the
    printed lines. *)
Definition create_results : option (list CaptionRecord * list Line) :=
  fold_left create_results_round
    (Py.range (Z.min (Z.of_nat (length img_objs)) eval_num))
    (Some ([], [])).

(** The record of one annotated image. *)
Definition record_of (img : ImgObj) : option CaptionRecord :=
  (image <- read_file (path_join image_dir (file_name img)) ;;
   first_caption <- nth_error (beam_search image) 0 ;;
   Some {| image_id := id img; caption := joined_sentence first_caption |})%opt.

End Drivers.

(** The record count in the words of the specification: the run writes its
    records, and they are [min(len(img_objs), eval_num)] in number. *)
Definition writes_min_records
    (id_to_word : Z -> string) (beam_search : string -> list Caption)
    (read_file : string -> option string)
    (path_join : string -> string -> string)
    (image_dir : string) (img_objs : list ImgObj) (eval_num : Z) : Prop :=
  exists records printed,
    create_results id_to_word beam_search read_file path_join image_dir
      img_objs eval_num = Some (records, printed) /\
    Z.of_nat (length records) = Z.min (Z.of_nat (length img_objs)) eval_num.

(** *** A small concrete run of the drivers *)

Definition two_words (token : Z) : string :=
  if (token =? 1)%Z then "<S>"%string
  else if (token =? 2)%Z then "</S>"%string
  else if (token =? 3)%Z then "a"%string
  else "dog"%string.

Definition one_hypothesis (image : string) : list Caption :=
  [{| sentence := [1; 3; 4; 2]%Z; logprob := 0%R |}].

Definition every_file (filename : string) : option string := Some filename.

Definition two_images : list ImgObj :=
  [{| file_name := "a.jpg"; id := 7%Z |}; {| file_name := "b.jpg"; id := 9%Z |}].

(** One example followed through successive calls of a cell on one row:
    the outputs, in order. *)
Fixpoint row_run (cell : T1 -> T1 * T1 -> option (T1 * (T1 * T1)))
    (xs : list T1) (st : T1 * T1) : option (list T1) :=
  match xs with
  | [] => Some []
  | x :: xs' =>
      '(out, st') <- cell x st ;;
      outs <- row_run cell xs' st' ;;
      Some (out :: outs)
  end.

(** ** Definitions for the further properties

    Shapes, views and small concrete inputs used by the second part of the
    properties. *)

(** *** Detector rows of any length *)

(** The fields of a detector row as the slices of the code cut them:
    [row[:4]], [row[-8:-4]] and [row[-4:]]. *)
Definition offsets_of (row : T1) : Offsets :=
  mkOffsets (nth 0 row 0%R) (nth 1 row 0%R) (nth 2 row 0%R) (nth 3 row 0%R).

Definition prior_of (row : T1) : Prior :=
  let n := length row in
  mkPrior (nth (n - 8) row 0%R) (nth (n - 7) row 0%R)
          (nth (n - 6) row 0%R) (nth (n - 5) row 0%R).

Definition variances_of (row : T1) : Variances :=
  let n := length row in
  mkVariances (nth (n - 4) row 0%R) (nth (n - 3) row 0%R)
              (nth (n - 2) row 0%R) (nth (n - 1) row 0%R).

Definition decode_row (row : T1) : T1 :=
  box_row (BoxDecoder (prior_of row) (offsets_of row) (variances_of row)).

(** A row of at least eight entries, or eight zeros in its place. *)
Definition at_least_eight (row : T1) : T1 :=
  if (8 <=? length row)%nat then row else repeat 0%R 8.

(** The candidate that the suppression keeps for one image. *)
Definition selected_candidate (row : list Candidate) : option Candidate :=
  nth_error row (top_index (map max_conf row)).

(** *** Shapes of the variables and of the feeds *)

(** Every row of a rank-2 tensor has [n] entries. *)
Definition rows_of_width (n : nat) (t : T2) : Prop :=
  Forall (fun row : T1 => length row = n) t.

(** The shapes with which the graph creates its variables: the embedding
    map is [vocab_size, embedding_size]; the kernel of the cell, created
    at its first call on the fused image context, is
    [2 * embedding_size + num_lstm_units, 4 * num_lstm_units]. *)
Definition well_shaped_variables (config : ModelConfig) (vars : Variables) : Prop :=
  let E := embedding_size config in
  let H := num_lstm_units config in
  let V := vocab_size config in
  length (embedding_map vars) = V /\ rows_of_width E (embedding_map vars) /\
  length (lstm_kernel vars) = (2 * E + H)%nat /\
  rows_of_width (4 * H) (lstm_kernel vars) /\
  length (lstm_bias vars) = (4 * H)%nat /\
  length (logits_weights vars) = H /\ rows_of_width V (logits_weights vars) /\
  length (logits_biases vars) = V.

(** Every token is an index into the vocabulary. *)
Definition tokens_in_vocabulary (config : ModelConfig) (seqs : list (list Z)) : Prop :=
  Forall (Forall (fun token => (0 <= token < Z.of_nat (vocab_size config))%Z)) seqs.

(** Feeds of the shapes the attributes of the model document, for a batch
    of [B] examples padded to the length [T]. *)
Definition well_shaped_batch (config : ModelConfig) (B T : nat) (feeds : Feeds) : Prop :=
  let E := embedding_size config in
  length (image_embeddings feeds) = B /\
  rows_of_width E (image_embeddings feeds) /\
  length (region_aspect_embeddings feeds) = B /\
  rows_of_width E (region_aspect_embeddings feeds) /\
  length (input_seqs feeds) = B /\
  Forall (fun row => length row = T) (input_seqs feeds) /\
  tokens_in_vocabulary config (input_seqs feeds) /\
  length (target_seqs feeds) = B /\
  Forall (fun row => length row = T) (target_seqs feeds) /\
  tokens_in_vocabulary config (target_seqs feeds) /\
  length (input_mask feeds) = B /\
  Forall (fun row => length row = T) (input_mask feeds).

(** What is fed to one call in inference mode: one image, one token per
    hypothesis ([input_seqs = tf.expand_dims(input_feed, 1)] in
    [build_inputs]), one state vector per hypothesis. *)
Definition stepwise_feeds (image region : T1) (input_feed : list Z) (fed_state : T2)
    : Feeds :=
  {| image_embeddings := [image];
     region_aspect_embeddings := [region];
     input_seqs := map (fun token => [token]) input_feed;
     target_seqs := [];
     input_mask := [];
     state_feed := fed_state |}.

(** Replacing the region embeddings of a set of feeds. *)
Definition with_region (feeds : Feeds) (region : T2) : Feeds :=
  {| image_embeddings := image_embeddings feeds;
     region_aspect_embeddings := region;
     input_seqs := input_seqs feeds;
     target_seqs := target_seqs feeds;
     input_mask := input_mask feeds;
     state_feed := state_feed feeds |}.

(** *** Two more views of [build_model] *)

(** The inference branch of [build_model] as a function of the variables
    and the feeds: without dropout nothing else of the session is used. *)
Definition inference_graph (config : ModelConfig) (vars : Variables) (feeds : Feeds)
    : option Fetches :=
  let H := num_lstm_units config in
  let cell := NN.BasicLSTMCell H (lstm_kernel vars) (lstm_bias vars) in
  seq_embeddings <- NN.embedding_lookup (embedding_map vars) (input_seqs feeds) ;;
  '(with_aspect, seq_with_aspect) <-
     process_lstm_input inference (image_embeddings feeds)
       (region_aspect_embeddings feeds) seq_embeddings ;;
  '(_, initial_state) <-
     cell with_aspect (NN.zero_state (length (image_embeddings feeds)) H) ;;
  initial_concat <- NN.concat1 [fst initial_state; snd initial_state] ;;
  state_feed <- NN.placeholder (2 * H) (state_feed feeds) ;;
  state_tuple <- NN.split1 2 state_feed ;;
  match state_tuple with
  | [c; h] =>
      inputs <- NN.squeeze1 seq_with_aspect ;;
      '(lstm_outputs, state_tuple) <- cell inputs (c, h) ;;
      state <- NN.concat1 [fst state_tuple; snd state_tuple] ;;
      lstm_outputs <- NN.reshape_rows H [lstm_outputs] ;;
      logits <- NN.fully_connected (logits_weights vars) (logits_biases vars)
                  (vocab_size config) lstm_outputs ;;
      Some {| image_embeddings_with_aspect := with_aspect;
              seq_embeddings_with_aspect := seq_with_aspect;
              logits := logits;
              initial_state := Some initial_concat;
              state := Some state;
              softmax := Some (NN.softmax logits);
              batch_loss := None;
              target_cross_entropy_losses := None;
              target_cross_entropy_loss_weights := None |}
  | _ => None
  end.

(** One example decoded on its own, row by row: the seed from its fused
    image context, the cell over its token embeddings, the projection of
    every output. *)
Definition example_logits (config : ModelConfig) (vars : Variables)
    (image region : T1) (tokens : list Z) : option (list T1) :=
  let H := num_lstm_units config in
  let cell := NN.BasicLSTMCell_row H (lstm_kernel vars) (lstm_bias vars) in
  embeddings <- mapM (NN.lookup_row (embedding_map vars)) tokens ;;
  '(_, seed) <- cell (image ++ region) (repeat 0%R H, repeat 0%R H) ;;
  outputs <- row_run cell (map (fun w => w ++ image) embeddings) seed ;;
  mapM (NN.linear (logits_weights vars) (logits_biases vars) (vocab_size config))
       outputs.

(** *** More small concrete inputs *)

(** The small model with a keep probability of one. *)
Definition keep_all_config : ModelConfig :=
  {| embedding_size := 1;
     num_lstm_units := 1;
     vocab_size := 2;
     lstm_dropout_keep_prob := 1%R |}.

(** The caption of [tiny_feeds] with another second token, both tokens
    valid. *)
Definition other_feeds : Feeds :=
  {| image_embeddings := [[1]]%R;
     region_aspect_embeddings := [[1]]%R;
     input_seqs := [[0; 0]]%Z;
     target_seqs := [[1; 0]]%Z;
     input_mask := [[1; 1]]%Z;
     state_feed := [] |}.

(** A caption with a token outside the vocabulary of two words. *)
Definition unknown_token_feeds : Feeds :=
  {| image_embeddings := [[1]]%R;
     region_aspect_embeddings := [[1]]%R;
     input_seqs := [[0; 5]]%Z;
     target_seqs := [[1; 0]]%Z;
     input_mask := [[1; 0]]%Z;
     state_feed := [] |}.

(** One call in inference mode on the image of [tiny_feeds]: one
    hypothesis with the token 0 and the zero state. *)
Definition one_call_feeds : Feeds :=
  stepwise_feeds [1]%R [1]%R [0]%Z [[0; 0]]%R.

(** *** The drivers, continued *)

(** [s.split(sep)] for a separator of one character. *)
Fixpoint split_on (sep : ascii) (s : string) : list string :=
  match s with
  | EmptyString => [EmptyString]
  | String c rest =>
      if Ascii.eqb c sep then EmptyString :: split_on sep rest
      else match split_on sep rest with
           | [] => [String c EmptyString]
           | piece :: pieces => String c piece :: pieces
           end
  end.

(** [c in s] *)
Fixpoint occurs (c : ascii) (s : string) : bool :=
  match s with
  | EmptyString => false
  | String c' rest => Ascii.eqb c' c || occurs c rest
  end.

(** The list [filenames] of [run_inference.main]:
    [for file_pattern in FLAGS.input_files.split(","):
       filenames.extend(tf.gfile.Glob(file_pattern))]. *)
Definition gather_filenames (glob : string -> list string) (input_files : string)
    : list string :=
  flat_map glob (split_on "," input_files).

(** The progress lines of [create_results.main] after [k] rounds: one for
    every tenth image. *)
Definition progress_lines (total : Z) (k : nat) : list Line :=
  map (fun j => Progress (10 * (Z.of_nat j + 1)) total) (seq 0 (k / 10)).

(** Twelve annotated images. *)
Definition twelve_images : list ImgObj :=
  repeat {| file_name := "a.jpg"; id := 7%Z |} 12.

(** A file system without the file [b.jpg]. *)
Definition all_but_b (filename : string) : option string :=
  if String.eqb filename "b.jpg" then None else Some filename.

(** The path of a file in a directory, for a directory that is the current
    one. *)
Definition in_current_directory (dir file : string) : string := file.

(** ** The whole graph ([build]) *)

(** [is_training] *)
Definition is_training (mode : Mode) : bool :=
  match mode with
  | train => true
  | _ => false
  end.

(** [tf.contrib.layers.fully_connected] without activation and without
    biases ([biases_initializer=None]). *)
Definition fully_connected_without_biases (W : T2) (num_outputs : nat) (inputs : T2)
    : option T2 :=
  mapM (fun x => NN.matvec_from (repeat 0%R num_outputs) x W) inputs.

(** [tf.reshape(t, tf.shape(like))] on rank-2 tensors: the entries of [t]
    in row-major order, in the shape of [like]. *)
Definition reshape_like (t like : T2) : option T2 :=
  let flat := concat t in
  if (length flat =? length like * NN.shape1 like)%nat
  then Some (NN.chunks (NN.shape1 like) (length like) flat)
  else None.

(** The weights of the two layers that map an Inception output into the
    embedding space: [image_embedding/weights] and, created under the
    scope [region_image_embedding], the one for the region images. *)
Record ImageVariables := mkImageVariables {
  image_embedding_weights : T2;
  region_embedding_weights : T2
}.

(** What [build_inputs] reads: the two placeholders of inference mode (and
    the state placeholder of [build_model]), or a batch dequeued from the
    input queue. *)
Inductive Inputs (Image : Type) :=
| Placeholders (image_feed : string) (input_feed : list Z) (fed_state : T2)
| Batch (images : list Image) (input_seqs target_seqs input_mask : list (list Z)).

Arguments Placeholders {Image} image_feed input_feed fed_state.
Arguments Batch {Image} images input_seqs target_seqs input_mask.

Section Build.

Local Open Scope M_scope.

(** The image type, the decoding and preprocessing of an image string, the
    two Inception networks (the second one is built under the scope
    [region_image_embedding]), the detector and the crop are outside this
    file's scope. *)
Variable Image : Type.
Variable process_image : bool -> string -> Image.
Variable inception_v3 : bool -> list Image -> T2.
Variable region_inception_v3 : bool -> list Image -> T2.
Variable resize_300x300 : Image -> Image.
Variable ssd : list Image -> T3.
Variable crop : Image -> T1 -> Image.

Variable config : ModelConfig.
Variable image_variables : ImageVariables.

(** [build_inputs]: the images, the input sequences, the target sequences
    and the mask (the last two are absent, here empty, in inference
    mode). *)
Definition build_inputs (mode : Mode) (inputs : Inputs Image)
    : option (list Image * list (list Z) * list (list Z) * list (list Z)) :=
  match mode, inputs with
  | inference, Placeholders image_feed input_feed _ =>
      Some ([process_image (is_training mode) image_feed],
            map (fun token => [token]) input_feed, [], [])
  | inference, Batch _ _ _ _ => None
  | _, Batch images input_seqs target_seqs input_mask =>
      Some (images, input_seqs, target_seqs, input_mask)
  | _, Placeholders _ _ _ => None
  end.

(** [image_inception_embeddings] *)
Definition image_inception_embeddings (inception : bool -> list Image -> T2)
    (weights : T2) (mode : Mode) (images : list Image) : option T2 :=
  let inception_output := inception (is_training mode) images in
  fully_connected_without_biases weights (embedding_size config) inception_output.

(** [build_image_embeddings] *)
Definition build_image_embeddings (mode : Mode) (images : list Image) : option T2 :=
  image_inception_embeddings inception_v3
    (image_embedding_weights image_variables) mode images.

(** [build_image_ssd_embeddings] from the region images on. *)
Definition build_region_aspect_embeddings (mode : Mode) (images : list Image)
    (image_embeddings : T2) : option T2 :=
  (regions <- build_image_ssd_embeddings resize_300x300 ssd crop images ;;
   region_image_embeddings <-
     image_inception_embeddings region_inception_v3
       (region_embedding_weights image_variables) mode (region_images regions) ;;
   reshape_like region_image_embeddings image_embeddings)%opt.

(** [build], up to the model. *)
Definition build (mode : Mode) (inputs : Inputs Image) : M Fetches :=
  '(images, input_seqs, target_seqs, input_mask) <- lift (build_inputs mode inputs) ;;
  image_embeddings <- lift (build_image_embeddings mode images) ;;
  region_aspect_embeddings <-
    lift (build_region_aspect_embeddings mode images image_embeddings) ;;
  build_model config mode
    {| image_embeddings := image_embeddings;
       region_aspect_embeddings := region_aspect_embeddings;
       input_seqs := input_seqs;
       target_seqs := target_seqs;
       input_mask := input_mask;
       state_feed := match inputs with
                     | Placeholders _ _ fed_state => fed_state
                     | Batch _ _ _ _ => []
                     end |}.

End Build.

(** A network that answers every batch with one row of [D] numbers per
    image. *)
Definition network_rows {Image : Type} (network : bool -> list Image -> T2)
    (D : nat) : Prop :=
  forall flag images,
    length (network flag images) = length images /\
    rows_of_width D (network flag images).

(** Weights of shape [D, embedding_size]. *)
Definition embedding_weights (config : ModelConfig) (W : T2) (D : nat) : Prop :=
  length W = D /\ rows_of_width (embedding_size config) W.

(** The detector answers [images] with the rows [dets]: at least one prior
    per image, at least one class confidence per prior. *)
Definition detector_rows {Image : Type} (resize_300x300 : Image -> Image)
    (ssd : list Image -> T3) (images : list Image) (dets : list (list Candidate))
    : Prop :=
  ssd (map resize_300x300 images) = map (map pack) dets /\
  length dets = length images /\
  Forall (fun row => row <> []) dets /\
  Forall (Forall (fun c => cand_conf c <> [])) dets.

(** Small networks on images without content: one number per image. *)
Definition unit_network (flag : bool) (images : list unit) : T2 :=
  map (fun _ => [1%R]) images.

Definition unit_image_variables : ImageVariables :=
  {| image_embedding_weights := [[1]]%R;
     region_embedding_weights := [[2]]%R |}.

Definition unit_image (flag : bool) (image_feed : string) : unit := tt.

(* ================================================================= *)
(** * Properties *)

(** ** Generic facts about the failure monad and the tensor operations *)

Section MonadFacts.

Context {A B C X : Type}.

Lemma mapM_map_Some (f : X -> A) (g : A -> option B) (h : X -> B) (l : list X) :
  (forall x, In x l -> g (f x) = Some (h x)) ->
  mapM g (map f l) = Some (map h l).
Proof.
  induction l as [|x l IH]; intros Hg; simpl; [reflexivity|].
  rewrite (Hg x (or_introl eq_refl)); simpl.
  rewrite IH by (intros; apply Hg; right; assumption).
  reflexivity.
Qed.

Lemma zipWithM_map_Some (f : X -> A) (g : X -> B) (op : A -> B -> option C)
    (h : X -> C) (l : list X) :
  (forall x, In x l -> op (f x) (g x) = Some (h x)) ->
  zipWithM op (map f l) (map g l) = Some (map h l).
Proof.
  induction l as [|x l IH]; intros Hop; simpl; [reflexivity|].
  rewrite (Hop x (or_introl eq_refl)); simpl.
  rewrite IH by (intros; apply Hop; right; assumption).
  reflexivity.
Qed.

End MonadFacts.

Section TensorFacts.

Context {X : Type}.

Local Open Scope R_scope.

Lemma index3_mapped (k : nat) (f : X -> T1) (h : X -> R) (d : list (list X)) :
  (forall x, nth_error (f x) k = Some (h x)) ->
  TF.index3 k (map (map f) d) = Some (map (map h) d).
Proof.
  intros Hk. unfold TF.index3.
  apply mapM_map_Some; intros row _.
  apply mapM_map_Some; intros x _. apply Hk.
Qed.

Lemma ew2_mapped (op : R -> R -> R) (f g : X -> R) (d : list (list X)) :
  TF.ew2 op (map (map f) d) (map (map g) d)
  = Some (map (map (fun x => op (f x) (g x))) d).
Proof.
  unfold TF.ew2.
  apply zipWithM_map_Some; intros row _.
  apply zipWithM_map_Some; intros x _. reflexivity.
Qed.

Lemma scale2_mapped (k : R) (f : X -> R) (d : list (list X)) :
  TF.scale2 k (map (map f) d) = map (map (fun x => k * f x)) d.
Proof.
  unfold TF.scale2. rewrite map_map.
  apply map_ext; intros row. apply map_map.
Qed.

Lemma exp2_mapped (f : X -> R) (d : list (list X)) :
  TF.exp2 (map (map f) d) = map (map (fun x => exp (f x))) d.
Proof.
  unfold TF.exp2. rewrite map_map.
  apply map_ext; intros row. apply map_map.
Qed.

Lemma column_mapped (f : X -> R) (d : list (list X)) :
  TF.newaxis1 (TF.expand_dims_last (map (map f) d))
  = map (fun row => [map (fun x => [f x]) row]) d.
Proof.
  unfold TF.newaxis1, TF.expand_dims_last.
  rewrite !map_map. apply map_ext; intros row.
  rewrite map_map. reflexivity.
Qed.

Lemma concat_last4_pair_mapped (f g : X -> T1) (d : list (list X)) :
  TF.concat_last4_pair (map (fun row => [map f row]) d)
                       (map (fun row => [map g row]) d)
  = Some (map (fun row => [map (fun x => f x ++ g x) row]) d).
Proof.
  unfold TF.concat_last4_pair.
  apply zipWithM_map_Some; intros row _. simpl.
  rewrite (zipWithM_map_Some f g _ (fun x => f x ++ g x)); [reflexivity|].
  intros; reflexivity.
Qed.

Lemma squeeze1_mapped (f : X -> T1) (d : list (list X)) :
  TF.squeeze1 (map (fun row => [map f row]) d) = Some (map (map f) d).
Proof.
  unfold TF.squeeze1.
  apply (mapM_map_Some (fun row => [map f row])); intros; reflexivity.
Qed.

Lemma clip3_mapped (lo hi : R) (f : X -> T1) (d : list (list X)) :
  TF.clip3 lo hi (map (map f) d)
  = map (map (fun x => map (fun v => Rmin (Rmax v lo) hi) (f x))) d.
Proof.
  unfold TF.clip3. rewrite map_map.
  apply map_ext; intros row. apply map_map.
Qed.

End TensorFacts.

(** ** Slices of a detector row *)

Section SliceFacts.

Context {A : Type}.

Lemma middle_of_app (a b c : list A) :
  firstn (length b) (skipn (length a) (a ++ b ++ c)) = b.
Proof.
  rewrite skipn_app, skipn_all, Nat.sub_diag. simpl.
  rewrite firstn_app, firstn_all, Nat.sub_diag. simpl.
  apply app_nil_r.
Qed.

(** [l[i:-j]] on [l = a ++ b ++ c] with [len(a) = i] and [len(c) = j > 0]. *)
Lemma slice_middle (a b c : list A) (i j : Z) :
  i = Z.of_nat (length a) -> (j = - Z.of_nat (length c))%Z -> c <> [] ->
  Py.slice (Some i) (Some j) (a ++ b ++ c) = b.
Proof.
  intros -> -> Hc. unfold Py.slice, Py.bound.
  assert (0 < length c)%nat by (destruct c; [congruence | simpl; lia]).
  rewrite !length_app.
  destruct (Z.ltb_spec (Z.of_nat (length a)) 0); [lia|].
  destruct (Z.ltb_spec (- Z.of_nat (length c)) 0); [|lia].
  replace (Z.to_nat (Z.min _ _)) with (length a) by lia.
  match goal with |- firstn ?n _ = _ => replace n with (length b) by lia end.
  apply middle_of_app.
Qed.

(** [l[:i]] on [l = a ++ b] with [len(a) = i]. *)
Lemma slice_prefix (a b : list A) (i : Z) :
  i = Z.of_nat (length a) ->
  Py.slice None (Some i) (a ++ b) = a.
Proof.
  intros ->. unfold Py.slice, Py.bound.
  rewrite length_app.
  destruct (Z.ltb_spec (Z.of_nat (length a)) 0); [lia|].
  match goal with |- firstn ?n _ = _ => replace n with (length a) by lia end.
  simpl. rewrite firstn_app, firstn_all, Nat.sub_diag. simpl.
  apply app_nil_r.
Qed.

(** [l[-j:]] on [l = a ++ c] with [len(c) = j > 0]. *)
Lemma slice_suffix (a c : list A) (j : Z) :
  (j = - Z.of_nat (length c))%Z -> c <> [] ->
  Py.slice (Some j) None (a ++ c) = c.
Proof.
  intros -> Hc. unfold Py.slice, Py.bound.
  assert (0 < length c)%nat by (destruct c; [congruence | simpl; lia]).
  rewrite length_app.
  destruct (Z.ltb_spec (- Z.of_nat (length c)) 0); [|lia].
  replace (Z.to_nat (Z.max _ _)) with (length a) by lia.
  match goal with |- firstn ?n _ = _ => replace n with (length c) by lia end.
  rewrite skipn_app, skipn_all, Nat.sub_diag. simpl.
  apply firstn_all.
Qed.

(** [l[-j:-k]] on [l = a ++ b ++ c] with [len(b ++ c) = j], [len(c) = k > 0]. *)
Lemma slice_suffix_middle (a b c : list A) (j k : Z) :
  (j = - Z.of_nat (length (b ++ c)))%Z -> (k = - Z.of_nat (length c))%Z ->
  c <> [] ->
  Py.slice (Some j) (Some k) (a ++ b ++ c) = b.
Proof.
  intros -> -> Hc. unfold Py.slice, Py.bound.
  assert (0 < length c)%nat by (destruct c; [congruence | simpl; lia]).
  rewrite !length_app.
  destruct (Z.ltb_spec (- Z.of_nat (length b + length c)) 0); [|lia].
  destruct (Z.ltb_spec (- Z.of_nat (length c)) 0); [|lia].
  replace (Z.to_nat (Z.max _ _)) with (length a) by lia.
  match goal with |- firstn ?n _ = _ => replace n with (length b) by lia end.
  apply middle_of_app.
Qed.

End SliceFacts.

Lemma pack_loc (c : Candidate) :
  Py.slice None (Some 4%Z) (pack c)
  = let o := cand_offsets c in [dx o; dy o; dw o; dh o].
Proof. unfold pack. apply slice_prefix. reflexivity. Qed.

Lemma pack_variances (c : Candidate) :
  Py.slice (Some (-4)%Z) None (pack c)
  = let v := cand_variances c in [vx v; vy v; vw v; vh v].
Proof.
  unfold pack. cbv zeta. rewrite 2!app_assoc.
  apply slice_suffix; [reflexivity | discriminate].
Qed.

Lemma pack_priorbox (c : Candidate) :
  Py.slice (Some (-8)%Z) (Some (-4)%Z) (pack c)
  = let p := cand_prior c in [px0 p; py0 p; px1 p; py1 p].
Proof.
  unfold pack. cbv zeta. rewrite app_assoc.
  apply slice_suffix_middle; [reflexivity | reflexivity | discriminate].
Qed.

Lemma pack_conf (c : Candidate) :
  Py.slice (Some 4%Z) (Some (-8)%Z) (pack c) = cand_conf c.
Proof.
  unfold pack. cbv zeta.
  apply slice_middle; [reflexivity | reflexivity | discriminate].
Qed.

Lemma slice3_mapped (lo hi : option Z) (g : Candidate -> T1)
    (dets : list (list Candidate)) :
  (forall c, Py.slice lo hi (pack c) = g c) ->
  TF.slice3 lo hi (map (map pack) dets) = map (map g) dets.
Proof.
  intros Hg. unfold TF.slice3. rewrite map_map.
  apply map_ext; intros row. rewrite map_map.
  apply map_ext; intros c. apply Hg.
Qed.

(** ** The box decoder *)

Lemma half_times (w : R) : (0.5 * w = w / 2)%R.
Proof. lra. Qed.

Ltac step_decode :=
  first
    [ erewrite index3_mapped by (intros; cbn; reflexivity)
    | rewrite ew2_mapped
    | rewrite scale2_mapped
    | rewrite exp2_mapped ];
  cbn [obind].

(** The code against the specification's decoder, on a detector output whose
    rows are laid out as offsets, class confidences, prior box, variances. *)
Lemma decode_bbox_of_packed (dets : list (list Candidate)) :
  decode_bbox_of (map (map pack) dets)
  = Some (map (map (fun c =>
       box_row (BoxDecoder (cand_prior c) (cand_offsets c) (cand_variances c))))
       dets).
Proof.
  unfold decode_bbox_of.
  rewrite (slice3_mapped _ _ _ dets pack_loc).
  rewrite (slice3_mapped _ _ _ dets pack_variances).
  rewrite (slice3_mapped _ _ _ dets pack_priorbox).
  unfold TF.subtract, TF.add, TF.multiply.
  repeat step_decode.
  rewrite !column_mapped.
  unfold TF.concat_last4, TF.concat_last4_from.
  repeat (rewrite concat_last4_pair_mapped; cbn [obind]).
  rewrite squeeze1_mapped; cbn [obind].
  rewrite clip3_mapped.
  f_equal. apply map_ext; intros row. apply map_ext; intros c.
  unfold box_row, BoxDecoder, clip01; cbn.
  rewrite !(half_times (exp _ * _)). reflexivity.
Qed.

(** C1: for every prior [(px0, py0, px1, py1)] with offsets
    [(dx, dy, dw, dh)] and variances [(vx, vy, vw, vh)] of every image, the
    code computes exactly the box [(cx - w/2, cy - h/2, cx + w/2, cy + h/2)]
    clipped elementwise to [0, 1], where [cx] and [cy] are both scaled by
    the prior width; the box is a function of these twelve numbers only. *)
Theorem decode_bbox_is_BoxDecoder (dets : list (list Candidate)) :
  decode_bbox_of (map (map pack) dets)
  = Some (map (map (fun c =>
      let '(mkPrior px0 py0 px1 py1) := cand_prior c in
      let '(mkOffsets dx dy dw dh) := cand_offsets c in
      let '(mkVariances vx vy vw vh) := cand_variances c in
      let clip := fun v => Rmin (Rmax v 0) 1 in
      let prior_w := px1 - px0 in
      let prior_h := py1 - py0 in
      let cx := dx * prior_w * vx + 0.5 * (px1 + px0) in
      let cy := dy * prior_w * vy + 0.5 * (py1 + py0) in
      let w := exp (dw * vw) * prior_w in
      let h := exp (dh * vh) * prior_h in
      [clip (cx - w / 2); clip (cy - h / 2);
       clip (cx + w / 2); clip (cy + h / 2)])) dets)%R.
Proof.
  rewrite decode_bbox_of_packed. f_equal.
  apply map_ext; intros row. apply map_ext; intros c.
  destruct c as [[dx dy dw dh] conf [px0 py0 px1 py1] [vx vy vw vh]].
  reflexivity.
Qed.

Section BoxBounds.

Local Open Scope R_scope.

Lemma clip01_bounds (v : R) : 0 <= clip01 v <= 1.
Proof.
  unfold clip01, Rmin, Rmax.
  destruct (Rle_dec v 0); destruct (Rle_dec _ 1); lra.
Qed.

Lemma clip01_monotone (u v : R) : u <= v -> clip01 u <= clip01 v.
Proof.
  intros Huv. unfold clip01, Rmin, Rmax.
  destruct (Rle_dec u 0); destruct (Rle_dec v 0);
    repeat match goal with |- context [Rle_dec ?a ?b] => destruct (Rle_dec a b) end;
    lra.
Qed.

Lemma scaled_extent_nonneg (t e : R) : 0 <= e -> 0 <= exp t * e / 2.
Proof.
  intros He. pose proof (exp_pos t) as Ht.
  assert (0 <= exp t * e) by (apply Rmult_le_pos; lra).
  lra.
Qed.

Lemma BoxDecoder_well_formed (p : Prior) (o : Offsets) (v : Variances) :
  px0 p <= px1 p -> py0 p <= py1 p ->
  well_formed_box (BoxDecoder p o v).
Proof.
  intros Hx Hy. unfold well_formed_box, BoxDecoder; cbn.
  pose proof (scaled_extent_nonneg (dw o * vw v) (px1 p - px0 p)) as Hw.
  pose proof (scaled_extent_nonneg (dh o * vh v) (py1 p - py0 p)) as Hh.
  repeat split; try apply clip01_bounds; apply clip01_monotone; lra.
Qed.

Lemma at2_mapped {X Y : Type} (f : X -> Y) (d : list (list X)) (i p : nat) :
  at2 (map (map f) d) i p = option_map f (at2 d i p).
Proof.
  unfold at2. rewrite nth_error_map.
  destruct (nth_error d i) as [row|]; cbn; [|reflexivity].
  apply nth_error_map.
Qed.

End BoxBounds.

(** C5: every prior with [px0 <= px1] and [py0 <= py1] is decoded, whatever
    its offsets and variances, to a box inside the unit square with
    [xmin <= xmax] and [ymin <= ymax]; and two priors with equal
    coordinates, offsets and variances (in any images, at any positions,
    with any class confidences) are decoded to the same box. *)
Theorem decoded_box_well_formed_and_determined
    (dets : list (list Candidate)) (i p : nat) (c : Candidate) :
  at2 dets i p = Some c ->
  (px0 (cand_prior c) <= px1 (cand_prior c))%R ->
  (py0 (cand_prior c) <= py1 (cand_prior c))%R ->
  exists boxes b,
    decode_bbox_of (map (map pack) dets) = Some boxes /\
    at2 boxes i p = Some (box_row b) /\
    well_formed_box b /\
    forall dets' i' p' c',
      at2 dets' i' p' = Some c' ->
      cand_prior c' = cand_prior c ->
      cand_offsets c' = cand_offsets c ->
      cand_variances c' = cand_variances c ->
      exists boxes',
        decode_bbox_of (map (map pack) dets') = Some boxes' /\
        at2 boxes' i' p' = Some (box_row b).
Proof.
  intros Hc Hx Hy.
  eexists; exists (decode_candidate c).
  split; [apply decode_bbox_of_packed|].
  split; [rewrite at2_mapped, Hc; reflexivity|].
  split; [apply BoxDecoder_well_formed; assumption|].
  intros dets' i' p' c' Hc' Hp Ho Hv.
  eexists; split; [apply decode_bbox_of_packed|].
  rewrite at2_mapped, Hc'; cbn.
  unfold decode_candidate. rewrite Hp, Ho, Hv. reflexivity.
Qed.

Lemma decoded_box_well_formed_and_determined_witness :
  exists boxes b,
    decode_bbox_of (map (map pack) [[unit_candidate]]) = Some boxes /\
    at2 boxes 0 0 = Some (box_row b) /\
    well_formed_box b /\
    forall dets' i' p' c',
      at2 dets' i' p' = Some c' ->
      cand_prior c' = cand_prior unit_candidate ->
      cand_offsets c' = cand_offsets unit_candidate ->
      cand_variances c' = cand_variances unit_candidate ->
      exists boxes',
        decode_bbox_of (map (map pack) dets') = Some boxes' /\
        at2 boxes' i' p' = Some (box_row b).
Proof.
  apply (@decoded_box_well_formed_and_determined
           [[unit_candidate]] 0 0 unit_candidate).
  - reflexivity.
  - simpl; lra.
  - simpl; lra.
Defined.

(** ** Suppression with a retention limit of one *)

Section TopScore.

Local Open Scope R_scope.

Variable scores : T1.

Let score (i : nat) : R := nth i scores 0.

Lemma insert_desc_head (i k0 : nat) (rest0 : list nat) :
  (forall j, In j (k0 :: rest0) -> score j <= score k0) ->
  exists k rest,
    NMS.insert_desc scores i (k0 :: rest0) = k :: rest /\
    (k = i \/ k = k0) /\
    forall j, j = i \/ In j (k0 :: rest0) -> score j <= score k.
Proof.
  intros Hmax. simpl.
  destruct (Rle_dec (nth k0 scores 0) (nth i scores 0)) as [Hle|Hgt].
  - exists i, (k0 :: rest0). split; [reflexivity|]. split; [left; reflexivity|].
    intros j [->|Hj]; [lra|].
    specialize (Hmax j Hj). unfold score in *. lra.
  - exists k0, (NMS.insert_desc scores i rest0).
    split; [reflexivity|]. split; [right; reflexivity|].
    intros j [->|Hj]; [unfold score; lra|].
    apply Hmax, Hj.
Qed.

Lemma insert_desc_In (i x : nat) (sorted : list nat) :
  In x (NMS.insert_desc scores i sorted) -> x = i \/ In x sorted.
Proof.
  induction sorted as [|j sorted IH]; simpl; intros Hx.
  - destruct Hx as [<-|[]]. left; reflexivity.
  - destruct (Rle_dec _ _).
    + destruct Hx as [<-|Hx]; [left; reflexivity | right; exact Hx].
    + destruct Hx as [<-|Hx]; [right; left; reflexivity|].
      destruct (IH Hx) as [->|Hin]; [left; reflexivity | right; right; exact Hin].
Qed.

Lemma sorted_indices_In (idxs : list nat) (x : nat) :
  In x (fold_right (NMS.insert_desc scores) [] idxs) -> In x idxs.
Proof.
  induction idxs as [|i idxs IH]; simpl; intros Hx; [exact Hx|].
  destruct (insert_desc_In _ _ _ Hx) as [->|Hin];
    [left; reflexivity | right; apply IH, Hin].
Qed.

Lemma sort_indices_head (idxs : list nat) :
  idxs <> [] ->
  exists k rest,
    fold_right (NMS.insert_desc scores) [] idxs = k :: rest /\
    In k idxs /\
    forall j, In j idxs -> score j <= score k.
Proof.
  induction idxs as [|i idxs IH]; intros Hne; [congruence|].
  simpl. destruct idxs as [|i' idxs'].
  - simpl. exists i, []. split; [reflexivity|]. split; [left; reflexivity|].
    intros j [<-|[]]. lra.
  - destruct IH as (k0 & rest0 & Hsort & Hin & Hmax); [discriminate|].
    assert (Hsorted : forall j, In j (k0 :: rest0) -> score j <= score k0).
    { intros j Hj. apply Hmax, sorted_indices_In. rewrite Hsort. exact Hj. }
    rewrite Hsort.
    destruct (insert_desc_head i k0 rest0 Hsorted) as (k & rest & Hins & Hk & Hall).
    exists k, rest. split; [exact Hins|]. split.
    + destruct Hk as [->| ->]; [left; reflexivity | right; exact Hin].
    + intros j [<-|Hj]; [apply Hall; left; reflexivity|].
      specialize (Hmax j Hj).
      assert (score k0 <= score k) by (apply Hall; right; left; reflexivity).
      lra.
Qed.

Lemma decreasing_arg_sort_head :
  scores <> [] ->
  exists rest,
    NMS.decreasing_arg_sort scores = top_index scores :: rest /\
    (top_index scores < length scores)%nat /\
    forall j, (j < length scores)%nat -> score j <= score (top_index scores).
Proof.
  intros Hne. unfold top_index, NMS.decreasing_arg_sort.
  destruct (sort_indices_head (seq 0 (length scores))) as (k & rest & Hs & Hin & Hmax).
  { destruct scores; [congruence | discriminate]. }
  rewrite Hs. simpl. exists rest. split; [reflexivity|].
  apply in_seq in Hin. split; [lia|].
  intros j Hj. apply Hmax, in_seq. lia.
Qed.

End TopScore.

Lemma greedy_limit_one (boxes : T2) (threshold : R) (k : nat) (rest : list nat) :
  NMS.greedy boxes threshold 1 (k :: rest) [] = Some [k].
Proof.
  simpl. destruct rest as [|k' rest']; reflexivity.
Qed.

Lemma non_max_suppression_limit_one (boxes : T2) (scores : T1) :
  Forall (fun b : T1 => length b = 4%nat) boxes ->
  length scores = length boxes ->
  boxes <> [] ->
  NMS.non_max_suppression boxes scores 1 = Some [top_index scores].
Proof.
  intros Hshape Hlen Hne. unfold NMS.non_max_suppression.
  assert (Hall : forallb (fun b : T1 => (length b =? 4)%nat) boxes = true).
  { apply forallb_forall. intros b Hb. apply Nat.eqb_eq.
    rewrite Forall_forall in Hshape. apply Hshape, Hb. }
  rewrite Hall, Hlen, Nat.eqb_refl. cbn [negb].
  destruct (decreasing_arg_sort_head scores) as (rest & Hsort & _).
  { destruct scores; [destruct boxes; [congruence | discriminate] | discriminate]. }
  rewrite Hsort.
  replace (Nat.min 1 (length boxes)) with 1%nat
    by (destruct boxes; [congruence | simpl; lia]).
  apply greedy_limit_one.
Qed.

(** ** Loops over [enumerate] *)

Section EnumerateFacts.

Context {X A B : Type}.

Lemma mapM_combine_seq (f : X -> A) (F : nat * A -> option B) (G : X -> option B)
    (l : list X) (s : nat) :
  (forall i x, nth_error l i = Some x -> F ((s + i)%nat, f x) = G x) ->
  mapM F (combine (seq s (length l)) (map f l)) = mapM G l.
Proof.
  revert s. induction l as [|x l IH]; intros s HF; simpl; [reflexivity|].
  rewrite <- (HF 0%nat x eq_refl), Nat.add_0_r.
  rewrite (IH (S s)); [reflexivity|].
  intros i y Hy. rewrite <- (HF (S i) y Hy). f_equal. f_equal. lia.
Qed.

Lemma mapM_enumerate (f : X -> A) (F : nat * A -> option B) (G : X -> option B)
    (l : list X) :
  (forall i x, nth_error l i = Some x -> F (i, f x) = G x) ->
  mapM F (Py.enumerate (map f l)) = mapM G l.
Proof.
  intros HF. unfold Py.enumerate. rewrite length_map.
  apply mapM_combine_seq. exact HF.
Qed.

Lemma mapM_ext_in (F G : X -> option B) (l : list X) :
  (forall x, In x l -> F x = G x) -> mapM F l = mapM G l.
Proof.
  induction l as [|x l IH]; intros H; simpl; [reflexivity|].
  rewrite (H x (or_introl eq_refl)), IH; [reflexivity|].
  intros; apply H; right; assumption.
Qed.

Lemma mapM_total (h : X -> B) (l : list X) :
  mapM (fun x => Some (h x)) l = Some (map h l).
Proof.
  induction l as [|x l IH]; simpl; [reflexivity|]. rewrite IH. reflexivity.
Qed.

End EnumerateFacts.

(** ** The selected box of every image *)

Section SelectGoodBox.

Context {X : Type}.
Variable f : X -> T1.
Variable g : X -> R.

(** The entry of a row that the suppression keeps. *)
Let pick (row : list X) : option X := nth_error row (top_index (map g row)).

Lemma stack_indices_singletons (d : list (list X)) (h : list X -> nat) :
  TFRegion.stack_indices (map (fun row => [h row]) d)
  = Some (map (fun row => [h row]) d).
Proof.
  destruct d as [|row d]; simpl; [reflexivity|].
  replace (forallb _ _) with true; [reflexivity|].
  symmetry. apply forallb_forall. intros y Hy.
  apply in_map_iff in Hy. destruct Hy as (r & <- & _). reflexivity.
Qed.

Lemma select_good_box_mapped (d : list (list X)) :
  (forall x, length (f x) = 4%nat) ->
  Forall (fun row => row <> []) d ->
  select_good_box (map (map f) d) (map (map g) d)
  = mapM (fun row => option_map f (pick row)) d.
Proof.
  intros Hshape Hne. unfold select_good_box.
  rewrite (mapM_enumerate (map f) _
             (fun row => Some [top_index (map g row)])).
  2:{ intros i row Hrow.
      rewrite nth_error_map, Hrow. cbn [option_map obind].
      apply non_max_suppression_limit_one.
      - apply Forall_forall. intros b Hb.
        apply in_map_iff in Hb. destruct Hb as (x & <- & _). apply Hshape.
      - rewrite !length_map. reflexivity.
      - rewrite Forall_forall in Hne.
        assert (row <> []) by (apply Hne; eapply nth_error_In; eassumption).
        destruct row; [congruence | discriminate]. }
  rewrite mapM_total. cbn [obind].
  rewrite stack_indices_singletons. cbn [obind].
  apply mapM_enumerate. intros i row Hrow. cbn [nth_error obind].
  rewrite at2_mapped. unfold at2, pick. rewrite Hrow. reflexivity.
Qed.

Lemma pick_is_best (row : list X) :
  row <> [] ->
  exists x, pick row = Some x /\ In x row /\
            forall x', In x' row -> (g x' <= g x)%R.
Proof.
  intros Hne. unfold pick.
  destruct (decreasing_arg_sort_head (map g row)) as (rest & _ & Hlt & Hmax).
  { destruct row; [congruence | discriminate]. }
  rewrite length_map in Hlt, Hmax.
  destruct (nth_error row (top_index (map g row))) as [x|] eqn:Hx.
  2:{ apply nth_error_None in Hx. lia. }
  exists x. split; [reflexivity|]. split; [eapply nth_error_In; eassumption|].
  intros x' Hx'. apply In_nth_error in Hx'. destruct Hx' as (j & Hj).
  assert (Hjlt : (j < length row)%nat) by (apply nth_error_Some; congruence).
  specialize (Hmax j Hjlt).
  rewrite (nth_error_nth (map g row) j 0%R
             (eq_trans (nth_error_map g j row) (f_equal (option_map g) Hj))) in Hmax.
  rewrite (nth_error_nth (map g row) _ 0%R
             (eq_trans (nth_error_map g _ row) (f_equal (option_map g) Hx))) in Hmax.
  exact Hmax.
Qed.

Lemma picks_exist (d : list (list X)) :
  Forall (fun row => row <> []) d ->
  exists picks,
    mapM (fun row => option_map f (pick row)) d = Some (map f picks) /\
    Forall2 (fun row x => In x row /\ forall x', In x' row -> (g x' <= g x)%R)
            d picks.
Proof.
  induction 1 as [|row d Hrow Hd IH].
  - exists []. split; [reflexivity | constructor].
  - destruct IH as (picks & Hpicks & Hbest).
    destruct (pick_is_best row Hrow) as (x & Hx & Hin & Hmax).
    exists (x :: picks). split.
    + simpl. rewrite Hx. cbn [option_map obind]. rewrite Hpicks. reflexivity.
    + constructor; [split; assumption | exact Hbest].
Qed.

End SelectGoodBox.

Lemma reduce_max_last_conf (dets : list (list Candidate)) :
  Forall (Forall (fun c => cand_conf c <> [])) dets ->
  TFRegion.reduce_max_last (map (map cand_conf) dets)
  = Some (map (map max_conf) dets).
Proof.
  intros Hconf. unfold TFRegion.reduce_max_last.
  apply mapM_map_Some; intros row Hrow.
  apply mapM_map_Some; intros c Hc.
  rewrite Forall_forall in Hconf. specialize (Hconf row Hrow).
  rewrite Forall_forall in Hconf. specialize (Hconf c Hc).
  unfold TFRegion.reduce_max1, max_conf.
  destruct (cand_conf c); [congruence | reflexivity].
Qed.

Lemma Forall2_nth_error_l {A B : Type} (P : A -> B -> Prop) (l : list A) (l' : list B)
    (i : nat) (a : A) :
  Forall2 P l l' -> nth_error l i = Some a ->
  exists b, nth_error l' i = Some b /\ P a b.
Proof.
  intros H. revert i. induction H as [|x y l l' Hxy _ IH]; intros i Hi.
  - destruct i; discriminate.
  - destruct i as [|i]; simpl in *.
    + injection Hi as <-. exists y. split; [reflexivity | exact Hxy].
    + apply IH, Hi.
Qed.

Section RegionFacts.

Variable Image : Type.
Variable resize_300x300 : Image -> Image.
Variable ssd : list Image -> T3.
Variable crop : Image -> T1 -> Image.

Lemma crop_and_resize_from (pre images : list Image) (boxes : T2) :
  length boxes = length images ->
  zipWithM (fun box k => img <- nth_error (pre ++ images) k ;; Some (crop img box))
           boxes (seq (length pre) (length images))
  = Some (map (fun p => crop (snd p) (fst p)) (combine boxes images)).
Proof.
  revert pre boxes. induction images as [|img images IH]; intros pre boxes Hlen.
  - destruct boxes; [reflexivity | discriminate].
  - destruct boxes as [|box boxes]; [discriminate|]. simpl.
    rewrite nth_error_app2, Nat.sub_diag by lia. cbn [nth_error obind].
    specialize (IH (pre ++ [img]) boxes).
    rewrite <- app_assoc, length_app, Nat.add_1_r in IH. simpl in IH.
    rewrite IH by (simpl in Hlen; lia). reflexivity.
Qed.

Lemma crop_and_resize_range (images : list Image) (boxes : T2) :
  length boxes = length images ->
  crop_and_resize crop images boxes (seq 0 (length images))
  = Some (map (fun p => crop (snd p) (fst p)) (combine boxes images)).
Proof. intros Hlen. apply (crop_and_resize_from [] images boxes Hlen). Qed.

(** What [build_image_ssd_embeddings] returns on a well-formed detector
    output: every image has at least one prior and every prior at least
    one class confidence. *)
Lemma build_image_ssd_embeddings_picks
    (images : list Image) (dets : list (list Candidate)) :
  ssd (map resize_300x300 images) = map (map pack) dets ->
  length dets = length images ->
  Forall (fun row => row <> []) dets ->
  Forall (Forall (fun c => cand_conf c <> [])) dets ->
  exists picks,
    Forall2 best_of dets picks /\
    build_image_ssd_embeddings resize_300x300 ssd crop images
    = Some {| good_box := map (fun c => box_row (decode_candidate c)) picks;
              region_images :=
                map (fun p => crop (snd p) (fst p))
                    (combine (map (fun c => box_row (decode_candidate c)) picks)
                             (map resize_300x300 images)) |}.
Proof.
  intros Hssd Hlen Hrows Hconf.
  destruct (picks_exist (fun c => box_row (decode_candidate c)) max_conf dets Hrows)
    as (picks & Hpicks & Hbest).
  exists picks. split; [exact Hbest|].
  unfold build_image_ssd_embeddings.
  rewrite Hssd, !length_map, Hlen, Nat.eqb_refl. cbn [obind].
  rewrite decode_bbox_of_packed. cbn [obind].
  rewrite (slice3_mapped _ _ _ dets pack_conf).
  rewrite (reduce_max_last_conf dets Hconf). cbn [obind].
  change (fun c => box_row (BoxDecoder (cand_prior c) (cand_offsets c) (cand_variances c)))
    with (fun c => box_row (decode_candidate c)).
  rewrite select_good_box_mapped by (auto; intros; reflexivity).
  rewrite Hpicks. cbn [obind].
  rewrite <- (length_map resize_300x300 images).
  rewrite crop_and_resize_range; [reflexivity|].
  rewrite !length_map, <- Hlen. symmetry.
  eapply Forall2_length; eassumption.
Qed.

End RegionFacts.

Lemma nth_error_map_combine {A B C : Type} (h : A * B -> C) (la : list A) (lb : list B)
    (i : nat) (a : A) (b : B) :
  nth_error la i = Some a -> nth_error lb i = Some b ->
  nth_error (map h (combine la lb)) i = Some (h (a, b)).
Proof.
  revert lb i. induction la as [|x la IH]; intros lb i Ha Hb.
  - destruct i; discriminate.
  - destruct lb as [|y lb]; [destruct i; discriminate|].
    destruct i as [|i]; simpl in *.
    + injection Ha as ->. injection Hb as ->. reflexivity.
    + apply IH; assumption.
Qed.

(** C3: on every batch of images and every detector output that gives each
    image at least one prior (each with at least one class confidence),
    whatever the confidences are, region selection succeeds and returns
    exactly one box and exactly one cropped region per image: the box is the
    decoded box of one of that image's priors and the region is the crop of
    that image to it. *)
Theorem exactly_one_region_per_image
    (Image : Type) (resize_300x300 : Image -> Image) (ssd : list Image -> T3)
    (crop : Image -> T1 -> Image)
    (images : list Image) (dets : list (list Candidate)) :
  ssd (map resize_300x300 images) = map (map pack) dets ->
  length dets = length images ->
  Forall (fun row => row <> []) dets ->
  Forall (Forall (fun c => cand_conf c <> [])) dets ->
  exists out,
    build_image_ssd_embeddings resize_300x300 ssd crop images = Some out /\
    length (good_box out) = length images /\
    length (region_images out) = length images /\
    forall i img, nth_error images i = Some img ->
      exists row c,
        nth_error dets i = Some row /\ In c row /\
        nth_error (good_box out) i = Some (box_row (decode_candidate c)) /\
        nth_error (region_images out) i
        = Some (crop (resize_300x300 img) (box_row (decode_candidate c))).
Proof.
  intros Hssd Hlen Hrows Hconf.
  destruct (build_image_ssd_embeddings_picks Image resize_300x300 ssd crop
              images dets Hssd Hlen Hrows Hconf) as (picks & Hbest & Hout).
  pose proof (Forall2_length Hbest) as Hpl.
  eexists. split; [exact Hout|]. cbn [good_box region_images].
  split; [rewrite length_map; lia|].
  split; [rewrite length_map, length_combine, !length_map; lia|].
  intros i img Himg.
  destruct (nth_error dets i) as [row|] eqn:Hrow.
  2:{ apply nth_error_None in Hrow.
      assert (i < length images)%nat by (apply nth_error_Some; congruence). lia. }
  destruct (Forall2_nth_error_l _ _ _ i row Hbest Hrow) as (c & Hc & Hin & _).
  exists row, c. split; [reflexivity|]. split; [exact Hin|].
  assert (Hbox : nth_error (map (fun c => box_row (decode_candidate c)) picks) i
                 = Some (box_row (decode_candidate c)))
    by (rewrite nth_error_map, Hc; reflexivity).
  split; [exact Hbox|].
  apply (nth_error_map_combine (fun p => crop (snd p) (fst p))); [exact Hbox|].
  rewrite nth_error_map, Himg. reflexivity.
Qed.

Lemma exactly_one_region_per_image_witness :
  exists out,
    build_image_ssd_embeddings (fun img : unit => img)
      (constant_ssd [unit_candidate; unit_candidate]) keep_image [tt; tt]
    = Some out /\
    length (good_box out) = 2%nat /\
    length (region_images out) = 2%nat /\
    forall i img, nth_error [tt; tt] i = Some img ->
      exists row c,
        nth_error [[unit_candidate; unit_candidate];
                   [unit_candidate; unit_candidate]] i = Some row /\
        In c row /\
        nth_error (good_box out) i = Some (box_row (decode_candidate c)) /\
        nth_error (region_images out) i
        = Some (keep_image img (box_row (decode_candidate c))).
Proof.
  apply (exactly_one_region_per_image unit (fun img => img)
           (constant_ssd [unit_candidate; unit_candidate]) keep_image [tt; tt]
           [[unit_candidate; unit_candidate]; [unit_candidate; unit_candidate]]).
  - reflexivity.
  - reflexivity.
  - repeat constructor; discriminate.
  - repeat constructor; discriminate.
Defined.

(** C9: the box selected for an image is the decoded box of a prior whose
    maximal class confidence no other prior of the image exceeds; in
    particular, for an image with exactly two priors of maximal class
    confidence 0.9 and 0.1, it is the box of the prior with 0.9. *)
Theorem selected_box_has_highest_confidence
    (Image : Type) (resize_300x300 : Image -> Image) (ssd : list Image -> T3)
    (crop : Image -> T1 -> Image)
    (images : list Image) (dets : list (list Candidate)) :
  ssd (map resize_300x300 images) = map (map pack) dets ->
  length dets = length images ->
  Forall (fun row => row <> []) dets ->
  Forall (Forall (fun c => cand_conf c <> [])) dets ->
  exists out,
    build_image_ssd_embeddings resize_300x300 ssd crop images = Some out /\
    (forall i row, nth_error dets i = Some row ->
       exists c, best_of row c /\
         nth_error (good_box out) i = Some (box_row (decode_candidate c))) /\
    (forall i c1 c2, nth_error dets i = Some [c1; c2] ->
       max_conf c1 = 0.9%R -> max_conf c2 = 0.1%R ->
       nth_error (good_box out) i = Some (box_row (decode_candidate c1))).
Proof.
  intros Hssd Hlen Hrows Hconf.
  destruct (build_image_ssd_embeddings_picks Image resize_300x300 ssd crop
              images dets Hssd Hlen Hrows Hconf) as (picks & Hbest & Hout).
  eexists. split; [exact Hout|]. cbn [good_box].
  assert (Hsel : forall i row, nth_error dets i = Some row ->
            exists c, best_of row c /\
              nth_error (map (fun c => box_row (decode_candidate c)) picks) i
              = Some (box_row (decode_candidate c))).
  { intros i row Hrow.
    destruct (Forall2_nth_error_l _ _ _ i row Hbest Hrow) as (c & Hc & Hb).
    exists c. split; [exact Hb|]. rewrite nth_error_map, Hc. reflexivity. }
  split; [exact Hsel|].
  intros i c1 c2 Hrow H1 H2.
  destruct (Hsel i _ Hrow) as (c & (Hin & Hmax) & Hbox).
  destruct Hin as [<-|[<-|[]]]; [exact Hbox|].
  specialize (Hmax c1 (or_introl eq_refl)). lra.
Qed.

Lemma max_conf_confident : max_conf confident_candidate = 0.9%R.
Proof.
  unfold max_conf; simpl. unfold Rmax.
  destruct (Rle_dec 0.2 0.9); lra.
Qed.

Lemma max_conf_doubtful : max_conf doubtful_candidate = 0.1%R.
Proof.
  unfold max_conf; simpl. unfold Rmax.
  destruct (Rle_dec 0.1 0.05); lra.
Qed.

Lemma selected_box_has_highest_confidence_witness :
  exists out,
    build_image_ssd_embeddings (fun img : unit => img)
      (constant_ssd [confident_candidate; doubtful_candidate]) keep_image [tt]
    = Some out /\
    (forall i row,
       nth_error [[confident_candidate; doubtful_candidate]] i = Some row ->
       exists c, best_of row c /\
         nth_error (good_box out) i = Some (box_row (decode_candidate c))) /\
    (forall i c1 c2,
       nth_error [[confident_candidate; doubtful_candidate]] i = Some [c1; c2] ->
       max_conf c1 = 0.9%R -> max_conf c2 = 0.1%R ->
       nth_error (good_box out) i = Some (box_row (decode_candidate c1))).
Proof.
  apply (selected_box_has_highest_confidence unit (fun img => img)
           (constant_ssd [confident_candidate; doubtful_candidate]) keep_image
           [tt] [[confident_candidate; doubtful_candidate]]).
  - reflexivity.
  - reflexivity.
  - repeat constructor; discriminate.
  - repeat constructor; discriminate.
Defined.

(** ** The flattened recurrent state *)

Section StateVector.

Variable H : nat.

Lemma split_row_halves (row : T1) :
  length row = (2 * H)%nat ->
  NN.split_row 2 row = Some [firstn H row; skipn H row].
Proof.
  intros Hlen. unfold NN.split_row. cbn [Nat.eqb].
  rewrite Hlen.
  replace ((2 * H) mod 2)%nat with 0%nat
    by (symmetry; rewrite Nat.mul_comm; apply Nat.Div0.mod_mul).
  replace ((2 * H) / 2)%nat with H
    by (symmetry; rewrite Nat.mul_comm; apply Nat.div_mul; discriminate).
  cbn [Nat.eqb NN.chunks]. do 3 f_equal.
  apply firstn_all2. rewrite length_skipn. lia.
Qed.

Lemma split1_halves (value : T2) :
  Forall (fun row : T1 => length row = (2 * H)%nat) value ->
  NN.split1 2 value = Some [map (firstn H) value; map (skipn H) value].
Proof.
  intros Hrows. unfold NN.split1.
  rewrite (@mapM_ext_in T1 (list T1) _
             (fun row => Some [firstn H row; skipn H row])).
  2:{ intros row Hin. apply split_row_halves.
      rewrite Forall_forall in Hrows. apply Hrows, Hin. }
  rewrite mapM_total. cbn [obind seq map]. rewrite !map_map. reflexivity.
Qed.

Lemma concat1_halves (value : T2) :
  NN.concat1 [map (firstn H) value; map (skipn H) value] = Some value.
Proof.
  unfold NN.concat1, NN.concat1_from, NN.concat1_pair.
  rewrite (zipWithM_map_Some (firstn H) (skipn H) _ (fun row => row)).
  - rewrite map_id. reflexivity.
  - intros row _. rewrite firstn_skipn. reflexivity.
Qed.

Lemma placeholder_accepts (value : T2) :
  Forall (fun row : T1 => length row = (2 * H)%nat) value ->
  NN.placeholder (2 * H) value = Some value.
Proof.
  intros Hrows. unfold NN.placeholder.
  replace (forallb _ value) with true; [reflexivity|].
  symmetry. apply forallb_forall. intros row Hin.
  apply Nat.eqb_eq. rewrite Forall_forall in Hrows. apply Hrows, Hin.
Qed.

End StateVector.

(** C7: every batch of flattened state vectors of length [2 * H] is
    accepted by the state placeholder, is split at the midpoint into a cell
    half and a hidden half of length [H] each, and concatenating the two
    halves again gives back the vectors that were fed. *)
Theorem state_split_concat_round_trip (H : nat) (fed : T2) :
  Forall (fun row : T1 => length row = (2 * H)%nat) fed ->
  exists c h,
    (state_feed <- NN.placeholder (2 * H) fed ;; NN.split1 2 state_feed)
    = Some [c; h] /\
    Forall (fun row : T1 => length row = H) c /\
    Forall (fun row : T1 => length row = H) h /\
    NN.concat1 [c; h] = Some fed.
Proof.
  intros Hrows.
  exists (map (firstn H) fed), (map (skipn H) fed).
  rewrite (placeholder_accepts H fed Hrows). cbn [obind].
  split; [apply split1_halves, Hrows|].
  rewrite Forall_forall in Hrows.
  split; [|split; [|apply concat1_halves]].
  - apply Forall_forall. intros row Hin.
    apply in_map_iff in Hin. destruct Hin as (r & <- & Hr).
    rewrite length_firstn, (Hrows r Hr). lia.
  - apply Forall_forall. intros row Hin.
    apply in_map_iff in Hin. destruct Hin as (r & <- & Hr).
    rewrite length_skipn, (Hrows r Hr). lia.
Qed.

Lemma state_split_concat_round_trip_witness :
  exists c h,
    (state_feed <- NN.placeholder (2 * 2) [[1; 2; 3; 4]; [5; 6; 7; 8]]%R ;;
     NN.split1 2 state_feed) = Some [c; h] /\
    Forall (fun row : T1 => length row = 2%nat) c /\
    Forall (fun row : T1 => length row = 2%nat) h /\
    NN.concat1 [c; h] = Some [[1; 2; 3; 4]; [5; 6; 7; 8]]%R.
Proof.
  apply (state_split_concat_round_trip 2 [[1; 2; 3; 4]; [5; 6; 7; 8]]%R).
  repeat constructor.
Defined.

(** ** More about pairwise combination *)

Section ZipFacts.

Context {A B C D : Type}.

Lemma zipWithM_map_r (f : A -> B -> option C) (g : D -> B) (la : list A) (ld : list D) :
  zipWithM f la (map g ld) = zipWithM (fun a d => f a (g d)) la ld.
Proof.
  revert ld. induction la as [|a la IH]; intros [|d ld]; simpl; try reflexivity.
  rewrite IH. reflexivity.
Qed.

Lemma zipWithM_map_l (f : A -> B -> option C) (g : D -> A) (ld : list D) (lb : list B) :
  zipWithM f (map g ld) lb = zipWithM (fun d b => f (g d) b) ld lb.
Proof.
  revert lb. induction ld as [|d ld IH]; intros [|b lb]; simpl; try reflexivity.
  rewrite IH. reflexivity.
Qed.

Lemma zipWithM_combine (f : A -> B -> option C) (h : A -> B -> C)
    (la : list A) (lb : list B) :
  length la = length lb ->
  (forall a b, In (a, b) (combine la lb) -> f a b = Some (h a b)) ->
  zipWithM f la lb = Some (map (fun p => h (fst p) (snd p)) (combine la lb)).
Proof.
  revert lb. induction la as [|a la IH]; intros [|b lb] Hlen Hf;
    try discriminate; simpl; [reflexivity|].
  rewrite (Hf a b (or_introl eq_refl)). cbn [obind].
  rewrite IH; [reflexivity | simpl in Hlen; lia |].
  intros; apply Hf; right; assumption.
Qed.

(** What a successful combination tells about its arguments. *)
Lemma zipWithM_Some_length (f : A -> B -> option C) (la : list A) (lb : list B)
    (lc : list C) :
  zipWithM f la lb = Some lc -> length la = length lc /\ length lb = length lc.
Proof.
  revert lb lc. induction la as [|a la IH]; intros [|b lb] lc H;
    simpl in H; try discriminate.
  - injection H as <-. split; reflexivity.
  - destruct (f a b) as [c|]; [|discriminate]. cbn [obind] in H.
    destruct (zipWithM f la lb) as [cs|] eqn:E; [|discriminate].
    injection H as <-. destruct (IH lb cs E). simpl. split; lia.
Qed.

Lemma zipWithM_Some_nth (f : A -> B -> option C) (la : list A) (lb : list B)
    (lc : list C) (i : nat) (a : A) (b : B) :
  zipWithM f la lb = Some lc ->
  nth_error la i = Some a -> nth_error lb i = Some b ->
  exists c, f a b = Some c /\ nth_error lc i = Some c.
Proof.
  revert lb lc i. induction la as [|a0 la IH]; intros [|b0 lb] lc i H Ha Hb;
    simpl in H; try discriminate; try (destruct i; discriminate).
  destruct (f a0 b0) as [c0|] eqn:E0; [|discriminate]. cbn [obind] in H.
  destruct (zipWithM f la lb) as [cs|] eqn:E; [|discriminate].
  injection H as <-. destruct i as [|i]; simpl in *.
  - injection Ha as <-. injection Hb as <-. exists c0. split; [exact E0 | reflexivity].
  - apply (IH lb cs i E Ha Hb).
Qed.

Lemma mapM_Some_length (f : A -> option B) (l : list A) (l' : list B) :
  mapM f l = Some l' -> length l' = length l.
Proof.
  revert l'. induction l as [|a l IH]; intros l' H; simpl in H.
  - injection H as <-. reflexivity.
  - destruct (f a); [|discriminate]. cbn [obind] in H.
    destruct (mapM f l) as [bs|] eqn:E; [|discriminate].
    injection H as <-. simpl. rewrite (IH bs eq_refl). reflexivity.
Qed.

Lemma mapM_Some_nth (f : A -> option B) (l : list A) (l' : list B) (i : nat) (a : A) :
  mapM f l = Some l' -> nth_error l i = Some a ->
  exists b, f a = Some b /\ nth_error l' i = Some b.
Proof.
  revert l' i. induction l as [|a0 l IH]; intros l' i H Ha; simpl in H.
  - destruct i; discriminate.
  - destruct (f a0) as [b0|] eqn:E0; [|discriminate]. cbn [obind] in H.
    destruct (mapM f l) as [bs|] eqn:E; [|discriminate].
    injection H as <-. destruct i as [|i]; simpl in *.
    + injection Ha as <-. exists b0. split; [exact E0 | reflexivity].
    + apply (IH bs i eq_refl Ha).
Qed.

End ZipFacts.

Lemma replicate_once {A : Type} (l : list A) : NN.replicate 1 l = l.
Proof. unfold NN.replicate. simpl. apply app_nil_r. Qed.

Lemma replicate_singleton {A : Type} (n : nat) (x : A) :
  NN.replicate n [x] = repeat x n.
Proof.
  unfold NN.replicate. induction n as [|n IH]; simpl; [reflexivity|].
  rewrite IH. reflexivity.
Qed.

Lemma zipWithM_repeat_r {A B C : Type} (f : A -> B -> option C) (h : A -> C)
    (la : list A) (b : B) :
  (forall a, In a la -> f a b = Some (h a)) ->
  zipWithM f la (repeat b (length la)) = Some (map h la).
Proof.
  induction la as [|a la IH]; intros Hf; simpl; [reflexivity|].
  rewrite (Hf a (or_introl eq_refl)). cbn [obind].
  rewrite IH by (intros; apply Hf; right; assumption). reflexivity.
Qed.

(** ** Embedding fusion *)

Lemma tile_over_time (T : nat) (image_embeddings : T2) :
  NN.tile3 1 T 1 (NN.expand_dims1 image_embeddings)
  = map (fun row => repeat row T) image_embeddings.
Proof.
  unfold NN.tile3, NN.expand_dims1.
  rewrite replicate_once, map_map.
  apply map_ext; intros row. simpl.
  rewrite replicate_once. apply replicate_singleton.
Qed.

Lemma tile_over_batch (B : nat) (image_embedding : T1) :
  NN.tile3 B 1 1 (NN.expand_dims1 [image_embedding])
  = repeat [image_embedding] B.
Proof.
  unfold NN.tile3, NN.expand_dims1. simpl.
  rewrite !replicate_once. apply replicate_singleton.
Qed.

Lemma shape1_uniform {A : Type} (T : nat) (t : list (list A)) (m : list A) :
  Forall (fun m => length m = T) t -> In m t -> NN.shape1 t = T.
Proof.
  intros Hall Hin. destruct t as [|m0 t]; [destruct Hin|].
  simpl. apply (Forall_inv Hall).
Qed.

Lemma process_lstm_input_unrolled (mode : Mode) (T : nat)
    (image_embeddings region_aspect_embeddings : T2) (seq_embeddings : T3) :
  mode <> inference ->
  length region_aspect_embeddings = length image_embeddings ->
  length seq_embeddings = length image_embeddings ->
  Forall (fun m => length m = T) seq_embeddings ->
  process_lstm_input mode image_embeddings region_aspect_embeddings seq_embeddings
  = Some (map (fun p => fst p ++ snd p)
              (combine image_embeddings region_aspect_embeddings),
          map (fun p => map (fun w => w ++ snd p) (fst p))
              (combine seq_embeddings image_embeddings)).
Proof.
  intros Hmode Hreg Hseq Hrect. unfold process_lstm_input.
  unfold NN.concat1, NN.concat1_from, NN.concat1_pair.
  rewrite (zipWithM_combine _ (fun x y => x ++ y)) by (auto; intros; reflexivity).
  cbn [obind].
  replace (match mode with
           | inference => _
           | _ => NN.tile3 1 (NN.shape1 seq_embeddings) 1
                    (NN.expand_dims1 image_embeddings)
           end)
    with (map (fun row => repeat row (NN.shape1 seq_embeddings)) image_embeddings)
    by (destruct mode; try congruence; symmetry; apply tile_over_time).
  unfold NN.concat2. rewrite zipWithM_map_r.
  rewrite (zipWithM_combine _ (fun m row => map (fun w => w ++ row) m)).
  - reflexivity.
  - exact Hseq.
  - intros m row Hin.
    assert (Hm : In m seq_embeddings) by (eapply in_combine_l; eassumption).
    rewrite (shape1_uniform T seq_embeddings m Hrect Hm).
    rewrite Forall_forall in Hrect. rewrite <- (Hrect m Hm).
    apply zipWithM_repeat_r. intros; reflexivity.
Qed.

Lemma process_lstm_input_stepwise
    (image_embedding region_aspect_embedding : T1) (seq_embeddings : T3) :
  Forall (fun m => length m = 1%nat) seq_embeddings ->
  process_lstm_input inference [image_embedding] [region_aspect_embedding]
    seq_embeddings
  = Some ([image_embedding ++ region_aspect_embedding],
          map (map (fun w => w ++ image_embedding)) seq_embeddings).
Proof.
  intros Hone. unfold process_lstm_input. cbn [NN.concat1 NN.concat1_from
    NN.concat1_pair zipWithM obind].
  unfold NN.shape0. rewrite tile_over_batch.
  unfold NN.concat2.
  rewrite (zipWithM_repeat_r _ (map (fun w => w ++ image_embedding)));
    [reflexivity|].
  intros m Hm. rewrite Forall_forall in Hone. specialize (Hone m Hm).
  destruct m as [|w [|w' m]]; try discriminate. reflexivity.
Qed.

Lemma Forall_map_combine {A B C : Type} (P : C -> Prop) (h : A * B -> C)
    (la : list A) (lb : list B) :
  (forall a b, In a la -> In b lb -> P (h (a, b))) ->
  Forall P (map h (combine la lb)).
Proof.
  intros Hh. apply Forall_forall. intros c Hc.
  apply in_map_iff in Hc. destruct Hc as ([a b] & <- & Hin).
  apply Hh; [eapply in_combine_l | eapply in_combine_r]; eassumption.
Qed.

Lemma nth_error_same_length {A B : Type} (la : list A) (lb : list B) (i : nat) (a : A) :
  length lb = length la -> nth_error la i = Some a ->
  exists b, nth_error lb i = Some b.
Proof.
  intros Hlen Ha.
  destruct (nth_error lb i) as [b|] eqn:Hb; [exists b; reflexivity|].
  apply nth_error_None in Hb.
  assert (i < length la)%nat by (apply nth_error_Some; congruence). lia.
Qed.

(** C6: whatever the batch size and the sequence length, the fused image
    context has one row of length [2 * E] per image (global embedding
    followed by region embedding), and the sequence context has, for every
    word embedding, one row of length [2 * E]: the word embedding followed
    by the global image embedding, which is the embedding of the same
    example at every time step in unrolled mode and the embedding of the
    single image for every hypothesis of the batch in stepwise mode. *)
Theorem fusion_shapes (E : nat) (mode : Mode)
    (image_embeddings region_aspect_embeddings : T2) (seq_embeddings : T3) :
  Forall (fun row => length row = E) image_embeddings ->
  Forall (fun row => length row = E) region_aspect_embeddings ->
  Forall (Forall (fun row => length row = E)) seq_embeddings ->
  match mode with
  | inference =>
      length image_embeddings = 1%nat /\
      length region_aspect_embeddings = 1%nat /\
      Forall (fun m => length m = 1%nat) seq_embeddings
  | _ =>
      length region_aspect_embeddings = length image_embeddings /\
      length seq_embeddings = length image_embeddings /\
      exists T, Forall (fun m => length m = T) seq_embeddings
  end ->
  exists with_aspect seq_with_aspect,
    process_lstm_input mode image_embeddings region_aspect_embeddings
      seq_embeddings = Some (with_aspect, seq_with_aspect) /\
    length with_aspect = length image_embeddings /\
    Forall (fun row => length row = (2 * E)%nat) with_aspect /\
    (forall b g r, nth_error image_embeddings b = Some g ->
       nth_error region_aspect_embeddings b = Some r ->
       nth_error with_aspect b = Some (g ++ r)) /\
    Forall2 (fun m m' => length m' = length m) seq_embeddings seq_with_aspect /\
    Forall (Forall (fun row => length row = (2 * E)%nat)) seq_with_aspect /\
    (forall b t w, at2 seq_embeddings b t = Some w ->
       exists g,
         nth_error image_embeddings
           (match mode with inference => 0%nat | _ => b end) = Some g /\
         at2 seq_with_aspect b t = Some (w ++ g)).
Proof.
  intros Himg Hreg Hseq Hshape.
  rewrite Forall_forall in Himg, Hreg, Hseq.
  assert (Hunrolled : mode <> inference ->
    length region_aspect_embeddings = length image_embeddings ->
    length seq_embeddings = length image_embeddings ->
    (exists T, Forall (fun m => length m = T) seq_embeddings) ->
    exists with_aspect seq_with_aspect,
      process_lstm_input mode image_embeddings region_aspect_embeddings
        seq_embeddings = Some (with_aspect, seq_with_aspect) /\
      length with_aspect = length image_embeddings /\
      Forall (fun row => length row = (2 * E)%nat) with_aspect /\
      (forall b g r, nth_error image_embeddings b = Some g ->
         nth_error region_aspect_embeddings b = Some r ->
         nth_error with_aspect b = Some (g ++ r)) /\
      Forall2 (fun m m' => length m' = length m) seq_embeddings seq_with_aspect /\
      Forall (Forall (fun row => length row = (2 * E)%nat)) seq_with_aspect /\
      (forall b t w, at2 seq_embeddings b t = Some w ->
         exists g, nth_error image_embeddings b = Some g /\
                   at2 seq_with_aspect b t = Some (w ++ g))).
  { intros Hmode Hr Hs (T & HT).
    do 2 eexists. split; [apply (process_lstm_input_unrolled mode T); assumption|].
    split; [rewrite length_map, length_combine; lia|].
    split.
    { apply Forall_map_combine. intros g r Hg Hr'. cbn.
      rewrite length_app, (Himg g Hg), (Hreg r Hr'). lia. }
    split.
    { intros b g r Hg Hr'.
      apply (nth_error_map_combine (fun p => fst p ++ snd p)); assumption. }
    split.
    { clear - Hs. revert image_embeddings Hs.
      induction seq_embeddings as [|m seq IH]; intros [|g img] Hs;
        try discriminate; simpl; constructor.
      - apply length_map.
      - apply IH. simpl in Hs. lia. }
    split.
    { apply Forall_map_combine. intros m g Hm Hg. cbn.
      apply Forall_forall. intros row Hrow.
      apply in_map_iff in Hrow. destruct Hrow as (w & <- & Hw).
      specialize (Hseq m Hm). rewrite Forall_forall in Hseq.
      rewrite length_app, (Hseq w Hw), (Himg g Hg). lia. }
    intros b t w Hw. unfold at2 in *.
    destruct (nth_error seq_embeddings b) as [m|] eqn:Hm; [|discriminate].
    cbn [obind] in Hw.
    destruct (nth_error_same_length seq_embeddings image_embeddings b m
                (eq_sym Hs) Hm) as (g & Hg).
    exists g. split; [exact Hg|].
    rewrite (nth_error_map_combine
               (fun p => map (fun w => w ++ snd p) (fst p)) _ _ b m g Hm Hg).
    cbn [obind fst snd]. rewrite nth_error_map, Hw. reflexivity. }
  destruct mode.
  - destruct Hshape as (Hr & Hs & HT). apply Hunrolled; [discriminate|auto..].
  - destruct Hshape as (Hr & Hs & HT). apply Hunrolled; [discriminate|auto..].
  - clear Hunrolled. destruct Hshape as (Hi & Hr & Hone).
    destruct image_embeddings as [|g [|g' img]]; try discriminate.
    destruct region_aspect_embeddings as [|r [|r' reg]]; try discriminate.
    do 2 eexists. split; [apply process_lstm_input_stepwise, Hone|].
    split; [reflexivity|].
    split.
    { constructor; [|constructor].
      rewrite length_app, (Himg g), (Hreg r) by (left; reflexivity). lia. }
    split.
    { intros [|b] g0 r0 Hg Hr0; simpl in *.
      - injection Hg as <-. injection Hr0 as <-. reflexivity.
      - destruct b; discriminate. }
    split.
    { clear. induction seq_embeddings as [|m seq IH]; simpl; constructor.
      - apply length_map.
      - exact IH. }
    split.
    { apply Forall_forall. intros m' Hm'.
      apply in_map_iff in Hm'. destruct Hm' as (m & <- & Hm).
      apply Forall_forall. intros row Hrow.
      apply in_map_iff in Hrow. destruct Hrow as (w & <- & Hw).
      specialize (Hseq m Hm). rewrite Forall_forall in Hseq.
      rewrite length_app, (Hseq w Hw), (Himg g) by (left; reflexivity). lia. }
    intros b t w Hw. exists g. split; [reflexivity|].
    rewrite at2_mapped, Hw. reflexivity.
Qed.

Lemma fusion_shapes_witness :
  exists with_aspect seq_with_aspect,
    process_lstm_input eval [[1; 2]; [3; 4]]%R [[5; 6]; [7; 8]]%R
      [[[0; 1]; [1; 0]; [1; 1]]; [[2; 0]; [0; 2]; [2; 2]]]%R
    = Some (with_aspect, seq_with_aspect) /\
    length with_aspect = 2%nat /\
    Forall (fun row => length row = (2 * 2)%nat) with_aspect /\
    (forall b g r, nth_error [[1; 2]; [3; 4]]%R b = Some g ->
       nth_error [[5; 6]; [7; 8]]%R b = Some r ->
       nth_error with_aspect b = Some (g ++ r)) /\
    Forall2 (fun m m' => length m' = length m)
      [[[0; 1]; [1; 0]; [1; 1]]; [[2; 0]; [0; 2]; [2; 2]]]%R seq_with_aspect /\
    Forall (Forall (fun row => length row = (2 * 2)%nat)) seq_with_aspect /\
    (forall b t w,
       at2 [[[0; 1]; [1; 0]; [1; 1]]; [[2; 0]; [0; 2]; [2; 2]]]%R b t = Some w ->
       exists g,
         nth_error [[1; 2]; [3; 4]]%R b = Some g /\
         at2 seq_with_aspect b t = Some (w ++ g)).
Proof.
  apply (fusion_shapes 2 eval [[1; 2]; [3; 4]]%R [[5; 6]; [7; 8]]%R
           [[[0; 1]; [1; 0]; [1; 1]]; [[2; 0]; [0; 2]; [2; 2]]]%R).
  - repeat constructor.
  - repeat constructor.
  - repeat constructor.
  - split; [reflexivity|]. split; [reflexivity|].
    exists 3%nat. repeat constructor.
Defined.

(** ** The session monad *)

Ltac step_bind :=
  match goal with
  | |- context [let (_, _) := ?p in _] => is_var p; destruct p
  | |- context [match ?x with Some _ => _ | None => _ end] =>
      lazymatch x with
      | context [match _ with Some _ => _ | None => _ end] => fail
      | context [let (_, _) := _ in _] => fail
      | _ => destruct x as [?|]; try reflexivity
      end
  end.

Lemma build_model_unrolled (config : ModelConfig) (mode : Mode) (feeds : Feeds)
    (s : Session) :
  mode <> inference ->
  build_model config mode feeds s
  = match unrolled_logits config mode feeds s with
    | Some ((with_aspect, seq_with_aspect, logits), s') =>
        option_map (fun out => (out, s'))
                   (loss_head feeds with_aspect seq_with_aspect logits)
    | None => None
    end.
Proof.
  intros Hmode.
  destruct mode; try congruence;
    unfold build_model, unrolled_logits, loss_head, weighted_losses,
      mbind, lift, ret, obind;
    repeat (cbn beta iota zeta; step_bind).
Qed.

(** ** The masked loss *)

Section MaskedLoss.

Local Open Scope R_scope.

Lemma multiply1_masked (losses weights weighted : T1) :
  NN.multiply1 losses weights = Some weighted ->
  length losses = length weights /\
  NN.sum weighted = masked_sum losses weights.
Proof.
  unfold NN.multiply1, masked_sum.
  revert weights weighted.
  induction losses as [|l losses IH]; intros [|w weights] weighted H;
    simpl in H; try discriminate.
  - injection H as <-. split; reflexivity.
  - destruct (zipWithM _ losses weights) as [ws|] eqn:E; [|discriminate].
    injection H as <-. destruct (IH weights ws E) as (Hlen & Hsum).
    split; [simpl; lia|]. simpl. rewrite Hsum. reflexivity.
Qed.

Lemma masked_sum_all_ones (losses : T1) (mask : list Z) :
  Forall (eq 1%Z) mask -> length losses = length mask ->
  masked_sum losses (map IZR mask) = NN.sum losses /\
  NN.sum (map IZR mask) = INR (length losses).
Proof.
  unfold masked_sum, NN.sum. revert mask.
  induction losses as [|l losses IH]; intros [|m mask] Hones Hlen;
    try discriminate.
  - split; reflexivity.
  - inversion Hones as [|? ? Hm Hrest]; subst.
    destruct (IH mask Hrest) as (Hs & Hw); [simpl in Hlen; lia|].
    split.
    + simpl. rewrite Hs. lra.
    + simpl fold_right. rewrite Hw.
      change (length (l :: losses)) with (S (length losses)).
      rewrite S_INR. lra.
Qed.

Lemma xent_row_valid (label : Z) (row : T1) :
  (0 <= label < Z.of_nat (length row))%Z ->
  exists l, NN.xent_row label row = Some l.
Proof.
  intros Hl. unfold NN.xent_row.
  destruct (Z.ltb_spec label 0); [lia|].
  destruct (nth_error row (Z.to_nat label)) as [x|] eqn:Hx.
  - eexists; reflexivity.
  - apply nth_error_None in Hx. lia.
Qed.

(** Targets may change wherever the mask is zero: the weighted losses stay
    the same. *)
Lemma weighted_losses_mask_blind (V : nat) (logits : T2) :
  Forall (fun row => length row = V) logits ->
  forall (targets targets' : list Z) (mask : list Z) (losses weighted : T1),
  weighted_losses targets logits (map IZR mask) = Some (losses, weighted) ->
  length targets' = length targets ->
  (forall label, In label targets' -> (0 <= label < Z.of_nat V)%Z) ->
  (forall i m, nth_error mask i = Some m -> m <> 0%Z ->
     nth_error targets' i = nth_error targets i) ->
  exists losses',
    weighted_losses targets' logits (map IZR mask) = Some (losses', weighted).
Proof.
  unfold weighted_losses, NN.sparse_softmax_cross_entropy_with_logits,
    NN.multiply1.
  induction 1 as [|row logits Hrow Hrows IH];
    intros targets targets' mask losses weighted Hrun Hlen Hvalid Hsame.
  - destruct targets; simpl in Hrun; [|discriminate].
    destruct targets'; [|discriminate].
    destruct mask; simpl in Hrun; [|discriminate].
    injection Hrun as <- <-. exists []. reflexivity.
  - destruct targets as [|t targets]; simpl in Hrun; [discriminate|].
    destruct targets' as [|t' targets']; [discriminate|].
    destruct (NN.xent_row t row) as [l|] eqn:Hl; [|discriminate].
    cbn [obind] in Hrun.
    destruct (zipWithM NN.xent_row targets logits) as [ls|] eqn:Hls;
      [|discriminate].
    cbn [obind] in Hrun.
    destruct mask as [|m mask]; simpl in Hrun; [discriminate|].
    destruct (zipWithM _ ls (map IZR mask)) as [ws|] eqn:Hws; [|discriminate].
    cbn [obind] in Hrun. injection Hrun as <- <-.
    destruct (IH targets targets' mask ls ws) as (ls' & Hls').
    { rewrite Hls. cbn [obind]. rewrite Hws. reflexivity. }
    { simpl in Hlen. lia. }
    { intros; apply Hvalid; right; assumption. }
    { intros i m0 Hm0 Hne. apply (Hsame (S i) m0 Hm0 Hne). }
    destruct (xent_row_valid t' row) as (l' & Hl').
    { rewrite Hrow. apply Hvalid. left; reflexivity. }
    assert (Hlw : l' * IZR m = l * IZR m).
    { destruct (Z.eq_dec m 0) as [->|Hne]; [lra|].
      specialize (Hsame 0%nat m eq_refl Hne). simpl in Hsame.
      injection Hsame as ->. congruence. }
    exists (l' :: ls'). simpl. rewrite Hl'. cbn [obind].
    destruct (zipWithM NN.xent_row targets' logits) as [ls2|]; [|discriminate].
    cbn [obind] in Hls'. simpl.
    destruct (zipWithM _ ls2 (map IZR mask)) as [ws2|]; [|discriminate].
    cbn [obind] in Hls'. simpl. injection Hls' as -> ->.
    rewrite Hlw. reflexivity.
Qed.

End MaskedLoss.

(** Evaluation of a concrete run: the operations of real arithmetic stay
    as they are. *)
Ltac run_model :=
  cbv -[exp ln tanh Rplus Rminus Rmult Rdiv Rinv Ropp IZR INR Int_part
        NN.sigmoid NN.floor Rle_dec Rlt_dec].

Section LossTheorem.

Local Open Scope R_scope.

Variable config : ModelConfig.

Lemma linear_length (W : T2) (b : T1) (n : nat) (x y : T1) :
  NN.linear W b n x = Some y -> length y = n.
Proof.
  unfold NN.linear, NN.add1.
  destruct (Nat.eqb_spec (length b) n) as [Hb|]; [|discriminate].
  destruct (NN.matvec_from _ x W) as [y0|]; [|discriminate].
  cbn [obind]. intros H.
  apply zipWithM_Some_length in H. lia.
Qed.

Lemma project_logits_rows (lstm_outputs logits : T2) (s s' : Session) :
  project_logits config lstm_outputs s = Some (logits, s') ->
  s' = s /\
  NN.fully_connected (logits_weights (variables s)) (logits_biases (variables s))
    (vocab_size config) lstm_outputs = Some logits /\
  Forall (fun row => length row = vocab_size config) logits.
Proof.
  unfold project_logits, mbind, get_variables, lift.
  destruct (NN.fully_connected _ _ _ _) as [l|] eqn:E; [|discriminate].
  intros H. injection H as <- <-. split; [reflexivity|]. split; [reflexivity|].
  apply Forall_forall. intros row Hin.
  apply In_nth_error in Hin. destruct Hin as (i & Hi).
  unfold NN.fully_connected in E.
  assert (Hlen := mapM_Some_length _ _ _ E).
  destruct (nth_error lstm_outputs i) as [x|] eqn:Hx.
  - destruct (mapM_Some_nth _ _ _ i x E Hx) as (y & Hy & Hy').
    rewrite Hi in Hy'. injection Hy' as ->.
    eapply linear_length; eassumption.
  - apply nth_error_None in Hx.
    assert (i < length l)%nat by (apply nth_error_Some; congruence). lia.
Qed.

Lemma unrolled_logits_rows (mode : Mode) (feeds : Feeds) (s s' : Session)
    (with_aspect : T2) (seq_with_aspect : T3) (logits : T2) :
  unrolled_logits config mode feeds s
  = Some ((with_aspect, seq_with_aspect, logits), s') ->
  Forall (fun row => length row = vocab_size config) logits.
Proof.
  unfold unrolled_logits, mbind at 1 2 3 4 5 6.
  destruct (build_seq_embeddings _ s) as [[se s0]|]; [|discriminate].
  unfold lift at 1. destruct (process_lstm_input _ _ _ _) as [[wa sa]|];
    [|discriminate].
  destruct (seed_state _ _ _ _ s0) as [[ist s1]|]; [|discriminate].
  destruct (dynamic_rnn _ _ _ _ _ s1) as [[[outs fin] s2]|]; [|discriminate].
  unfold lift. destruct (NN.reshape_rows _ _) as [rows|]; [|discriminate].
  destruct (project_logits config rows s2) as [[lg s3]|] eqn:E; [|discriminate].
  unfold ret. intros H. injection H as <- <- <- <-.
  apply (project_logits_rows _ _ _ _ E).
Qed.

End LossTheorem.

(** C4: in unrolled mode the batch loss is the sum over all flattened token
    positions of the per-token cross entropy times its mask weight, divided
    by the sum of the mask weights.  Hence with a mask of ones it is the
    plain mean of the per-token cross entropies, and replacing target
    tokens (by tokens of the vocabulary) at positions whose mask is zero
    leaves the loss as it is. *)
Theorem masked_loss_is_weighted_mean
    (config : ModelConfig) (mode : Mode) (feeds : Feeds) (s s' : Session)
    (out : Fetches) :
  mode <> inference ->
  build_model config mode feeds s = Some (out, s') ->
  let weights := map IZR (concat (input_mask feeds)) in
  exists losses,
    NN.sparse_softmax_cross_entropy_with_logits
      (concat (target_seqs feeds)) (logits out) = Some losses /\
    target_cross_entropy_losses out = Some losses /\
    target_cross_entropy_loss_weights out = Some weights /\
    length losses = length weights /\
    batch_loss out = Some (masked_sum losses weights / NN.sum weights)%R /\
    (Forall (Forall (eq 1%Z)) (input_mask feeds) ->
     batch_loss out = Some (NN.sum losses / INR (length losses))%R) /\
    (forall targets',
       length (concat targets') = length (concat (target_seqs feeds)) ->
       (forall label, In label (concat targets') ->
          (0 <= label < Z.of_nat (vocab_size config))%Z) ->
       (forall i m, nth_error (concat (input_mask feeds)) i = Some m ->
          m <> 0%Z ->
          nth_error (concat targets') i
          = nth_error (concat (target_seqs feeds)) i) ->
       exists out',
         build_model config mode (with_targets feeds targets') s
         = Some (out', s') /\
         logits out' = logits out /\
         batch_loss out' = batch_loss out).
Proof.
  intros Hmode Hrun weights.
  rewrite (build_model_unrolled config mode feeds s Hmode) in Hrun.
  destruct (unrolled_logits config mode feeds s)
    as [[[[with_aspect seq_with_aspect] lg] s1]|] eqn:Hlogits; [|discriminate].
  unfold loss_head in Hrun. fold weights in Hrun.
  destruct (weighted_losses (concat (target_seqs feeds)) lg weights)
    as [[losses weighted]|] eqn:Hw; [|discriminate].
  cbn [obind option_map] in Hrun. injection Hrun as <- <-.
  cbn [logits target_cross_entropy_losses target_cross_entropy_loss_weights
       batch_loss].
  pose proof Hw as Hw0. unfold weighted_losses in Hw0.
  destruct (NN.sparse_softmax_cross_entropy_with_logits _ lg) as [ls|] eqn:Hls;
    [|discriminate].
  cbn [obind] in Hw0.
  destruct (NN.multiply1 ls weights) as [ws|] eqn:Hws; [|discriminate].
  cbn [obind] in Hw0. injection Hw0 as -> ->.
  destruct (multiply1_masked _ _ _ Hws) as (Hlen & Hsum).
  exists losses. repeat (split; [reflexivity || assumption|]).
  split; [rewrite Hsum; reflexivity|].
  split.
  - intros Hones.
    destruct (masked_sum_all_ones losses (concat (input_mask feeds))) as (Hs & Hn).
    + apply Forall_concat. exact Hones.
    + unfold weights in Hlen. rewrite length_map in Hlen. exact Hlen.
    + fold weights in Hs, Hn. rewrite Hsum, Hs, Hn. reflexivity.
  - intros targets' Hshape Hvalid Hsame.
    destruct (weighted_losses_mask_blind (vocab_size config) lg
                (unrolled_logits_rows config mode feeds s s1 _ _ _ Hlogits)
                (concat (target_seqs feeds)) (concat targets')
                (concat (input_mask feeds)) losses weighted Hw Hshape Hvalid Hsame)
      as (losses' & Hw').
    rewrite (build_model_unrolled config mode _ s Hmode).
    change (unrolled_logits config mode (with_targets feeds targets') s)
      with (unrolled_logits config mode feeds s).
    rewrite Hlogits. unfold loss_head.
    change (input_mask (with_targets feeds targets')) with (input_mask feeds).
    change (target_seqs (with_targets feeds targets')) with targets'.
    fold weights. fold weights in Hw'. rewrite Hw'. cbn [obind option_map].
    eexists. split; [reflexivity|]. split; reflexivity.
Qed.

Lemma masked_loss_is_weighted_mean_witness :
  exists out s',
    build_model tiny_config eval tiny_feeds tiny_session = Some (out, s') /\
    let weights := map IZR (concat (input_mask tiny_feeds)) in
    exists losses,
      NN.sparse_softmax_cross_entropy_with_logits
        (concat (target_seqs tiny_feeds)) (logits out) = Some losses /\
      target_cross_entropy_losses out = Some losses /\
      target_cross_entropy_loss_weights out = Some weights /\
      length losses = length weights /\
      batch_loss out = Some (masked_sum losses weights / NN.sum weights)%R /\
      (Forall (Forall (eq 1%Z)) (input_mask tiny_feeds) ->
       batch_loss out = Some (NN.sum losses / INR (length losses))%R) /\
      (forall targets',
         length (concat targets') = length (concat (target_seqs tiny_feeds)) ->
         (forall label, In label (concat targets') ->
            (0 <= label < Z.of_nat (vocab_size tiny_config))%Z) ->
         (forall i m, nth_error (concat (input_mask tiny_feeds)) i = Some m ->
            m <> 0%Z ->
            nth_error (concat targets') i
            = nth_error (concat (target_seqs tiny_feeds)) i) ->
         exists out',
           build_model tiny_config eval (with_targets tiny_feeds targets')
             tiny_session = Some (out', s') /\
           logits out' = logits out /\
           batch_loss out' = batch_loss out).
Proof.
  destruct (build_model tiny_config eval tiny_feeds tiny_session)
    as [[out s']|] eqn:Hrun.
  - exists out, s'. split; [reflexivity|].
    apply (masked_loss_is_weighted_mean tiny_config eval tiny_feeds
             tiny_session s' out); [discriminate | exact Hrun].
  - exfalso. revert Hrun. run_model. discriminate.
Defined.

(** ** Calls that do not touch the session *)

Section SessionPure.

Context {A B : Type}.

Lemma session_pure_ret (a : A) : session_pure (ret a).
Proof.
  intros s. split.
  - intros a0 s' H. injection H as _ <-. reflexivity.
  - intros s2 _. reflexivity.
Qed.

Lemma session_pure_lift (o : option A) : session_pure (lift o).
Proof.
  intros s. unfold lift. split.
  - intros a s' H. destruct o; [|discriminate]. injection H as _ <-. reflexivity.
  - intros s2 _. destruct o; reflexivity.
Qed.

Lemma session_pure_bind (m : M A) (k : A -> M B) :
  session_pure m -> (forall a, session_pure (k a)) -> session_pure (mbind m k).
Proof.
  intros Hm Hk s. unfold mbind. split.
  - intros b s' H.
    destruct (m s) as [[a s1]|] eqn:E; [|discriminate].
    destruct (Hm s) as (Hsame & _). rewrite (Hsame a s1 E) in H.
    destruct (Hk a s) as (Hksame & _). apply (Hksame b s' H).
  - intros s2 Hvars.
    destruct (Hm s) as (Hsame & Hind). specialize (Hind s2 Hvars).
    destruct (Hm s2) as (Hsame2 & _).
    destruct (m s2) as [[a2 s2']|] eqn:E2; destruct (m s) as [[a1 s1']|] eqn:E1;
      try discriminate; [|reflexivity].
    cbn [option_map fst] in Hind. injection Hind as ->.
    rewrite (Hsame2 a1 s2' eq_refl), (Hsame a1 s1' eq_refl).
    destruct (Hk a1 s) as (_ & Hkind). apply Hkind, Hvars.
Qed.

End SessionPure.

Lemma session_pure_variables (A : Type) (k : Variables -> M A) :
  (forall vars, session_pure (k vars)) -> session_pure (mbind get_variables k).
Proof.
  intros Hk s. unfold mbind, get_variables. split.
  - intros a s' H. destruct (Hk (variables s) s) as (Hsame & _). apply (Hsame a s' H).
  - intros s2 Hvars. rewrite Hvars.
    destruct (Hk (variables s) s) as (_ & Hind). apply Hind, Hvars.
Qed.

Ltac session_pure_step :=
  first
    [ apply session_pure_ret
    | apply session_pure_lift
    | apply session_pure_variables; intros ?
    | apply session_pure_bind; [|intros ?]
    | match goal with
      | |- session_pure (let (_, _) := ?p in _) => destruct p
      | |- session_pure (match ?l with [] => _ | _ :: _ => _ end) => destruct l
      end ].

Section PureModel.

Variable config : ModelConfig.

Lemma basic_lstm_cell_pure (inputs : T2) (st : T2 * T2) :
  session_pure (basic_lstm_cell config inputs st).
Proof. unfold basic_lstm_cell. repeat session_pure_step. Qed.

Lemma lstm_cell_pure (mode : Mode) (inputs : T2) (st : T2 * T2) :
  mode <> train -> session_pure (lstm_cell config mode inputs st).
Proof.
  intros Hmode. destruct mode; try congruence; apply basic_lstm_cell_pure.
Qed.

Lemma rnn_loop_pure (cell : T2 -> T2 * T2 -> M (T2 * (T2 * T2)))
    (inputs : list T2) (sequence_length : list Z) (zero_output : T2) :
  (forall x st, session_pure (cell x st)) ->
  forall time st,
    session_pure (rnn_loop cell inputs time sequence_length zero_output st).
Proof.
  intros Hcell. induction inputs as [|input_t rest IH]; intros time st; simpl.
  - apply session_pure_ret.
  - apply session_pure_bind; [apply Hcell|]. intros [new_output new_state].
    repeat (apply session_pure_bind; [apply session_pure_lift|]; intros ?).
    apply session_pure_bind; [apply IH|]. intros [outputs final_state].
    apply session_pure_ret.
Qed.

Lemma dynamic_rnn_pure (cell : T2 -> T2 * T2 -> M (T2 * (T2 * T2)))
    (inputs : T3) (sequence_length : list Z) (st : T2 * T2) :
  (forall x st, session_pure (cell x st)) ->
  session_pure (dynamic_rnn config cell inputs sequence_length st).
Proof.
  intros Hcell. unfold dynamic_rnn.
  repeat (apply session_pure_bind; [apply session_pure_lift|]; intros ?).
  apply session_pure_bind; [apply rnn_loop_pure, Hcell|].
  intros [outputs final_state]. repeat session_pure_step.
Qed.

Lemma seed_state_pure (mode : Mode) (with_aspect : T2) (batch : nat) :
  mode <> train -> session_pure (seed_state config mode with_aspect batch).
Proof.
  intros Hmode. unfold seed_state.
  apply session_pure_bind; [apply lstm_cell_pure, Hmode|].
  intros [output st]. apply session_pure_ret.
Qed.

Lemma build_model_pure (mode : Mode) (feeds : Feeds) :
  mode <> train -> session_pure (build_model config mode feeds).
Proof.
  intros Hmode. unfold build_model.
  apply session_pure_bind;
    [unfold build_seq_embeddings; repeat session_pure_step|].
  intros seq_embeddings.
  apply session_pure_bind; [apply session_pure_lift|].
  intros [with_aspect seq_with_aspect].
  apply session_pure_bind; [apply seed_state_pure, Hmode|].
  intros initial_state.
  destruct mode; try congruence.
  - apply session_pure_bind;
      [apply dynamic_rnn_pure; intros; apply lstm_cell_pure; discriminate|].
    intros [lstm_outputs final_state].
    apply session_pure_bind; [apply session_pure_lift|]. intros rows.
    apply session_pure_bind;
      [unfold project_logits; repeat session_pure_step|].
    intros lg. repeat session_pure_step.
  - apply session_pure_bind; [apply session_pure_lift|]. intros initial_concat.
    apply session_pure_bind; [apply session_pure_lift|]. intros fed.
    apply session_pure_bind; [apply session_pure_lift|]. intros state_tuple0.
    destruct state_tuple0 as [|c [|h [|extra rest]]]; try apply session_pure_lift.
    apply session_pure_bind; [apply session_pure_lift|]. intros inputs.
    apply session_pure_bind; [apply lstm_cell_pure; discriminate|].
    intros [lstm_outputs state_tuple].
    apply session_pure_bind; [apply session_pure_lift|]. intros new_state.
    apply session_pure_bind; [apply session_pure_lift|]. intros rows.
    apply session_pure_bind;
      [unfold project_logits; repeat session_pure_step|].
    intros lg. apply session_pure_ret.
Qed.

End PureModel.

(** C8: a call in stepwise mode is a function of what is fed and of the
    variables: two sessions with the same variables (whatever their random
    sources) return the same fetched tensors, softmax and new state vector
    included, on the same image, tokens and state vector; and the call
    leaves the session exactly as it was.  The same holds for every mode
    other than "train", the only one with dropout. *)
Theorem stepwise_call_is_stateless (config : ModelConfig)
    (image_embeddings region_aspect_embeddings : T2) (input_feed : list Z)
    (state_feed : T2) (s1 s2 : Session) :
  variables s1 = variables s2 ->
  option_map fst (inference_step config image_embeddings
                    region_aspect_embeddings input_feed state_feed s1)
  = option_map fst (inference_step config image_embeddings
                      region_aspect_embeddings input_feed state_feed s2)
  /\ (forall out s',
        inference_step config image_embeddings region_aspect_embeddings
          input_feed state_feed s1 = Some (out, s') ->
        s' = s1)
  /\ (forall mode feeds out s',
        mode <> train ->
        build_model config mode feeds s1 = Some (out, s') ->
        s' = s1 /\
        option_map fst (build_model config mode feeds s2) = Some out).
Proof.
  intros Hvars. unfold inference_step.
  split; [|split].
  - symmetry.
    apply (build_model_pure config inference _ ltac:(discriminate) s1).
    symmetry; exact Hvars.
  - intros out s'.
    apply (build_model_pure config inference _ ltac:(discriminate) s1).
  - intros mode feeds out s' Hmode Hrun.
    destruct (build_model_pure config mode feeds Hmode s1) as (Hsame & Hind).
    split; [apply (Hsame out s' Hrun)|].
    rewrite (Hind s2 (eq_sym Hvars)), Hrun. reflexivity.
Qed.

Lemma stepwise_call_is_stateless_witness :
  (exists out,
     inference_step tiny_config [[1]]%R [[1]]%R [0%Z] [[0; 0]]%R tiny_session
     = Some (out, tiny_session)) /\
  option_map fst (inference_step tiny_config [[1]]%R [[1]]%R [0%Z] [[0; 0]]%R
                    tiny_session)
  = option_map fst (inference_step tiny_config [[1]]%R [[1]]%R [0%Z] [[0; 0]]%R
                      reseeded_session)
  /\ (forall out s',
        inference_step tiny_config [[1]]%R [[1]]%R [0%Z] [[0; 0]]%R tiny_session
        = Some (out, s') ->
        s' = tiny_session)
  /\ (forall mode feeds out s',
        mode <> train ->
        build_model tiny_config mode feeds tiny_session = Some (out, s') ->
        s' = tiny_session /\
        option_map fst (build_model tiny_config mode feeds reseeded_session)
        = Some out).
Proof.
  split.
  - eexists. run_model. reflexivity.
  - apply (stepwise_call_is_stateless tiny_config [[1]]%R [[1]]%R [0%Z]
             [[0; 0]]%R tiny_session reseeded_session).
    reflexivity.
Defined.

(** ** The caption drivers *)

Lemma slice_drops_both_ends {A : Type} (first last : A) (body : list A) :
  Py.slice (Some 1%Z) (Some (-1)%Z) (first :: body ++ [last]) = body.
Proof.
  apply (slice_middle [first] body [last]); [reflexivity | reflexivity | discriminate].
Qed.

Lemma two_or_more_has_ends {A : Type} (l : list A) :
  (2 <= length l)%nat ->
  exists first body last,
    l = first :: body ++ [last] /\
    body = firstn (length l - 2) (skipn 1 l).
Proof.
  intros Hlen. destruct l as [|first l]; [simpl in Hlen; lia|].
  destruct (exists_last (l := l)) as (body & last & ->).
  { destruct l; [simpl in Hlen; lia | discriminate]. }
  exists first, body, last. split; [reflexivity|].
  simpl. rewrite length_app. simpl.
  replace (length body + 1 - 1)%nat with (length body) by lia.
  rewrite firstn_app, firstn_all, Nat.sub_diag. simpl.
  symmetry. apply app_nil_r.
Qed.

Lemma mapM_snoc {A B : Type} (f : A -> option B) (l : list A) (x : A) (out : list B) :
  mapM f (l ++ [x]) = Some out ->
  exists ys y, mapM f l = Some ys /\ f x = Some y /\ out = ys ++ [y].
Proof.
  revert out. induction l as [|a l IH]; intros out H; simpl in H.
  - destruct (f x) as [y|]; [|discriminate]. injection H as <-.
    exists [], y. repeat split; reflexivity.
  - destruct (f a) as [b|] eqn:Ea; [|discriminate]. cbn [obind] in H.
    destruct (mapM f (l ++ [x])) as [rest|] eqn:E; [|discriminate].
    injection H as <-.
    destruct (IH rest eq_refl) as (ys & y & Hys & Hy & ->).
    exists (b :: ys), y. simpl. rewrite Ea, Hys.
    split; [reflexivity|]. split; [exact Hy | reflexivity].
Qed.

Lemma mapM_defined {A B : Type} (f : A -> option B) (l : list A) :
  (forall x, In x l -> f x <> None) -> exists out, mapM f l = Some out.
Proof.
  induction l as [|a l IH]; intros H; simpl.
  - exists []. reflexivity.
  - destruct (f a) as [b|] eqn:E; [|exfalso; apply (H a); [left; reflexivity | exact E]].
    destruct IH as (rest & ->); [intros; apply H; right; assumption|].
    exists (b :: rest). reflexivity.
Qed.

Lemma firstn_succ_snoc {A : Type} (l : list A) (k : nat) (x : A) :
  nth_error l k = Some x -> firstn (S k) l = firstn k l ++ [x].
Proof.
  revert k. induction l as [|a l IH]; intros [|k] H; simpl in *; try discriminate.
  - injection H as ->. reflexivity.
  - rewrite (IH k H). reflexivity.
Qed.

Section DriverFacts.

Variable id_to_word : Z -> string.
Variable beam_search : string -> list Caption.
Variable read_file : string -> option string.
Variable basename : string -> string.
Variable path_join : string -> string -> string.
Variable image_dir : string.
Variable img_objs : list ImgObj.
Variable eval_num : Z.

Let round :=
  create_results_round id_to_word beam_search read_file path_join image_dir
    img_objs eval_num.
Let record :=
  record_of id_to_word beam_search read_file path_join image_dir.

(** After [k] rounds the list [result] holds the records of the first [k]
    annotated images, in order. *)
Lemma create_results_rounds (k : nat) (records : list CaptionRecord) :
  (k <= length img_objs)%nat ->
  mapM record (firstn k img_objs) = Some records ->
  exists printed,
    fold_left round (seq 0 k) (Some ([], [])) = Some (records, printed).
Proof.
  revert records. induction k as [|k IH]; intros records Hk Hrec.
  - simpl in Hrec. injection Hrec as <-. exists []. reflexivity.
  - destruct (nth_error img_objs k) as [img|] eqn:Himg.
    2:{ apply nth_error_None in Himg. lia. }
    rewrite (firstn_succ_snoc _ _ _ Himg) in Hrec.
    destruct (mapM_snoc _ _ _ _ Hrec) as (rs & r & Hrs & Hr & ->).
    destruct (IH rs ltac:(lia) Hrs) as (printed & Hfold).
    rewrite seq_S, fold_left_app, Hfold. simpl.
    unfold round, create_results_round. cbn [obind]. rewrite Himg. cbn [obind].
    unfold record, record_of in Hr.
    destruct (read_file _) as [image|]; [|discriminate]. cbn [obind] in Hr |- *.
    destruct (beam_search image) as [|c cs]; [discriminate|].
    cbn [nth_error obind] in Hr |- *. injection Hr as <-.
    eexists. reflexivity.
Qed.

Lemma run_inference_prints (filenames : list string) :
  Forall (fun f => read_file f <> None) filenames ->
  run_inference id_to_word beam_search read_file basename filenames
  = (flat_map
       (fun f =>
          match read_file f with
          | Some image =>
              CaptionsFor (basename f)
              :: map (fun ic : nat * Caption =>
                        CaptionLine (fst ic) (joined_sentence id_to_word (snd ic))
                          (exp (logprob (snd ic))))
                     (Py.enumerate (beam_search image))
          | None => []
          end) filenames,
     true).
Proof.
  induction 1 as [|f rest Hf _ IH]; [reflexivity|].
  cbn [run_inference flat_map].
  destruct (read_file f) as [image|]; [|congruence].
  rewrite IH. cbn [app]. do 3 f_equal.
  apply map_ext. intros [i c]. reflexivity.
Qed.

End DriverFacts.

(** C10, amended: both drivers turn a hypothesis into the words of its
    tokens 2 to n-1 joined by single spaces (for a token sequence
    [first :: body ++ [last]] the words of [body]); [run_inference] prints
    that string for every hypothesis of every image when every file is
    read; and when each of the first [min(len(img_objs), eval_num)]
    annotated images is read and gets at least one caption,
    [create_results] writes one record with that string for the first
    hypothesis of each of them: exactly that many records, none when
    [eval_num] is negative. *)
Theorem drivers_drop_first_and_last_token
    (id_to_word : Z -> string) (beam_search : string -> list Caption)
    (read_file : string -> option string) (basename : string -> string)
    (path_join : string -> string -> string) :
  (forall c, (2 <= length (sentence c))%nat ->
     joined_sentence id_to_word c
     = Py.join " " (map id_to_word
                      (firstn (length (sentence c) - 2) (skipn 1 (sentence c)))))
  /\ (forall first body last p,
        joined_sentence id_to_word (mkCaption (first :: body ++ [last]) p)
        = Py.join " " (map id_to_word body))
  /\ (forall filenames,
        Forall (fun f => read_file f <> None) filenames ->
        run_inference id_to_word beam_search read_file basename filenames
        = (flat_map
             (fun f =>
                match read_file f with
                | Some image =>
                    CaptionsFor (basename f)
                    :: map (fun ic : nat * Caption =>
                              CaptionLine (fst ic)
                                (joined_sentence id_to_word (snd ic))
                                (exp (logprob (snd ic))))
                           (Py.enumerate (beam_search image))
                | None => []
                end) filenames,
           true))
  /\ (forall image_dir img_objs eval_num,
        let n := Z.to_nat (Z.min (Z.of_nat (length img_objs)) eval_num) in
        let record :=
          record_of id_to_word beam_search read_file path_join image_dir in
        (forall img, In img (firstn n img_objs) -> record img <> None) ->
        exists records printed,
          create_results id_to_word beam_search read_file path_join image_dir
            img_objs eval_num = Some (records, printed) /\
          length records = n /\
          mapM record (firstn n img_objs) = Some records).
Proof.
  split; [|split; [|split]].
  - intros c Hlen. unfold joined_sentence.
    destruct (two_or_more_has_ends (sentence c) Hlen)
      as (first & body & last & Heq & Hbody).
    rewrite <- Hbody. rewrite Heq at 1.
    rewrite slice_drops_both_ends. reflexivity.
  - intros first body last p. unfold joined_sentence. cbn [sentence].
    rewrite slice_drops_both_ends. reflexivity.
  - apply run_inference_prints.
  - intros image_dir img_objs eval_num n record Hdefined.
    destruct (mapM_defined record (firstn n img_objs) Hdefined) as (records & Hrec).
    destruct (create_results_rounds id_to_word beam_search read_file path_join
                image_dir img_objs eval_num n records) as (printed & Hfold).
    { unfold n. lia. }
    { exact Hrec. }
    exists records, printed. split; [exact Hfold|]. split; [|exact Hrec].
    rewrite (mapM_Some_length _ _ _ Hrec), length_firstn. unfold n. lia.
Qed.

Lemma drivers_drop_first_and_last_token_witness :
  joined_sentence two_words (mkCaption [1; 3; 4; 2]%Z 0%R) = "a dog"%string
  /\ run_inference two_words one_hypothesis every_file (fun f => f) ["a.jpg"%string]
     = ([CaptionsFor "a.jpg"; CaptionLine 0 "a dog" (exp 0)], true)
  /\ exists records printed,
       create_results two_words one_hypothesis every_file String.append "val/"
         two_images 1000%Z = Some (records, printed) /\
       length records = 2%nat /\
       mapM (record_of two_words one_hypothesis every_file String.append "val/")
            two_images = Some records.
Proof.
  destruct (drivers_drop_first_and_last_token two_words one_hypothesis
              every_file (fun f => f) String.append)
    as (_ & Hends & Hprint & Hwrite).
  split; [|split].
  - apply (Hends 1%Z [3; 4]%Z 2%Z 0%R).
  - apply (Hprint ["a.jpg"%string]). repeat constructor; discriminate.
  - apply (Hwrite "val/"%string two_images 1000%Z).
    intros img _. discriminate.
Defined.

(** C10 as stated, for every run of [create_results], fails.  With
    [eval_num = -3] the loop body never runs: the result holds no record,
    where [min(len(img_objs), eval_num)] is -3.  With two annotated images
    of which the second cannot be read, the script raises in the second
    round, before [json.dump]: nothing is written, where the minimum
    is 2. *)
Lemma record_count_is_not_always_the_minimum :
  ~ writes_min_records two_words one_hypothesis every_file String.append
      "val/" two_images (-3)
  /\ ~ writes_min_records two_words one_hypothesis all_but_b
        in_current_directory "val/" two_images 5.
Proof.
  split; intros (records & printed & Hrun & Hcount).
  - assert (Hnone : create_results two_words one_hypothesis every_file
                      String.append "val/" two_images (-3) = Some ([], []))
      by reflexivity.
    rewrite Hnone in Hrun. injection Hrun as <- _.
    cbn in Hcount. discriminate.
  - assert (Hraise : create_results two_words one_hypothesis all_but_b
                       in_current_directory "val/" two_images 5 = None)
      by reflexivity.
    rewrite Hraise in Hrun. discriminate.
Qed.

(** ** The LSTM cell, one example at a time *)

Section CellFacts.

Local Open Scope R_scope.

Variable num_units : nat.
Variable W : T2.
Variable b : T1.

Let cell_row := NN.BasicLSTMCell_row num_units W b.

Lemma split_row_quarters (z : T1) (i j f o : T1) :
  length z = (4 * num_units)%nat ->
  NN.split_row 4 z = Some [i; j; f; o] ->
  length i = num_units /\ length j = num_units /\
  length f = num_units /\ length o = num_units.
Proof.
  intros Hz. unfold NN.split_row. cbn [Nat.eqb]. rewrite Hz.
  replace ((4 * num_units) mod 4)%nat with 0%nat
    by (symmetry; rewrite Nat.mul_comm; apply Nat.Div0.mod_mul).
  replace ((4 * num_units) / 4)%nat with num_units
    by (symmetry; rewrite Nat.mul_comm; apply Nat.div_mul; discriminate).
  cbn [Nat.eqb NN.chunks]. intros H. injection H as <- <- <- <-.
  repeat rewrite ?length_firstn, ?length_skipn. rewrite Hz. lia.
Qed.

(** A successful step returns the new hidden state as output, and both
    halves of the new state have [num_units] entries. *)
Lemma cell_row_shape (x : T1) (st : T1 * T1) (out c' h' : T1) :
  cell_row x st = Some (out, (c', h')) ->
  out = h' /\ length c' = num_units /\ length h' = num_units.
Proof.
  unfold cell_row, NN.BasicLSTMCell_row. destruct st as [c h].
  destruct (NN.linear W b (4 * num_units) (x ++ h)) as [z|] eqn:Hz;
    [|discriminate].
  cbn [obind].
  destruct (NN.split_row 4 z) as [gates|] eqn:Hg; [|discriminate].
  cbn [obind].
  destruct gates as [|i [|j [|f [|o [|extra gates]]]]]; try discriminate.
  destruct (split_row_quarters z i j f o (linear_length _ _ _ _ _ Hz) Hg)
    as (Hi & Hj & Hf & Ho).
  destruct (zipWithM _ c f) as [keep|]; [|discriminate]. cbn [obind].
  destruct (zipWithM _ i j) as [write|] eqn:Hw; [|discriminate]. cbn [obind].
  destruct (NN.add1 keep write) as [new_c|] eqn:Hc; [|discriminate]. cbn [obind].
  destruct (zipWithM _ new_c o) as [new_h|] eqn:Hh; [|discriminate]. cbn [obind].
  intros H. injection H as <- <- <-.
  apply zipWithM_Some_length in Hw, Hh. unfold NN.add1 in Hc.
  apply zipWithM_Some_length in Hc.
  split; [reflexivity|]. split; lia.
Qed.

(** The cell on a batch treats every example on its own. *)
Lemma BasicLSTMCell_rows (X C H O C' H' : T2) :
  NN.BasicLSTMCell num_units W b X (C, H) = Some (O, (C', H')) ->
  length C = length X /\ length H = length X /\
  length O = length X /\ length C' = length X /\ length H' = length X /\
  forall k x c h,
    nth_error X k = Some x -> nth_error C k = Some c -> nth_error H k = Some h ->
    exists out c' h',
      cell_row x (c, h) = Some (out, (c', h')) /\
      nth_error O k = Some out /\
      nth_error C' k = Some c' /\ nth_error H' k = Some h'.
Proof.
  unfold NN.BasicLSTMCell. cbn [fst snd].
  destruct (zipWithM _ C H) as [ch|] eqn:Hch; [|discriminate]. cbn [obind].
  destruct (zipWithM _ X ch) as [rows|] eqn:Hrows; [|discriminate]. cbn [obind].
  intros Heq. injection Heq as <- <- <-.
  destruct (zipWithM_Some_length _ _ _ _ Hch) as (HlC & HlH).
  destruct (zipWithM_Some_length _ _ _ _ Hrows) as (HlX & Hlch).
  rewrite !length_map. repeat (split; [lia|]).
  intros k x c h Hx Hc Hh.
  destruct (zipWithM_Some_nth _ _ _ _ k c h Hch Hc Hh) as (p & Hp & Hpk).
  injection Hp as <-.
  destruct (zipWithM_Some_nth _ _ _ _ k x (c, h) Hrows Hx Hpk)
    as ([out [c' h']] & Hcell & Hrk).
  exists out, c', h'. split; [exact Hcell|].
  rewrite !nth_error_map, Hrk. repeat split; reflexivity.
Qed.

Lemma BasicLSTMCell_single (x c h : T1) :
  NN.BasicLSTMCell num_units W b [x] ([c], [h])
  = match cell_row x (c, h) with
    | Some (out, (c', h')) => Some ([out], ([c'], [h']))
    | None => None
    end.
Proof.
  unfold NN.BasicLSTMCell. cbn [fst snd zipWithM obind].
  fold cell_row. destruct (cell_row x (c, h)) as [[out [c' h']]|]; reflexivity.
Qed.

(** Every output row of a batch step has [num_units] entries. *)
Lemma BasicLSTMCell_output_rows (X : T2) (st : T2 * T2) (O : T2) (st' : T2 * T2) :
  NN.BasicLSTMCell num_units W b X st = Some (O, st') ->
  Forall (fun row => length row = num_units) O.
Proof.
  unfold NN.BasicLSTMCell.
  destruct (zipWithM _ (fst st) (snd st)) as [ch|]; [|discriminate]. cbn [obind].
  destruct (zipWithM _ X ch) as [rows|] eqn:Hrows; [|discriminate]. cbn [obind].
  intros Heq. injection Heq as <- _.
  apply Forall_forall. intros out Hout.
  apply in_map_iff in Hout. destruct Hout as ([o [c' h']] & <- & Hin).
  apply In_nth_error in Hin. destruct Hin as (k & Hk).
  destruct (zipWithM_Some_length _ _ _ _ Hrows) as (HlX & Hlch).
  assert (Hklt : (k < length rows)%nat) by (apply nth_error_Some; congruence).
  destruct (nth_error X k) as [x|] eqn:Hx;
    [|apply nth_error_None in Hx; lia].
  destruct (nth_error ch k) as [p|] eqn:Hp;
    [|apply nth_error_None in Hp; lia].
  destruct (zipWithM_Some_nth _ _ _ _ k x p Hrows Hx Hp) as (r & Hr & Hrk).
  rewrite Hk in Hrk. injection Hrk as <-.
  destruct (cell_row_shape x p o c' h' Hr) as (-> & _ & Hh). exact Hh.
Qed.

End CellFacts.

(** ** The unrolled loop, one example at a time *)

Lemma where_rows_length (cond : list bool) (A B R : T2) :
  NN.where_rows cond A B = Some R ->
  length cond = length R /\ length A = length R /\ length B = length R.
Proof.
  unfold NN.where_rows.
  destruct (zipWithM _ A B) as [ab|] eqn:Hab; [|discriminate]. cbn [obind].
  intros H.
  destruct (zipWithM_Some_length _ _ _ _ Hab).
  destruct (zipWithM_Some_length _ _ _ _ H). lia.
Qed.

Lemma where_rows_nth (cond : list bool) (A B R : T2) (k : nat) (cb : bool)
    (a b : T1) :
  NN.where_rows cond A B = Some R ->
  nth_error cond k = Some cb -> nth_error A k = Some a -> nth_error B k = Some b ->
  nth_error R k = Some (if cb then a else b).
Proof.
  unfold NN.where_rows.
  destruct (zipWithM _ A B) as [ab|] eqn:Hab; [|discriminate]. cbn [obind].
  intros H Hc Ha Hb.
  destruct (zipWithM_Some_nth _ _ _ _ k a b Hab Ha Hb) as (p & Hp & Hpk).
  injection Hp as <-.
  destruct (zipWithM_Some_nth _ _ _ _ k cb (a, b) H Hc Hpk) as (r & Hr & Hrk).
  injection Hr as <-. exact Hrk.
Qed.

Lemma where_rows_Forall (P : T1 -> Prop) (cond : list bool) (A B R : T2) :
  NN.where_rows cond A B = Some R -> Forall P A -> Forall P B -> Forall P R.
Proof.
  intros H HA HB. apply Forall_forall. intros r Hr.
  apply In_nth_error in Hr. destruct Hr as (k & Hk).
  destruct (where_rows_length _ _ _ _ H) as (Hlc & HlA & HlB).
  assert (Hklt : (k < length R)%nat) by (apply nth_error_Some; congruence).
  destruct (nth_error cond k) as [cb|] eqn:Hc;
    [|apply nth_error_None in Hc; lia].
  destruct (nth_error A k) as [a|] eqn:Ha; [|apply nth_error_None in Ha; lia].
  destruct (nth_error B k) as [b|] eqn:Hb; [|apply nth_error_None in Hb; lia].
  rewrite (where_rows_nth _ _ _ _ k cb a b H Hc Ha Hb) in Hk.
  injection Hk as <-. rewrite Forall_forall in HA, HB.
  destruct cb; [apply HA | apply HB]; eapply nth_error_In; eassumption.
Qed.

Section UnrolledLoop.

Variable config : ModelConfig.
Variable s : Session.

Let num_units := num_lstm_units config.
Let cell_row :=
  NN.BasicLSTMCell_row num_units (lstm_kernel (variables s))
    (lstm_bias (variables s)).

Lemma lstm_cell_without_dropout (mode : Mode) (X : T2) (st : T2 * T2) :
  mode <> train ->
  lstm_cell config mode X st s
  = option_map (fun r => (r, s))
      (NN.BasicLSTMCell num_units (lstm_kernel (variables s))
         (lstm_bias (variables s)) X st).
Proof.
  intros Hmode.
  destruct mode; try congruence;
    unfold lstm_cell, basic_lstm_cell, mbind, get_variables, lift;
    destruct (NN.BasicLSTMCell _ _ _ X st); reflexivity.
Qed.

(** Shape of what the loop returns. *)
Lemma rnn_loop_shape (inputs : list T2) (seqlen : list Z) (zero : T2) :
  Forall (fun row => length row = num_units) zero ->
  forall time st outs fin s',
    rnn_loop (lstm_cell config eval) inputs time seqlen zero st s
    = Some ((outs, fin), s') ->
    s' = s /\ length outs = length inputs /\
    Forall (fun o => length o = length zero) outs /\
    Forall (Forall (fun row => length row = num_units)) outs.
Proof.
  intros Hzero. induction inputs as [|inp rest IH];
    intros time st outs fin s' Hrun; cbn [rnn_loop] in Hrun.
  - injection Hrun as <- _ <-. repeat split; constructor.
  - unfold mbind at 1 in Hrun.
    rewrite lstm_cell_without_dropout in Hrun by discriminate.
    destruct (NN.BasicLSTMCell _ _ _ inp st) as [[O st1]|] eqn:Hcell;
      [|discriminate].
    cbn [option_map] in Hrun. unfold mbind, lift in Hrun.
    destruct (NN.where_rows _ zero O) as [Out|] eqn:HOut; [|discriminate].
    destruct (NN.where_rows _ (fst st) (fst st1)) as [Cn|]; [|discriminate].
    destruct (NN.where_rows _ (snd st) (snd st1)) as [Hn|]; [|discriminate].
    destruct (rnn_loop _ rest (S time) seqlen zero (Cn, Hn) s)
      as [[[outs' fin'] s1]|] eqn:Hrest; [|discriminate].
    unfold ret in Hrun. injection Hrun as <- <- <-.
    destruct (IH _ _ _ _ _ Hrest) as (-> & Hlen & Hbatch & Hrows).
    split; [reflexivity|]. split; [simpl; lia|].
    destruct (where_rows_length _ _ _ _ HOut) as (_ & HlZ & _).
    split; constructor; auto.
    apply (where_rows_Forall _ _ _ _ _ HOut Hzero).
    eapply BasicLSTMCell_output_rows; eassumption.
Qed.

(** Example [b] of the batch, as long as its length is not reached, goes
    through the cell exactly as if it were alone. *)
Lemma rnn_loop_row (b : nat) (len : Z) (seqlen : list Z) (zero : T2) :
  nth_error seqlen b = Some len ->
  forall inputs time C H outs fin s' xs c h,
    rnn_loop (lstm_cell config eval) inputs time seqlen zero (C, H) s
    = Some ((outs, fin), s') ->
    nth_error C b = Some c -> nth_error H b = Some h ->
    Forall2 (fun inp x => nth_error inp b = Some x) inputs xs ->
    exists row_outs,
      row_run cell_row (firstn (Z.to_nat (len - Z.of_nat time)) xs) (c, h)
      = Some row_outs /\
      forall k r, nth_error row_outs k = Some r ->
        exists o, nth_error outs k = Some o /\ nth_error o b = Some r.
Proof.
  intros Hlen. induction inputs as [|inp rest IH];
    intros time C H outs fin s' xs c h Hrun Hc Hh Hxs.
  - inversion Hxs; subst. rewrite firstn_nil. exists []. split; [reflexivity|].
    intros [|k] r Hr; discriminate.
  - inversion Hxs as [|? x ? xs' Hx Hxs']; subst.
    destruct (Z.to_nat (len - Z.of_nat time)) as [|v] eqn:Hv.
    { exists []. split; [reflexivity|]. intros [|k] r Hr; discriminate. }
    cbn [rnn_loop] in Hrun. unfold mbind at 1 in Hrun.
    rewrite lstm_cell_without_dropout in Hrun by discriminate.
    destruct (NN.BasicLSTMCell _ _ _ inp (C, H)) as [[O [C1 H1]]|] eqn:Hcell;
      [|discriminate].
    cbn [option_map fst snd] in Hrun. unfold mbind, lift in Hrun.
    destruct (NN.where_rows _ zero O) as [Out|] eqn:HOut; [|discriminate].
    destruct (NN.where_rows _ C C1) as [Cn|] eqn:HCn; [|discriminate].
    destruct (NN.where_rows _ H H1) as [Hn|] eqn:HHn; [|discriminate].
    destruct (rnn_loop _ rest (S time) seqlen zero (Cn, Hn) s)
      as [[[outs' fin'] s1]|] eqn:Hrest; [|discriminate].
    unfold ret in Hrun. injection Hrun as <- <- <-.
    destruct (BasicLSTMCell_rows _ _ _ _ _ _ _ _ _ Hcell)
      as (HlC & HlH & HlO & HlC1 & HlH1 & Hrow).
    destruct (Hrow b x c h Hx Hc Hh) as (out & c' & h' & Hstep & HO & HC1 & HH1).
    assert (Hcond : nth_error (map (fun l => (l <=? Z.of_nat time)%Z) seqlen) b
                    = Some false).
    { rewrite nth_error_map, Hlen. cbn [option_map]. f_equal.
      apply Z.leb_gt. lia. }
    destruct (where_rows_length _ _ _ _ HOut) as (_ & HlZ & HlO').
    destruct (nth_error_same_length O zero b out ltac:(lia) HO) as (z & Hz).
    pose proof (where_rows_nth _ _ _ _ b false z out HOut Hcond Hz HO) as HOutb.
    pose proof (where_rows_nth _ _ _ _ b false c c' HCn Hcond Hc HC1) as HCnb.
    pose proof (where_rows_nth _ _ _ _ b false h h' HHn Hcond Hh HH1) as HHnb.
    cbn iota in HOutb, HCnb, HHnb.
    destruct (IH (S time) Cn Hn outs' fin' s1 xs' c' h' Hrest HCnb HHnb Hxs')
      as (row_outs & Hrow_run & Hnth).
    replace (Z.to_nat (len - Z.of_nat (S time))) with v in Hrow_run by lia.
    exists (out :: row_outs). split.
    + cbn [firstn row_run]. fold cell_row in Hstep. rewrite Hstep.
      cbn [obind]. rewrite Hrow_run. reflexivity.
    + intros [|k] r Hr; simpl in Hr.
      * injection Hr as <-. exists Out. split; [reflexivity | exact HOutb].
      * apply (Hnth k r Hr).
Qed.

End UnrolledLoop.

(** ** Transposition, flattening and reshaping *)

Lemma Forall2_of_nth {A B : Type} (P : A -> B -> Prop) (la : list A) (lb : list B) :
  length la = length lb ->
  (forall k a b, nth_error la k = Some a -> nth_error lb k = Some b -> P a b) ->
  Forall2 P la lb.
Proof.
  revert lb. induction la as [|a la IH]; intros [|b lb] Hlen HP;
    try discriminate; constructor.
  - apply (HP 0%nat a b); reflexivity.
  - apply IH; [simpl in Hlen; lia|].
    intros k a' b' Ha Hb. apply (HP (S k) a' b'); assumption.
Qed.

Lemma swap01_entries (extent : nat) (t r : T3) :
  NN.swap01 extent t = Some r ->
  length r = extent /\
  Forall (fun m => length m = extent) t /\
  Forall (fun row => length row = length t) r /\
  forall k i m row,
    nth_error r k = Some row -> nth_error t i = Some m ->
    exists x, nth_error m k = Some x /\ nth_error row i = Some x.
Proof.
  unfold NN.swap01.
  destruct (forallb _ t) eqn:Hall; [|discriminate]. intros Hr.
  assert (Hlen := mapM_Some_length _ _ _ Hr). rewrite length_seq in Hlen.
  assert (Hrow : forall k row, nth_error r k = Some row ->
            mapM (fun m : T2 => nth_error m k) t = Some row).
  { intros k row Hk.
    assert (Hklt : (k < extent)%nat)
      by (rewrite <- Hlen; apply nth_error_Some; congruence).
    assert (Hseq : nth_error (seq 0 extent) k = Some k).
    { rewrite nth_error_seq.
      destruct (Nat.ltb_spec k extent); [reflexivity | lia]. }
    destruct (mapM_Some_nth _ _ _ k k Hr Hseq) as (row' & Hrow' & Hk').
    congruence. }
  split; [exact Hlen|]. split.
  { apply Forall_forall. intros m Hm.
    rewrite forallb_forall in Hall. apply Nat.eqb_eq, Hall, Hm. }
  split.
  { apply Forall_forall. intros row Hin.
    apply In_nth_error in Hin. destruct Hin as (k & Hk).
    apply (mapM_Some_length _ _ _ (Hrow k row Hk)). }
  intros k i m row Hk Hi.
  destruct (mapM_Some_nth _ _ _ i m (Hrow k row Hk) Hi) as (x & Hx & Hx').
  exists x. split; assumption.
Qed.

Lemma chunks_concat (n : nat) (rows : T2) :
  Forall (fun row => length row = n) rows ->
  NN.chunks n (length rows) (concat rows) = rows /\
  length (concat rows) = (n * length rows)%nat.
Proof.
  induction 1 as [|row rows Hrow _ IH]; simpl; [split; [reflexivity | lia]|].
  destruct IH as (IHc & IHl).
  rewrite firstn_app, skipn_app, Hrow, Nat.sub_diag, firstn_all2, skipn_all2 by lia.
  simpl. rewrite app_nil_r, IHc. split; [reflexivity|].
  rewrite length_app, IHl, Hrow. lia.
Qed.

Lemma concat_rows_uniform (n : nat) (t : T3) :
  Forall (Forall (fun row => length row = n)) t ->
  Forall (fun row => length row = n) (concat t).
Proof.
  induction 1 as [|m t Hm _ IH]; simpl; [constructor|].
  apply Forall_app. split; assumption.
Qed.

Lemma reshape_rows_concat (n : nat) (t : T3) :
  n <> 0%nat ->
  Forall (Forall (fun row => length row = n)) t ->
  NN.reshape_rows n t = Some (concat t).
Proof.
  intros Hn Hrows. unfold NN.reshape_rows.
  destruct (chunks_concat n (concat t) (concat_rows_uniform n t Hrows))
    as (Hchunks & Hlen).
  destruct (Nat.eqb_spec n 0); [contradiction|].
  rewrite Hlen, Nat.mul_comm, Nat.Div0.mod_mul, Nat.div_mul by exact Hn.
  cbn [Nat.eqb]. rewrite Hchunks. reflexivity.
Qed.

Lemma nth_error_concat_uniform {A : Type} (T : nat) (ll : list (list A))
    (b t : nat) (l : list A) :
  Forall (fun l => length l = T) ll ->
  nth_error ll b = Some l -> (t < T)%nat ->
  nth_error (concat ll) (b * T + t) = nth_error l t.
Proof.
  intros Hall. revert b. induction Hall as [|l0 ll Hl0 _ IH]; intros b Hb Ht.
  - destruct b; discriminate.
  - destruct b as [|b]; simpl in *.
    + injection Hb as ->. apply nth_error_app1. lia.
    + rewrite nth_error_app2 by lia.
      replace (T + b * T + t - length l0)%nat with (b * T + t)%nat by lia.
      apply IH; assumption.
Qed.

(** ** One stepwise call on one hypothesis *)

Lemma firstn_app_exact {A : Type} (n : nat) (l1 l2 : list A) :
  length l1 = n -> firstn n (l1 ++ l2) = l1.
Proof.
  intros <-. rewrite firstn_app, firstn_all, Nat.sub_diag. simpl. apply app_nil_r.
Qed.

Lemma skipn_app_exact {A : Type} (n : nat) (l1 l2 : list A) :
  length l1 = n -> skipn n (l1 ++ l2) = l2.
Proof. intros <-. rewrite skipn_app, skipn_all, Nat.sub_diag. reflexivity. Qed.

Section StepwiseCall.

Variable config : ModelConfig.
Variable s : Session.

Let num_units := num_lstm_units config.
Let cell_row :=
  NN.BasicLSTMCell_row num_units (lstm_kernel (variables s))
    (lstm_bias (variables s)).
Let project_row :=
  NN.linear (logits_weights (variables s)) (logits_biases (variables s))
    (vocab_size config).

Variable image region : T1.
Variable seed_out seed_c seed_h : T1.

Hypothesis units_positive : num_units <> 0%nat.
Hypothesis seed_ok :
  cell_row (image ++ region) (repeat 0%R num_units, repeat 0%R num_units)
  = Some (seed_out, (seed_c, seed_h)).

Lemma seed_state_single (mode : Mode) :
  mode <> train ->
  seed_state config mode [image ++ region] 1 s = Some (([seed_c], [seed_h]), s).
Proof.
  intros Hmode. unfold seed_state, mbind.
  rewrite lstm_cell_without_dropout by exact Hmode.
  unfold NN.zero_state. cbn [repeat].
  rewrite BasicLSTMCell_single. fold num_units. fold cell_row.
  rewrite seed_ok. reflexivity.
Qed.

Lemma fetch_initial_state_single :
  fetch_initial_state config [image] [region] s = Some ([seed_c ++ seed_h], s).
Proof.
  unfold fetch_initial_state, mbind. cbn [lift NN.concat1 NN.concat1_from
    NN.concat1_pair zipWithM obind length].
  rewrite seed_state_single by discriminate. reflexivity.
Qed.

Lemma inference_step_single (token : Z) (e c h out c' h' lg : T1) :
  NN.lookup_row (embedding_map (variables s)) token = Some e ->
  length c = num_units -> length h = num_units ->
  cell_row (e ++ image) (c, h) = Some (out, (c', h')) ->
  project_row out = Some lg ->
  exists fetched,
    inference_step config [image] [region] [token] [c ++ h] s
    = Some (fetched, s) /\
    logits fetched = [lg] /\ state fetched = Some [c' ++ h'].
Proof.
  intros Hlookup Hc Hh Hstep Hproject.
  destruct (cell_row_shape _ _ _ _ _ _ _ _ Hstep) as (-> & Hc' & Hh').
  unfold inference_step, build_model.
  cbn [input_seqs image_embeddings region_aspect_embeddings state_feed map].
  unfold mbind at 1. unfold build_seq_embeddings, mbind, get_variables, lift.
  unfold NN.embedding_lookup. cbn [mapM]. rewrite Hlookup. cbn [obind].
  rewrite process_lstm_input_stepwise by (repeat constructor).
  cbn [map length]. rewrite seed_state_single by discriminate.
  cbn [fst snd NN.concat1 NN.concat1_from NN.concat1_pair zipWithM obind].
  fold num_units.
  rewrite (placeholder_accepts num_units)
    by (repeat constructor; rewrite length_app; lia).
  rewrite (split1_halves num_units)
    by (repeat constructor; rewrite length_app; lia).
  cbn [map].
  rewrite (firstn_app_exact num_units c h Hc), (skipn_app_exact num_units c h Hc).
  cbn [NN.squeeze1 mapM obind].
  rewrite lstm_cell_without_dropout by discriminate.
  rewrite BasicLSTMCell_single. fold num_units. fold cell_row.
  rewrite Hstep. cbn [option_map fst snd].
  unfold NN.concat1_pair. cbn [zipWithM obind].
  rewrite (reshape_rows_concat num_units)
    by (try exact units_positive; repeat constructor; exact Hh').
  cbn [concat app].
  unfold project_logits, mbind, get_variables, lift, NN.fully_connected.
  cbn [mapM]. fold project_row. rewrite Hproject. cbn [obind].
  eexists. split; [reflexivity|]. split; reflexivity.
Qed.

(** The stepwise loop follows one example through the cell. *)
Lemma stepwise_loop_row (tokens : list Z) :
  forall (embeddings row_outs logit_rows : T2) (c h : T1),
    mapM (NN.lookup_row (embedding_map (variables s))) tokens = Some embeddings ->
    length c = num_units -> length h = num_units ->
    row_run cell_row (map (fun e => e ++ image) embeddings) (c, h)
    = Some row_outs ->
    mapM project_row row_outs = Some logit_rows ->
    stepwise_loop config [image] [region] tokens [c ++ h] s
    = Some (map (fun lg => [lg]) logit_rows, s).
Proof.
  induction tokens as [|token tokens IH];
    intros embeddings row_outs logit_rows c h Hemb Hc Hh Hrun Hproj.
  - simpl in Hemb. injection Hemb as <-. simpl in Hrun. injection Hrun as <-.
    simpl in Hproj. injection Hproj as <-. reflexivity.
  - simpl in Hemb.
    destruct (NN.lookup_row _ token) as [e|] eqn:He; [|discriminate].
    cbn [obind] in Hemb.
    destruct (mapM _ tokens) as [es|] eqn:Hes; [|discriminate].
    injection Hemb as <-. cbn [map row_run] in Hrun.
    destruct (cell_row (e ++ image) (c, h)) as [[out [c' h']]|] eqn:Hstep;
      [|discriminate].
    cbn [obind] in Hrun.
    destruct (row_run cell_row _ (c', h')) as [outs|] eqn:Houts; [|discriminate].
    injection Hrun as <-. cbn [mapM] in Hproj.
    destruct (project_row out) as [lg|] eqn:Hlg; [|discriminate].
    cbn [obind] in Hproj.
    destruct (mapM project_row outs) as [lgs|] eqn:Hlgs; [|discriminate].
    injection Hproj as <-.
    destruct (inference_step_single token e c h out c' h' lg He Hc Hh Hstep Hlg)
      as (fetched & Hcall & Hlogits & Hstate).
    destruct (cell_row_shape _ _ _ _ _ _ _ _ Hstep) as (_ & Hc' & Hh').
    cbn [stepwise_loop]. unfold mbind at 1. rewrite Hcall.
    unfold mbind at 1. rewrite Hstate. cbn [lift].
    unfold mbind. rewrite (IH es outs lgs c' h' eq_refl Hc' Hh' Houts Hlgs).
    unfold ret. rewrite Hlogits. reflexivity.
Qed.

End StepwiseCall.

(** ** Stepwise decoding against the unrolled run *)

Lemma row_run_length (cell : T1 -> T1 * T1 -> option (T1 * (T1 * T1)))
    (xs : list T1) :
  forall st outs, row_run cell xs st = Some outs -> length outs = length xs.
Proof.
  induction xs as [|x xs IH]; intros st outs H; simpl in H.
  - injection H as <-. reflexivity.
  - destruct (cell x st) as [[out st']|]; [|discriminate]. cbn [obind] in H.
    destruct (row_run cell xs st') as [rest|] eqn:E; [|discriminate].
    injection H as <-. simpl. rewrite (IH st' rest E). reflexivity.
Qed.

Lemma mapM_firstn {A B : Type} (f : A -> option B) (n : nat) (l : list A) (l' : list B) :
  mapM f l = Some l' -> mapM f (firstn n l) = Some (firstn n l').
Proof.
  revert l l'. induction n as [|n IH]; intros l l' H; [reflexivity|].
  destruct l as [|a l]; simpl in H.
  - injection H as <-. reflexivity.
  - destruct (f a) as [b|] eqn:Ea; [|discriminate]. cbn [obind] in H.
    destruct (mapM f l) as [bs|] eqn:E; [|discriminate].
    injection H as <-. simpl. rewrite Ea. cbn [obind].
    rewrite (IH l bs E). reflexivity.
Qed.

Lemma loss_head_logits (feeds : Feeds) (with_aspect : T2) (seq_with_aspect : T3)
    (lg : T2) (out : Fetches) :
  loss_head feeds with_aspect seq_with_aspect lg = Some out -> logits out = lg.
Proof.
  unfold loss_head.
  destruct (weighted_losses _ lg _) as [[losses weighted]|]; [|discriminate].
  cbn [obind]. intros H. injection H as <-. reflexivity.
Qed.

(** What a successful fusion in unrolled mode tells about its arguments. *)
Lemma process_lstm_input_unrolled_inv (mode : Mode)
    (image_embeddings region_aspect_embeddings : T2) (seq_embeddings : T3)
    (with_aspect : T2) (seq_with_aspect : T3) :
  mode <> inference ->
  process_lstm_input mode image_embeddings region_aspect_embeddings
    seq_embeddings = Some (with_aspect, seq_with_aspect) ->
  length region_aspect_embeddings = length image_embeddings /\
  length seq_embeddings = length image_embeddings /\
  with_aspect = map (fun p => fst p ++ snd p)
                    (combine image_embeddings region_aspect_embeddings) /\
  seq_with_aspect = map (fun p => map (fun w => w ++ snd p) (fst p))
                        (combine seq_embeddings image_embeddings).
Proof.
  intros Hmode Hrun.
  assert (Hshape : length region_aspect_embeddings = length image_embeddings /\
                   length seq_embeddings = length image_embeddings /\
                   Forall (fun m => length m = NN.shape1 seq_embeddings)
                          seq_embeddings).
  { unfold process_lstm_input in Hrun.
    unfold NN.concat1, NN.concat1_from in Hrun.
    destruct (NN.concat1_pair _ _) as [wa|] eqn:Hwa; [|discriminate].
    cbn [obind] in Hrun.
    replace (match mode with
             | inference => _
             | _ => NN.tile3 1 (NN.shape1 seq_embeddings) 1
                      (NN.expand_dims1 image_embeddings)
             end)
      with (map (fun row => repeat row (NN.shape1 seq_embeddings))
                image_embeddings) in Hrun
      by (destruct mode; try congruence; symmetry; apply tile_over_time).
    destruct (NN.concat2 seq_embeddings _) as [sa|] eqn:Hsa; [|discriminate].
    unfold NN.concat1_pair in Hwa. unfold NN.concat2 in Hsa.
    destruct (zipWithM_Some_length _ _ _ _ Hwa) as (Hl1 & Hl2).
    destruct (zipWithM_Some_length _ _ _ _ Hsa) as (Hl3 & Hl4).
    rewrite length_map in Hl4.
    split; [lia|]. split; [lia|].
    apply Forall_forall. intros m Hm.
    apply In_nth_error in Hm. destruct Hm as (k & Hk).
    destruct (nth_error_same_length seq_embeddings image_embeddings k m
                ltac:(lia) Hk) as (row & Hrow).
    destruct (zipWithM_Some_nth _ _ _ _ k m
                (repeat row (NN.shape1 seq_embeddings)) Hsa Hk) as (r & Hr & _).
    { rewrite nth_error_map, Hrow. reflexivity. }
    apply zipWithM_Some_length in Hr. rewrite repeat_length in Hr. lia. }
  destruct Hshape as (Hreg & Hseq & Hrect).
  rewrite (process_lstm_input_unrolled mode (NN.shape1 seq_embeddings)
             _ _ _ Hmode Hreg Hseq Hrect) in Hrun.
  injection Hrun as <- <-. repeat split; assumption.
Qed.

(** C2 (for the unrolled run in eval mode): whenever the unrolled run of a
    batch succeeds, decoding any example of the batch stepwise (fetching
    the initial state for its image, then one call per valid token with
    the flattened state of the previous call fed back) succeeds from the
    same session, makes one call per valid position, and returns at each
    valid position the logits the unrolled run computed there: row
    [b * padded_length + t] of its flattened logits. *)
Theorem stepwise_agrees_in_eval_mode (config : ModelConfig) (s : Session)
    (feeds : Feeds) :
  stepwise_agrees config eval s feeds.
Proof.
  intros out s' Hrun b image region tokens mask Himg Hreg Htok Hmask valid.
  set (nu := num_lstm_units config).
  set (cell_row := NN.BasicLSTMCell_row nu (lstm_kernel (variables s))
                     (lstm_bias (variables s))).
  set (project_row := NN.linear (logits_weights (variables s))
                        (logits_biases (variables s)) (vocab_size config)).
  rewrite build_model_unrolled in Hrun by discriminate.
  destruct (unrolled_logits config eval feeds s)
    as [[[[WAr SAr] L] s1]|] eqn:Hlog; [|discriminate].
  destruct (loss_head feeds WAr SAr L) as [out0|] eqn:Hloss; [|discriminate].
  cbn [option_map] in Hrun. injection Hrun as <- <-.
  rewrite (loss_head_logits _ _ _ _ _ Hloss). clear Hloss out0.
  (* the embeddings *)
  unfold unrolled_logits in Hlog. unfold mbind at 1 in Hlog.
  unfold build_seq_embeddings, mbind, get_variables, lift in Hlog.
  destruct (NN.embedding_lookup _ (input_seqs feeds)) as [SE|] eqn:HSE;
    [|discriminate].
  destruct (process_lstm_input eval _ _ SE) as [[WA0 SA0]|] eqn:Hfuse;
    [|discriminate].
  destruct (process_lstm_input_unrolled_inv eval _ _ _ _ _ ltac:(discriminate)
              Hfuse) as (HlR & HlS & -> & ->).
  unfold NN.embedding_lookup in HSE.
  destruct (mapM_Some_nth _ _ _ b tokens HSE Htok) as (embs & Hembs & HSEb).
  assert (HWAb : nth_error (map (fun p => fst p ++ snd p)
                   (combine (image_embeddings feeds)
                      (region_aspect_embeddings feeds))) b
                 = Some (image ++ region))
    by (apply (nth_error_map_combine (fun p => fst p ++ snd p)); assumption).
  assert (HSAb : nth_error (map (fun p => map (fun w => w ++ snd p) (fst p))
                   (combine SE (image_embeddings feeds))) b
                 = Some (map (fun w => w ++ image) embs))
    by (apply (nth_error_map_combine
                 (fun p => map (fun w => w ++ snd p) (fst p))); assumption).
  set (WA := map _ (combine (image_embeddings feeds) _)) in *.
  set (SA := map _ (combine SE _)) in *.
  (* the seed *)
  destruct (seed_state config eval WA _ s) as [[[C0 H0] s0]|] eqn:Hseed;
    [|discriminate].
  unfold seed_state, mbind in Hseed.
  rewrite lstm_cell_without_dropout in Hseed by discriminate.
  destruct (NN.BasicLSTMCell _ _ _ WA _) as [[O0 [C0' H0']]|] eqn:Hcell0;
    [|discriminate].
  cbn [option_map] in Hseed. unfold ret in Hseed.
  injection Hseed as <- <- <-.
  assert (Hb : (b < length (image_embeddings feeds))%nat)
    by (apply nth_error_Some; congruence).
  unfold NN.zero_state in Hcell0.
  destruct (BasicLSTMCell_rows _ _ _ _ _ _ _ _ _ Hcell0)
    as (_ & _ & _ & _ & _ & Hrow0).
  destruct (Hrow0 b (image ++ region) (repeat 0%R nu) (repeat 0%R nu) HWAb
              (nth_error_repeat _ Hb) (nth_error_repeat _ Hb))
    as (o0 & c0 & h0 & Hseed_row & _ & HC0b & HH0b).
  clear Hrow0.
  (* the loop *)
  destruct (dynamic_rnn config (lstm_cell config eval) SA _ (C0', H0') s)
    as [[[outputs fin] s2]|] eqn:Hdyn; [|discriminate].
  cbn beta iota in Hlog.
  destruct (NN.reshape_rows _ outputs) as [rows|] eqn:Hresh; [|discriminate].
  destruct (project_logits config rows s2) as [[L0 s3]|] eqn:Hproj;
    [|discriminate].
  unfold ret in Hlog. injection Hlog as _ _ <- _.
  unfold dynamic_rnn, mbind, lift in Hdyn.
  destruct (NN.swap01 (NN.shape1 SA) SA) as [inputs_tm|] eqn:Hswap_in;
    [|discriminate].
  destruct (length (NN.reduce_sum_rows (input_mask feeds)) =? length SA)%nat;
    [|discriminate].
  destruct (rnn_loop _ inputs_tm 0 _ _ (C0', H0') s)
    as [[[outs_tm fin'] s2']|] eqn:Hloop; [|discriminate].
  destruct (NN.swap01 (length SA) outs_tm) as [outputs'|] eqn:Hswap_out;
    [|discriminate].
  unfold ret in Hdyn. injection Hdyn as <- _ <-.
  set (T := NN.shape1 SA) in *.
  destruct (swap01_entries _ _ _ Hswap_in) as (Hlen_in & Hrect & _ & Hent_in).
  assert (HT : length tokens = T).
  { rewrite Forall_forall in Hrect.
    rewrite <- (Hrect _ (nth_error_In _ _ HSAb)), length_map.
    symmetry. apply (mapM_Some_length _ _ _ Hembs). }
  assert (Hxs : Forall2 (fun inp x => nth_error inp b = Some x) inputs_tm
                  (map (fun w => w ++ image) embs)).
  { apply Forall2_of_nth.
    - rewrite Hlen_in, length_map, <- HT.
      symmetry. apply (mapM_Some_length _ _ _ Hembs).
    - intros k inp x Hk Hx.
      destruct (Hent_in k b _ inp Hk HSAb) as (x' & Hx' & Hinp). congruence. }
  assert (Hlenb : nth_error (NN.reduce_sum_rows (input_mask feeds)) b
                  = Some (fold_right Z.add 0%Z mask))
    by (unfold NN.reduce_sum_rows; rewrite nth_error_map, Hmask; reflexivity).
  destruct (rnn_loop_row config s b _ _ _ Hlenb _ _ _ _ _ _ _ _ c0 h0
              Hloop HC0b HH0b Hxs) as (row_outs & Hrr & Hnth).
  replace (Z.to_nat (fold_right Z.add 0%Z mask - Z.of_nat 0)) with valid in Hrr
    by (unfold valid; lia).
  rewrite firstn_map in Hrr.
  assert (Hzero : Forall (fun row : T1 => length row = num_lstm_units config)
                    (repeat (repeat 0%R (num_lstm_units config)) (length SA))).
  { apply Forall_forall. intros row Hrow. apply repeat_spec in Hrow. subst row.
    apply repeat_length. }
  destruct (rnn_loop_shape config s _ _ _ Hzero _ _ _ _ _ Hloop)
    as (-> & Hlen_outs & _ & Hrows_outs).
  destruct (swap01_entries _ _ _ Hswap_out)
    as (Hlen_out & _ & Hwide & Hent_out).
  assert (Hb' : (b < length outputs')%nat)
    by (rewrite Hlen_out; apply nth_error_Some; congruence).
  destruct (nth_error outputs' b) as [orow|] eqn:Horow;
    [|apply nth_error_None in Horow; lia].
  assert (Hnarrow : Forall (Forall (fun row : T1 => length row = nu)) outputs').
  { apply Forall_forall. intros orow' Hin. apply Forall_forall. intros x Hx.
    apply In_nth_error in Hin. destruct Hin as (k' & Hk').
    apply In_nth_error in Hx. destruct Hx as (i & Hi).
    rewrite Forall_forall in Hwide.
    assert (Hilt : (i < length outs_tm)%nat).
    { rewrite <- (Hwide _ (nth_error_In _ _ Hk')).
      apply nth_error_Some. congruence. }
    destruct (nth_error outs_tm i) as [m|] eqn:Hm;
      [|apply nth_error_None in Hm; lia].
    destruct (Hent_out k' i m orow' Hk' Hm) as (x' & Hx' & Hx'').
    rewrite Hi in Hx''. injection Hx'' as <-.
    rewrite Forall_forall in Hrows_outs.
    specialize (Hrows_outs m (nth_error_In _ _ Hm)).
    rewrite Forall_forall in Hrows_outs.
    apply (Hrows_outs x (nth_error_In _ _ Hx')). }
  assert (Hnu : nu <> 0%nat).
  { intros Hzero'. unfold NN.reshape_rows in Hresh. fold nu in Hresh.
    rewrite Hzero' in Hresh. discriminate. }
  fold nu in Hresh. rewrite (reshape_rows_concat nu _ Hnu Hnarrow) in Hresh.
  injection Hresh as <-.
  destruct (project_logits_rows _ _ _ _ _ Hproj) as (_ & HL & _).
  unfold NN.fully_connected in HL. fold project_row in HL.
  assert (Hwide' : Forall (fun l : T2 => length l = T) outputs').
  { apply Forall_forall. intros l Hl. rewrite Forall_forall in Hwide.
    rewrite (Hwide l Hl). lia. }
  assert (Hlogit : forall k r, nth_error row_outs k = Some r ->
            exists lg, project_row r = Some lg /\
                       nth_error L0 (b * T + k) = Some lg).
  { intros k r Hr.
    destruct (Hnth k r Hr) as (o & Ho & Hob).
    destruct (Hent_out b k o orow Horow Ho) as (x & Hx & Hxk).
    rewrite Hob in Hx. injection Hx as <-.
    assert (Hklt : (k < T)%nat).
    { rewrite <- Hlen_in, <- Hlen_outs. apply nth_error_Some. congruence. }
    apply (mapM_Some_nth _ _ _ (b * T + k) r HL).
    rewrite (nth_error_concat_uniform T outputs' b k orow Hwide' Horow Hklt).
    exact Hxk. }
  destruct (mapM_defined project_row row_outs) as (logit_rows & Hlogits).
  { intros r Hr. apply In_nth_error in Hr. destruct Hr as (k & Hk).
    destruct (Hlogit k r Hk) as (lg & Hlg & _). congruence. }
  destruct (cell_row_shape _ _ _ _ _ _ _ _ Hseed_row) as (_ & Hc0 & Hh0).
  exists (map (fun lg => [lg]) logit_rows), s.
  assert (Hcount : length logit_rows = Nat.min valid (length tokens)).
  { rewrite (mapM_Some_length _ _ _ Hlogits), (row_run_length _ _ _ _ Hrr).
    rewrite length_map, length_firstn.
    rewrite (mapM_Some_length _ _ _ Hembs). reflexivity. }
  split; [|split].
  - unfold stepwise, mbind.
    rewrite (fetch_initial_state_single config s image region o0 c0 h0 Hseed_row).
    apply (stepwise_loop_row config s image region o0 c0 h0 Hnu Hseed_row
             (firstn valid tokens) (firstn valid embs) row_outs logit_rows);
      auto using mapM_firstn.
  - rewrite length_map. exact Hcount.
  - intros t Hvalid Htlen.
    destruct (nth_error logit_rows t) as [lg|] eqn:Hlg;
      [|apply nth_error_None in Hlg; lia].
    assert (Htlt : (t < length row_outs)%nat)
      by (rewrite <- (mapM_Some_length _ _ _ Hlogits); lia).
    destruct (nth_error row_outs t) as [r|] eqn:Hr;
      [|apply nth_error_None in Hr; lia].
    destruct (Hlogit t r Hr) as (lg' & Hlg' & HLt).
    destruct (mapM_Some_nth _ _ _ t r Hlogits Hr) as (lg'' & Hlg'' & Hlgt).
    exists lg. rewrite HT. split.
    + rewrite HLt. congruence.
    + rewrite nth_error_map, Hlg. reflexivity.
Qed.

Lemma stepwise_agrees_in_eval_mode_witness :
  (exists out s',
     build_model tiny_config eval tiny_feeds tiny_session = Some (out, s')) /\
  stepwise_agrees tiny_config eval tiny_session tiny_feeds.
Proof.
  split.
  - do 2 eexists. run_model. reflexivity.
  - apply (stepwise_agrees_in_eval_mode tiny_config tiny_session tiny_feeds).
Defined.

(** ** Dropout in train mode *)

Section Positivity.

Local Open Scope R_scope.

Lemma maybe_dropout_below_one (keep_prob : R) (x : T2) :
  keep_prob < 1 -> maybe_dropout keep_prob x = dropout keep_prob x.
Proof.
  intros H. unfold maybe_dropout.
  destruct (Rlt_dec keep_prob 1); [reflexivity | contradiction].
Qed.

Lemma sigmoid_pos (x : R) : 0 < NN.sigmoid x.
Proof.
  unfold NN.sigmoid. pose proof (exp_pos (- x)).
  apply Rdiv_lt_0_compat; lra.
Qed.

Lemma tanh_pos (x : R) : 0 < x -> 0 < tanh x.
Proof.
  intros Hx. unfold tanh. apply Rdiv_lt_0_compat.
  - rewrite <- sinh_0. apply sinh_lt, Hx.
  - unfold cosh. pose proof (exp_pos x). pose proof (exp_pos (- x)). lra.
Qed.

Lemma floor_unit (x : R) : 0 <= x < 1 -> NN.floor x = 0.
Proof.
  intros Hx. unfold NN.floor.
  rewrite <- (Int_part_spec x 0); [reflexivity|]. simpl. lra.
Qed.

Lemma pos_after_zero (a b : R) : 0 < b -> 0 < 0 * a + b.
Proof. intros. lra. Qed.

Lemma pos_plus_zero_r (a : R) : 0 < a -> 0 < a + 0.
Proof. intros. lra. Qed.

Lemma pos_plus_zero_l (a : R) : 0 < a -> 0 < 0 + a.
Proof. intros. lra. Qed.

End Positivity.

(** Positivity of an expression built from sums, products, [tanh] and the
    sigmoid. *)
Ltac positive :=
  lazymatch goal with
  | |- (0 < NN.sigmoid _)%R => apply sigmoid_pos
  | |- (0 < tanh _)%R => apply tanh_pos; positive
  | |- (0 < _ * _)%R => first [lra | apply Rmult_lt_0_compat; positive]
  | |- (0 < _ + _)%R =>
      first [ lra
            | apply pos_plus_zero_r; positive
            | apply pos_plus_zero_l; positive
            | apply pos_after_zero; positive
            | apply Rplus_lt_0_compat; positive ]
  | |- _ => lra
  end.

(** Evaluation of a run in train mode: every dropout of keep probability
    below one is resolved in turn. *)
Ltac run_train_in H :=
  cbv -[exp ln tanh Rplus Rminus Rmult Rdiv Rinv Ropp IZR INR Int_part
        NN.sigmoid NN.floor Rle_dec Rlt_dec maybe_dropout] in H;
  repeat (rewrite maybe_dropout_below_one in H by lra;
          cbv -[exp ln tanh Rplus Rminus Rmult Rdiv Rinv Ropp IZR INR Int_part
                NN.sigmoid NN.floor Rle_dec Rlt_dec maybe_dropout] in H).

(** C2 as stated, for the unrolled run in train mode, fails: with keep
    probability 0.5 and a random source that drops every entry, the
    unrolled run of the small model returns the logit 0 at the first
    position, where stepwise decoding returns a positive logit. *)
Lemma train_mode_breaks_stepwise_agreement :
  ~ stepwise_agrees tiny_config train tiny_session tiny_feeds.
Proof.
  intros Hagree.
  destruct (build_model tiny_config train tiny_feeds tiny_session)
    as [[out s']|] eqn:Hrun.
  2:{ run_train_in Hrun. discriminate. }
  destruct (Hagree out s' Hrun 0%nat [1%R] [1%R] [0; 1]%Z [1; 0]%Z
              eq_refl eq_refl eq_refl eq_refl)
    as (steps & s'' & Hstep & _ & Hrows).
  destruct (Hrows 0%nat) as (row & Hrow & Hfirst); [cbv; lia | cbv; lia |].
  clear Hagree Hrows.
  run_train_in Hrun. injection Hrun as <- _.
  run_train_in Hstep. injection Hstep as <- _.
  cbn [nth_error logits Nat.mul Nat.add length] in Hrow, Hfirst.
  injection Hrow as <-. injection Hfirst as Heq _.
  match type of Heq with
  | ?a = ?b =>
      assert (Ha : (0 < a)%R) by positive;
      assert (Hb : b = 0%R) by (rewrite floor_unit by lra; unfold Rdiv; ring)
  end.
  lra.
Qed.

(** ** The scenarios of the specification *)

Section Scenarios.

Local Open Scope R_scope.

Lemma clip01_zero : clip01 0 = 0.
Proof.
  unfold clip01, Rmin, Rmax.
  destruct (Rle_dec 0 0); destruct (Rle_dec _ 1); lra.
Qed.

Lemma clip01_one : clip01 1 = 1.
Proof.
  unfold clip01, Rmin, Rmax.
  destruct (Rle_dec 1 0); destruct (Rle_dec _ 1); lra.
Qed.

(** With zero offsets and unit variances the decoded box is the clipped
    prior box. *)
Lemma BoxDecoder_zero_offsets (p : Prior) :
  box_row (BoxDecoder p (mkOffsets 0 0 0 0) (mkVariances 1 1 1 1))
  = [clip01 (px0 p); clip01 (py0 p); clip01 (px1 p); clip01 (py1 p)].
Proof.
  unfold box_row, BoxDecoder; cbn.
  replace (exp (0 * 1)) with 1 by (rewrite Rmult_0_l, exp_0; reflexivity).
  repeat f_equal; lra.
Qed.

(** A single prior box [(0, 0, 1, 1)] with variances [(1, 1, 1, 1)] and
    offsets [(0, 0, 0, 0)] is decoded to [(0, 0, 1, 1)]. *)
Example unit_prior_decodes_to_itself :
  decode_bbox_of (map (map pack) [[unit_candidate]]) = Some [[[0; 0; 1; 1]]].
Proof.
  rewrite decode_bbox_of_packed. cbn [map]. do 3 f_equal.
  unfold unit_candidate; cbn [cand_prior cand_offsets cand_variances].
  rewrite BoxDecoder_zero_offsets. cbn [px0 py0 px1 py1].
  rewrite clip01_zero, clip01_one. reflexivity.
Qed.

Lemma decode_confident :
  box_row (decode_candidate confident_candidate) = [0; 0; 1; 1].
Proof.
  unfold decode_candidate, confident_candidate;
    cbn [cand_prior cand_offsets cand_variances].
  rewrite BoxDecoder_zero_offsets. cbn [px0 py0 px1 py1].
  rewrite clip01_zero, clip01_one. reflexivity.
Qed.

(** Two priors with overlapping boxes and confidences 0.9 and 0.1: the box
    of the first is selected and the image is cropped to it. *)
Example confident_box_is_selected :
  build_image_ssd_embeddings (fun img : unit => img)
    (constant_ssd [confident_candidate; doubtful_candidate]) keep_image [tt]
  = Some {| good_box := [[0; 0; 1; 1]]; region_images := [tt] |}.
Proof.
  destruct (build_image_ssd_embeddings_picks unit (fun img => img)
              (constant_ssd [confident_candidate; doubtful_candidate])
              keep_image [tt] [[confident_candidate; doubtful_candidate]])
    as (picks & Hbest & Hout);
    [reflexivity | reflexivity | repeat constructor; discriminate
    | repeat constructor; discriminate |].
  rewrite Hout. clear Hout.
  inversion Hbest as [|row c rows picks' (Hin & Hmax) Hrest]; subst.
  inversion Hrest; subst.
  assert (c = confident_candidate) as ->.
  { destruct Hin as [<-|[<-|[]]]; [reflexivity|].
    specialize (Hmax confident_candidate (or_introl eq_refl)).
    rewrite max_conf_confident, max_conf_doubtful in Hmax. lra. }
  cbn [map combine fst snd keep_image]. rewrite decode_confident. reflexivity.
Qed.

End Scenarios.

(* ================================================================= *)
(** * Further properties *)

(** ** More about the failure monad *)

Lemma mapM_app_Some {A B : Type} (f : A -> option B) (l1 l2 : list A)
    (r1 r2 : list B) :
  mapM f l1 = Some r1 -> mapM f l2 = Some r2 -> mapM f (l1 ++ l2) = Some (r1 ++ r2).
Proof.
  revert r1. induction l1 as [|a l1 IH]; intros r1 H1 H2; simpl in *.
  - injection H1 as <-. exact H2.
  - destruct (f a) as [b|]; [|discriminate]. cbn [obind] in *.
    destruct (mapM f l1) as [bs|]; [|discriminate].
    injection H1 as <-. rewrite (IH bs eq_refl H2). reflexivity.
Qed.

Lemma mapM_app_None_l {A B : Type} (f : A -> option B) (l1 l2 : list A) :
  mapM f l1 = None -> mapM f (l1 ++ l2) = None.
Proof.
  induction l1 as [|a l1 IH]; intros H1; simpl in *; [discriminate|].
  destruct (f a) as [b|]; [|reflexivity]. cbn [obind] in *.
  destruct (mapM f l1) as [bs|]; [discriminate|].
  rewrite IH; reflexivity.
Qed.

Lemma mapM_app_None_r {A B : Type} (f : A -> option B) (l1 l2 : list A) :
  mapM f l2 = None -> mapM f (l1 ++ l2) = None.
Proof.
  intros H2. induction l1 as [|a l1 IH]; simpl; [exact H2|].
  rewrite IH. destruct (f a); reflexivity.
Qed.

Lemma mapM_None_In {A B : Type} (f : A -> option B) (l : list A) (a : A) :
  In a l -> f a = None -> mapM f l = None.
Proof.
  intros Hin Hf. apply in_split in Hin. destruct Hin as (l1 & l2 & ->).
  apply mapM_app_None_r. simpl. rewrite Hf. reflexivity.
Qed.

(** ** The box decoder on rows of any length *)

Lemma at_least_eight_length (row : T1) : (8 <= length (at_least_eight row))%nat.
Proof.
  unfold at_least_eight. destruct (Nat.leb_spec 8 (length row)); [assumption|].
  rewrite repeat_length. lia.
Qed.

Lemma at_least_eight_id (row : T1) :
  (8 <= length row)%nat -> at_least_eight row = row.
Proof.
  intros H. unfold at_least_eight.
  destruct (Nat.leb_spec 8 (length row)); [reflexivity | lia].
Qed.

Lemma firstn_four (d : R) (l : list R) :
  (4 <= length l)%nat ->
  firstn 4 l = [nth 0 l d; nth 1 l d; nth 2 l d; nth 3 l d].
Proof.
  destruct l as [|a [|b [|c [|e l]]]]; simpl; intros H; try lia. reflexivity.
Qed.

Lemma nth_skipn {A : Type} (k n : nat) (l : list A) (d : A) :
  nth k (skipn n l) d = nth (n + k) l d.
Proof.
  revert l. induction n as [|n IH]; intros l; [reflexivity|].
  destruct l as [|a l]; [destruct k; reflexivity|]. apply IH.
Qed.

Lemma row_loc (row : T1) :
  (8 <= length row)%nat ->
  Py.slice None (Some 4%Z) row
  = let o := offsets_of row in [dx o; dy o; dw o; dh o].
Proof.
  intros H. unfold Py.slice, Py.bound.
  replace (4 <? 0)%Z with false by reflexivity.
  rewrite Z.min_l by lia. cbn [skipn Z.to_nat].
  replace (Z.to_nat (4 - 0)) with 4%nat by lia.
  apply firstn_four. lia.
Qed.

Lemma row_variances (row : T1) :
  (8 <= length row)%nat ->
  Py.slice (Some (-4)%Z) None row
  = let v := variances_of row in [vx v; vy v; vw v; vh v].
Proof.
  intros H. unfold Py.slice, Py.bound.
  replace (-4 <? 0)%Z with true by reflexivity.
  replace (Z.to_nat (Z.max (-4 + Z.of_nat (length row)) 0)) with (length row - 4)%nat by lia.
  replace (Z.to_nat (Z.of_nat (length row) - Z.max (-4 + Z.of_nat (length row)) 0))
    with 4%nat by lia.
  rewrite (firstn_four 0%R) by (rewrite length_skipn; lia).
  rewrite !nth_skipn. unfold variances_of. cbv zeta. cbn [vx vy vw vh].
  replace (length row - 4 + 0)%nat with (length row - 4)%nat by lia.
  replace (length row - 4 + 1)%nat with (length row - 3)%nat by lia.
  replace (length row - 4 + 2)%nat with (length row - 2)%nat by lia.
  replace (length row - 4 + 3)%nat with (length row - 1)%nat by lia.
  reflexivity.
Qed.

Lemma row_priorbox (row : T1) :
  (8 <= length row)%nat ->
  Py.slice (Some (-8)%Z) (Some (-4)%Z) row
  = let p := prior_of row in [px0 p; py0 p; px1 p; py1 p].
Proof.
  intros H. unfold Py.slice, Py.bound.
  replace (-4 <? 0)%Z with true by reflexivity.
  replace (-8 <? 0)%Z with true by reflexivity.
  replace (Z.to_nat (Z.max (-8 + Z.of_nat (length row)) 0)) with (length row - 8)%nat by lia.
  replace (Z.to_nat (Z.max (-4 + Z.of_nat (length row)) 0
                     - Z.max (-8 + Z.of_nat (length row)) 0))
    with 4%nat by lia.
  rewrite (firstn_four 0%R) by (rewrite length_skipn; lia).
  rewrite !nth_skipn. unfold prior_of. cbv zeta. cbn [px0 py0 px1 py1].
  replace (length row - 8 + 0)%nat with (length row - 8)%nat by lia.
  replace (length row - 8 + 1)%nat with (length row - 7)%nat by lia.
  replace (length row - 8 + 2)%nat with (length row - 6)%nat by lia.
  replace (length row - 8 + 3)%nat with (length row - 5)%nat by lia.
  reflexivity.
Qed.

Lemma slice3_rows (lo hi : option Z) (g : T1 -> T1) (t : T3) :
  (forall row, Py.slice lo hi (at_least_eight row) = g (at_least_eight row)) ->
  TF.slice3 lo hi (map (map at_least_eight) t)
  = map (map (fun row => g (at_least_eight row))) t.
Proof.
  intros Hg. unfold TF.slice3. rewrite map_map.
  apply map_ext; intros row. rewrite map_map.
  apply map_ext; intros c. apply Hg.
Qed.

Lemma map_map_id_in {A : Type} (f : A -> A) (t : list (list A)) :
  Forall (Forall (fun x => f x = x)) t -> map (map f) t = t.
Proof.
  induction 1 as [|row t Hrow _ IH]; simpl; [reflexivity|].
  rewrite IH. f_equal.
  induction Hrow as [|x row Hx _ IHr]; simpl; [reflexivity|].
  rewrite Hx, IHr. reflexivity.
Qed.

Lemma decode_bbox_of_rows (ssd_output : T3) :
  Forall (Forall (fun row => 8 <= length row)%nat) ssd_output ->
  decode_bbox_of ssd_output = Some (map (map decode_row) ssd_output).
Proof.
  intros Hrows.
  assert (Hid : map (map at_least_eight) ssd_output = ssd_output).
  { apply map_map_id_in. eapply Forall_impl; [|exact Hrows].
    intros row Hrow. eapply Forall_impl; [|exact Hrow].
    intros r Hr. apply at_least_eight_id, Hr. }
  rewrite <- Hid at 1.
  unfold decode_bbox_of.
  rewrite (slice3_rows None (Some 4%Z) (fun r => let o := offsets_of r in [dx o; dy o; dw o; dh o]))
    by (intros; apply row_loc, at_least_eight_length).
  rewrite (slice3_rows (Some (-4)%Z) None
             (fun r => let v := variances_of r in [vx v; vy v; vw v; vh v]))
    by (intros; apply row_variances, at_least_eight_length).
  rewrite (slice3_rows (Some (-8)%Z) (Some (-4)%Z)
             (fun r => let p := prior_of r in [px0 p; py0 p; px1 p; py1 p]))
    by (intros; apply row_priorbox, at_least_eight_length).
  unfold TF.subtract, TF.add, TF.multiply.
  repeat step_decode.
  rewrite !column_mapped.
  unfold TF.concat_last4, TF.concat_last4_from.
  repeat (rewrite concat_last4_pair_mapped; cbn [obind]).
  rewrite squeeze1_mapped; cbn [obind].
  rewrite clip3_mapped.
  f_equal. rewrite <- Hid at 2. rewrite map_map.
  apply map_ext; intros row. rewrite map_map. apply map_ext; intros c.
  unfold decode_row, box_row, BoxDecoder, clip01; cbn.
  rewrite !(half_times (exp _ * _)). reflexivity.
Qed.

Lemma short_row_has_no_prior (row : T1) :
  (length row < 8)%nat ->
  nth_error (Py.slice (Some (-8)%Z) (Some (-4)%Z) row) 3 = None.
Proof.
  intros H. apply nth_error_None. unfold Py.slice, Py.bound.
  replace (-4 <? 0)%Z with true by reflexivity.
  replace (-8 <? 0)%Z with true by reflexivity.
  rewrite length_firstn. lia.
Qed.

Lemma index3_None (k : nat) (t : T3) :
  Exists (Exists (fun row => nth_error row k = None)) t -> TF.index3 k t = None.
Proof.
  intros H. apply Exists_exists in H. destruct H as (m & Hm & Hrow).
  apply Exists_exists in Hrow. destruct Hrow as (row & Hin & Hnone).
  unfold TF.index3. apply (mapM_None_In _ _ m Hm).
  apply (mapM_None_In _ _ row Hin Hnone).
Qed.

Lemma decode_bbox_of_short_row (ssd_output : T3) :
  Exists (Exists (fun row => length row < 8)%nat) ssd_output ->
  decode_bbox_of ssd_output = None.
Proof.
  intros Hshort. unfold decode_bbox_of.
  destruct (TF.index3 0 _) as [pb0|]; [|reflexivity]. cbn [obind].
  destruct (TF.index3 1 _) as [pb1|]; [|reflexivity]. cbn [obind].
  destruct (TF.index3 2 _) as [pb2|]; [|reflexivity]. cbn [obind].
  rewrite index3_None; [reflexivity|].
  unfold TF.slice3. apply Exists_exists in Hshort.
  destruct Hshort as (m & Hm & Hrow). apply Exists_exists in Hrow.
  destruct Hrow as (row & Hin & Hlen).
  apply Exists_exists. exists (map (Py.slice (Some (-8)%Z) (Some (-4)%Z)) m).
  split; [apply in_map, Hm|].
  apply Exists_exists. exists (Py.slice (Some (-8)%Z) (Some (-4)%Z) row).
  split; [apply in_map, Hin|]. apply short_row_has_no_prior, Hlen.
Qed.

(** X1: the box decoder is defined exactly on detector outputs whose rows
    have at least eight numbers.  It then returns, for every prior of every
    image, the clipped box computed from the first four numbers of the row
    (the offsets), the four before the last four (the prior box) and the
    last four (the variances), whatever lies in between; a row of fewer
    than eight numbers anywhere makes the whole decoding fail. *)
Theorem decoder_needs_eight_columns (ssd_output : T3) :
  (Forall (Forall (fun row => 8 <= length row)%nat) ssd_output ->
   decode_bbox_of ssd_output = Some (map (map decode_row) ssd_output))
  /\ (Exists (Exists (fun row => length row < 8)%nat) ssd_output ->
      decode_bbox_of ssd_output = None).
Proof.
  split; [apply decode_bbox_of_rows | apply decode_bbox_of_short_row].
Qed.

Lemma decoder_needs_eight_columns_witness :
  decode_bbox_of [[[0; 0; 0; 0; 0; 0; 1; 1; 1; 1; 1; 1]]]%R
  = Some [[decode_row [0; 0; 0; 0; 0; 0; 1; 1; 1; 1; 1; 1]%R]]
  /\ decode_bbox_of [[[0; 0; 0; 0; 0; 0; 1]]]%R = None.
Proof.
  split.
  - apply (proj1 (decoder_needs_eight_columns
                    [[[0; 0; 0; 0; 0; 0; 1; 1; 1; 1; 1; 1]]]%R)).
    repeat constructor; simpl; lia.
  - apply (proj2 (decoder_needs_eight_columns [[[0; 0; 0; 0; 0; 0; 1]]]%R)).
    repeat constructor; simpl; lia.
Defined.

Section RegionChoice.

Variable Image : Type.
Variable resize_300x300 : Image -> Image.
Variable ssd : list Image -> T3.
Variable crop : Image -> T1 -> Image.

Lemma build_image_ssd_embeddings_selected
    (images : list Image) (dets : list (list Candidate)) :
  ssd (map resize_300x300 images) = map (map pack) dets ->
  length dets = length images ->
  Forall (fun row => row <> []) dets ->
  Forall (Forall (fun c => cand_conf c <> [])) dets ->
  exists out,
    build_image_ssd_embeddings resize_300x300 ssd crop images = Some out /\
    mapM (fun row => option_map (fun c => box_row (decode_candidate c))
                       (selected_candidate row)) dets
    = Some (good_box out).
Proof.
  intros Hssd Hlen Hrows Hconf.
  destruct (picks_exist (fun c => box_row (decode_candidate c)) max_conf dets Hrows)
    as (picks & Hpicks & Hbest).
  unfold build_image_ssd_embeddings.
  rewrite Hssd, !length_map, Hlen, Nat.eqb_refl. cbn [obind].
  rewrite decode_bbox_of_packed. cbn [obind].
  rewrite (slice3_mapped _ _ _ dets pack_conf).
  rewrite (reduce_max_last_conf dets Hconf). cbn [obind].
  change (fun c => box_row (BoxDecoder (cand_prior c) (cand_offsets c) (cand_variances c)))
    with (fun c => box_row (decode_candidate c)).
  rewrite select_good_box_mapped by (auto; intros; reflexivity).
  unfold selected_candidate.
  rewrite Hpicks. cbn [obind].
  rewrite <- (length_map resize_300x300 images).
  rewrite crop_and_resize_range.
  - eexists. split; reflexivity.
  - rewrite !length_map, <- Hlen. symmetry.
    eapply Forall2_length; eassumption.
Qed.

End RegionChoice.

(** X2: the box chosen for an image depends on the detector rows of that
    image alone: two batches (of any sizes, through any detectors) in
    which an image of the one and an image of the other have the same
    rows select the same box for them. *)
Theorem region_choice_is_per_image
    (Image : Type) (resize_300x300 : Image -> Image)
    (ssd ssd' : list Image -> T3) (crop : Image -> T1 -> Image)
    (images images' : list Image) (dets dets' : list (list Candidate)) :
  ssd (map resize_300x300 images) = map (map pack) dets ->
  length dets = length images ->
  Forall (fun row => row <> []) dets ->
  Forall (Forall (fun c => cand_conf c <> [])) dets ->
  ssd' (map resize_300x300 images') = map (map pack) dets' ->
  length dets' = length images' ->
  Forall (fun row => row <> []) dets' ->
  Forall (Forall (fun c => cand_conf c <> [])) dets' ->
  exists out out',
    build_image_ssd_embeddings resize_300x300 ssd crop images = Some out /\
    build_image_ssd_embeddings resize_300x300 ssd' crop images' = Some out' /\
    forall i j row, nth_error dets i = Some row -> nth_error dets' j = Some row ->
      exists box, nth_error (good_box out) i = Some box /\
                  nth_error (good_box out') j = Some box.
Proof.
  intros Hssd Hlen Hrows Hconf Hssd' Hlen' Hrows' Hconf'.
  destruct (build_image_ssd_embeddings_selected Image resize_300x300 ssd crop
              images dets Hssd Hlen Hrows Hconf) as (out & Hout & Hsel).
  destruct (build_image_ssd_embeddings_selected Image resize_300x300 ssd' crop
              images' dets' Hssd' Hlen' Hrows' Hconf') as (out' & Hout' & Hsel').
  exists out, out'. split; [exact Hout|]. split; [exact Hout'|].
  intros i j row Hi Hj.
  destruct (mapM_Some_nth _ _ _ i row Hsel Hi) as (box & Hbox & Hnth).
  destruct (mapM_Some_nth _ _ _ j row Hsel' Hj) as (box' & Hbox' & Hnth').
  exists box. split; [exact Hnth|]. congruence.
Qed.

Lemma region_choice_is_per_image_witness :
  exists out out',
    build_image_ssd_embeddings (fun img : unit => img)
      (constant_ssd [confident_candidate; doubtful_candidate]) keep_image [tt]
    = Some out /\
    build_image_ssd_embeddings (fun img : unit => img)
      (constant_ssd [confident_candidate; doubtful_candidate]) keep_image [tt; tt]
    = Some out' /\
    forall i j row,
      nth_error [[confident_candidate; doubtful_candidate]] i = Some row ->
      nth_error [[confident_candidate; doubtful_candidate];
                 [confident_candidate; doubtful_candidate]] j = Some row ->
      exists box, nth_error (good_box out) i = Some box /\
                  nth_error (good_box out') j = Some box.
Proof.
  apply (region_choice_is_per_image unit (fun img => img)
           (constant_ssd [confident_candidate; doubtful_candidate])
           (constant_ssd [confident_candidate; doubtful_candidate])
           keep_image [tt] [tt; tt]
           [[confident_candidate; doubtful_candidate]]
           [[confident_candidate; doubtful_candidate];
            [confident_candidate; doubtful_candidate]]).
  - reflexivity.
  - reflexivity.
  - repeat constructor; discriminate.
  - repeat constructor; discriminate.
  - reflexivity.
  - reflexivity.
  - repeat constructor; discriminate.
  - repeat constructor; discriminate.
Defined.

(** ** Shapes: where the graph is defined *)

Section Defined.

Context {A B C : Type}.

Lemma zipWithM_defined (f : A -> B -> option C) (P : C -> Prop)
    (la : list A) (lb : list B) :
  length la = length lb ->
  (forall a b, In (a, b) (combine la lb) -> exists c, f a b = Some c /\ P c) ->
  exists lc, zipWithM f la lb = Some lc /\ length lc = length la /\ Forall P lc.
Proof.
  revert lb. induction la as [|a la IH]; intros [|b lb] Hlen Hf; try discriminate.
  - exists []. repeat split. constructor.
  - destruct (Hf a b (or_introl eq_refl)) as (c & Hc & HP).
    destruct (IH lb) as (lc & Hlc & Hl & HPs).
    + simpl in Hlen. lia.
    + intros a' b' Hin. apply Hf. right. exact Hin.
    + exists (c :: lc). simpl. rewrite Hc. cbn [obind]. rewrite Hlc.
      split; [reflexivity|]. split; [simpl; lia | constructor; assumption].
Qed.

Lemma mapM_defined_with (f : A -> option B) (P : B -> Prop) (l : list A) :
  (forall a, In a l -> exists b, f a = Some b /\ P b) ->
  exists lb, mapM f l = Some lb /\ length lb = length l /\ Forall P lb.
Proof.
  induction l as [|a l IH]; intros Hf.
  - exists []. repeat split. constructor.
  - destruct (Hf a (or_introl eq_refl)) as (b & Hb & HP).
    destruct IH as (lb & Hlb & Hl & HPs); [intros; apply Hf; right; assumption|].
    exists (b :: lb). simpl. rewrite Hb. cbn [obind]. rewrite Hlb.
    split; [reflexivity|]. split; [simpl; lia | constructor; assumption].
Qed.

End Defined.

Section CellDefined.

Local Open Scope R_scope.

Lemma zip_total_length {A B C : Type} (h : A -> B -> C) (la : list A) (lb : list B) :
  length la = length lb ->
  exists lc, zipWithM (fun a b => Some (h a b)) la lb = Some lc /\
             length lc = length la.
Proof.
  intros Hlen.
  destruct (zipWithM_defined (fun a b => Some (h a b)) (fun _ => True) la lb Hlen)
    as (lc & Hlc & Hl & _).
  - intros a b _. exists (h a b). split; [reflexivity | exact I].
  - exists lc. split; assumption.
Qed.

Lemma matvec_from_defined (n : nat) (x : T1) :
  forall (W : T2) (acc : T1),
    length acc = n -> length x = length W -> rows_of_width n W ->
    exists y, NN.matvec_from acc x W = Some y /\ length y = n.
Proof.
  induction x as [|xk x IH]; intros [|wk W] acc Hacc Hlen HW; try discriminate.
  - exists acc. split; [reflexivity | exact Hacc].
  - inversion HW as [|? ? Hwk HW']; subst.
    destruct (zip_total_length (fun a w => a + xk * w) acc wk) as (acc' & Hacc' & Hl);
      [lia|].
    cbn [NN.matvec_from]. rewrite Hacc'. cbn [obind].
    apply IH; [lia | simpl in Hlen; lia | exact HW'].
Qed.

Lemma linear_defined (W : T2) (b : T1) (n : nat) (x : T1) :
  length b = n -> length x = length W -> rows_of_width n W ->
  exists y, NN.linear W b n x = Some y /\ length y = n.
Proof.
  intros Hb Hx HW. unfold NN.linear. rewrite Hb, Nat.eqb_refl.
  destruct (matvec_from_defined n x W (repeat 0 n)) as (y & Hy & Hl);
    [apply repeat_length | exact Hx | exact HW |].
  rewrite Hy. cbn [obind]. unfold NN.add1.
  destruct (zip_total_length Rplus y b) as (z & Hz & Hzl); [lia|].
  exists z. split; [exact Hz | lia].
Qed.

Lemma split_row_four (H : nat) (z : T1) :
  length z = (4 * H)%nat ->
  exists i j f o,
    NN.split_row 4 z = Some [i; j; f; o] /\
    length i = H /\ length j = H /\ length f = H /\ length o = H.
Proof.
  intros Hz. unfold NN.split_row. cbn [Nat.eqb]. rewrite Hz.
  replace ((4 * H) mod 4)%nat with 0%nat
    by (symmetry; rewrite Nat.mul_comm; apply Nat.Div0.mod_mul).
  replace ((4 * H) / 4)%nat with H
    by (symmetry; rewrite Nat.mul_comm; apply Nat.div_mul; discriminate).
  cbn [Nat.eqb NN.chunks]. do 4 eexists. split; [reflexivity|].
  repeat rewrite ?length_firstn, ?length_skipn. rewrite Hz. lia.
Qed.

Variable H : nat.
Variable W : T2.
Variable b : T1.
Variable D : nat.

Hypothesis kernel_rows : length W = (D + H)%nat.
Hypothesis kernel_cols : rows_of_width (4 * H) W.
Hypothesis bias_length : length b = (4 * H)%nat.

Lemma BasicLSTMCell_row_defined (x c h : T1) :
  length x = D -> length c = H -> length h = H ->
  exists out c' h',
    NN.BasicLSTMCell_row H W b x (c, h) = Some (out, (c', h')) /\
    length out = H /\ length c' = H /\ length h' = H.
Proof.
  intros Hx Hc Hh. unfold NN.BasicLSTMCell_row.
  destruct (linear_defined W b (4 * H) (x ++ h)) as (z & Hz & Hzl);
    [exact bias_length | rewrite length_app; lia | exact kernel_cols |].
  rewrite Hz. cbn [obind].
  destruct (split_row_four H z Hzl) as (i & j & f & o & Hs & Hi & Hj & Hf & Ho).
  rewrite Hs. cbn [obind].
  destruct (zip_total_length (fun cv fv => cv * NN.sigmoid (fv + 1)) c f)
    as (keep & Hkeep & Hkl); [lia|].
  rewrite Hkeep. cbn [obind].
  destruct (zip_total_length (fun iv jv => NN.sigmoid iv * tanh jv) i j)
    as (write & Hwrite & Hwl); [lia|].
  rewrite Hwrite. cbn [obind]. unfold NN.add1.
  destruct (zip_total_length Rplus keep write) as (new_c & Hnc & Hncl); [lia|].
  rewrite Hnc. cbn [obind].
  destruct (zip_total_length (fun cv ov => tanh cv * NN.sigmoid ov) new_c o)
    as (new_h & Hnh & Hnhl); [lia|].
  rewrite Hnh. cbn [obind].
  exists new_h, new_c, new_h. split; [reflexivity|]. lia.
Qed.

Lemma BasicLSTMCell_defined (X C Hs : T2) :
  rows_of_width D X -> rows_of_width H C -> rows_of_width H Hs ->
  length C = length X -> length Hs = length X ->
  exists O C' H',
    NN.BasicLSTMCell H W b X (C, Hs) = Some (O, (C', H')) /\
    length O = length X /\ length C' = length X /\ length H' = length X /\
    rows_of_width H O /\ rows_of_width H C' /\ rows_of_width H H'.
Proof.
  intros HX HC HHs HlC HlH. unfold NN.BasicLSTMCell. cbn [fst snd].
  rewrite (zipWithM_combine _ (fun c h => (c, h))) by (try lia; intros; reflexivity).
  cbn [obind].
  destruct (zipWithM_defined (NN.BasicLSTMCell_row H W b)
              (fun r => length (fst r) = H /\ length (fst (snd r)) = H /\
                        length (snd (snd r)) = H)
              X (map (fun p => (fst p, snd p)) (combine C Hs)))
    as (rows & Hrows & Hl & Hshape).
  - rewrite length_map, length_combine. lia.
  - intros x [c h] Hin. pose proof (in_combine_l _ _ _ _ Hin) as Hx.
    apply in_combine_r in Hin.
    apply in_map_iff in Hin. destruct Hin as ([c0 h0] & Heq & Hin).
    cbn [fst snd] in Heq. injection Heq as -> ->.
    unfold rows_of_width in HX, HC, HHs. rewrite Forall_forall in HX, HC, HHs.
    destruct (BasicLSTMCell_row_defined x c h (HX x Hx)
                (HC c (in_combine_l _ _ _ _ Hin)) (HHs h (in_combine_r _ _ _ _ Hin)))
      as (out & c' & h' & Hcell & Ho & Hc' & Hh').
    exists (out, (c', h')). split; [exact Hcell|]. cbn [fst snd]. lia.
  - rewrite Hrows. cbn [obind]. do 3 eexists. split; [reflexivity|].
    rewrite !length_map. repeat (split; [lia|]).
    unfold rows_of_width. rewrite !Forall_map.
    repeat split; (eapply Forall_impl; [|exact Hshape]); cbv beta; intros r Hr; tauto.
Qed.

End CellDefined.

Section DropoutDefined.

Local Open Scope R_scope.

Lemma dropout_row_defined (keep_prob : R) (row : T1) (s : Session) :
  exists row' s',
    dropout_row keep_prob row s = Some (row', s') /\
    length row' = length row /\ variables s' = variables s.
Proof.
  unfold dropout_row, mbind, random_uniform, lift.
  destruct (zip_total_length
              (fun x ui => x / keep_prob * NN.floor (keep_prob + ui)) row
              (map (fun k => samples (rng s) (cursor (rng s) + k)) (seq 0 (length row))))
    as (row' & Hrow' & Hl); [rewrite length_map, length_seq; reflexivity|].
  rewrite Hrow'. do 2 eexists. split; [reflexivity|]. split; [exact Hl | reflexivity].
Qed.

Lemma dropout_defined (keep_prob : R) (x : T2) :
  forall s, exists x' s',
    dropout keep_prob x s = Some (x', s') /\
    Forall2 (fun row row' => length row' = length row) x x' /\
    variables s' = variables s.
Proof.
  unfold dropout. induction x as [|row x IH]; intros s.
  - exists [], s. repeat split. constructor.
  - destruct (dropout_row_defined keep_prob row s) as (row' & s1 & Hrow & Hl & Hv).
    destruct (IH s1) as (x' & s2 & Hx & Hshape & Hv2).
    exists (row' :: x'), s2. cbn [mapM_M]. unfold mbind at 1. rewrite Hrow.
    unfold mbind at 1. rewrite Hx. unfold ret.
    split; [reflexivity|]. split; [constructor; assumption | congruence].
Qed.

Lemma maybe_dropout_defined (keep_prob : R) (x : T2) (s : Session) :
  exists x' s',
    maybe_dropout keep_prob x s = Some (x', s') /\
    Forall2 (fun row row' => length row' = length row) x x' /\
    variables s' = variables s.
Proof.
  unfold maybe_dropout. destruct (Rlt_dec keep_prob 1).
  - apply dropout_defined.
  - exists x, s. split; [reflexivity|]. split; [|reflexivity].
    induction x; constructor; auto.
Qed.

End DropoutDefined.

Lemma same_widths (n : nat) (x x' : T2) :
  Forall2 (fun row row' : T1 => length row' = length row) x x' ->
  rows_of_width n x -> rows_of_width n x' /\ length x' = length x.
Proof.
  induction 1 as [|row row' x x' Hr _ IH]; intros Hx.
  - split; [constructor | reflexivity].
  - inversion Hx; subst. destruct (IH ltac:(assumption)) as (Hw & Hl).
    split; [constructor; [lia | exact Hw] | simpl; lia].
Qed.

Section LoopDefined.

Variable config : ModelConfig.
Variable vars : Variables.

Let E := embedding_size config.
Let H := num_lstm_units config.

Hypothesis shapes : well_shaped_variables config vars.

Lemma lstm_cell_defined (mode : Mode) (X C Hs : T2) (s : Session) :
  variables s = vars ->
  rows_of_width (2 * E) X -> rows_of_width H C -> rows_of_width H Hs ->
  length C = length X -> length Hs = length X ->
  exists O C' H' s',
    lstm_cell config mode X (C, Hs) s = Some ((O, (C', H')), s') /\
    variables s' = vars /\
    length O = length X /\ length C' = length X /\ length H' = length X /\
    rows_of_width H O /\ rows_of_width H C' /\ rows_of_width H H'.
Proof.
  intros Hv HX HC HHs HlC HlH.
  destruct shapes as (_ & _ & Hk & Hkc & Hb & _).
  assert (Hbasic : forall X1 s1, variables s1 = vars ->
            rows_of_width (2 * E) X1 -> length X1 = length X ->
            exists O C' H',
              basic_lstm_cell config X1 (C, Hs) s1 = Some ((O, (C', H')), s1) /\
              length O = length X /\ length C' = length X /\ length H' = length X /\
              rows_of_width H O /\ rows_of_width H C' /\ rows_of_width H H').
  { intros X1 s1 Hv1 HX1 Hl1.
    destruct (BasicLSTMCell_defined H (lstm_kernel vars) (lstm_bias vars) (2 * E)
                Hk Hkc Hb X1 C Hs HX1 HC HHs ltac:(lia) ltac:(lia))
      as (O & C' & H' & Hcell & HlO & HlC' & HlH' & Hshape).
    exists O, C', H'. unfold basic_lstm_cell, mbind, get_variables, lift.
    rewrite Hv1. fold H. rewrite Hcell. split; [reflexivity|].
    repeat split; try lia; apply Hshape. }
  destruct mode.
  - unfold lstm_cell.
    destruct (maybe_dropout_defined (lstm_dropout_keep_prob config) X s)
      as (X1 & s1 & HX1 & Hsame & Hv1).
    destruct (same_widths _ _ _ Hsame HX) as (HX1w & HX1l).
    destruct (Hbasic X1 s1 ltac:(congruence) HX1w HX1l)
      as (O & C' & H' & Hcell & HlO & HlC' & HlH' & HO & HC' & HH').
    destruct (maybe_dropout_defined (lstm_dropout_keep_prob config) O s1)
      as (O1 & s2 & HO1 & Hsame' & Hv2).
    destruct (same_widths _ _ _ Hsame' HO) as (HO1w & HO1l).
    exists O1, C', H', s2. unfold mbind at 1. rewrite HX1.
    unfold mbind at 1. rewrite Hcell. unfold mbind. rewrite HO1. unfold ret.
    split; [reflexivity|]. repeat split; try assumption; try lia; congruence.
  - destruct (Hbasic X s Hv HX eq_refl) as (O & C' & H' & Hcell & Hrest).
    exists O, C', H', s. split; [exact Hcell|]. split; [exact Hv | exact Hrest].
  - destruct (Hbasic X s Hv HX eq_refl) as (O & C' & H' & Hcell & Hrest).
    exists O, C', H', s. split; [exact Hcell|]. split; [exact Hv | exact Hrest].
Qed.

Lemma where_rows_defined (cond : list bool) (A B : T2) :
  length A = length cond -> length B = length cond ->
  exists R, NN.where_rows cond A B = Some R.
Proof.
  intros HA HB. unfold NN.where_rows.
  rewrite (zipWithM_combine _ (fun x y => (x, y))) by (try lia; intros; reflexivity).
  cbn [obind].
  destruct (zip_total_length (fun (c : bool) (p : T1 * T1) => if c then fst p else snd p)
              cond (map (fun p => (fst p, snd p)) (combine A B)))
    as (R & HR & _).
  - rewrite length_map, length_combine. lia.
  - exists R. exact HR.
Qed.

Lemma rnn_loop_defined (mode : Mode) (batch : nat) (seqlen : list Z) (zero : T2)
    (inputs : list T2) :
  length seqlen = batch -> length zero = batch -> rows_of_width H zero ->
  Forall (fun X => length X = batch /\ rows_of_width (2 * E) X) inputs ->
  forall time C Hs s,
    variables s = vars ->
    length C = batch -> length Hs = batch ->
    rows_of_width H C -> rows_of_width H Hs ->
    exists outs fin s',
      rnn_loop (lstm_cell config mode) inputs time seqlen zero (C, Hs) s
      = Some ((outs, fin), s') /\
      variables s' = vars /\ length outs = length inputs /\
      Forall (fun O => length O = batch /\ rows_of_width H O) outs.
Proof.
  intros Hsl Hzl Hzw. induction 1 as [|X inputs (HXl & HXw) _ IH];
    intros time C Hs s Hv HCl HHl HCw HHw.
  - exists [], (C, Hs), s. repeat split; [assumption | constructor].
  - destruct (lstm_cell_defined mode X C Hs s Hv HXw HCw HHw ltac:(lia) ltac:(lia))
      as (O & C1 & H1 & s1 & Hcell & Hv1 & HlO & HlC1 & HlH1 & HO & HC1 & HH1).
    set (cond := map (fun len => (len <=? Z.of_nat time)%Z) seqlen).
    assert (Hcl : length cond = batch) by (unfold cond; rewrite length_map; exact Hsl).
    destruct (where_rows_defined cond zero O) as (Out & HOut); [lia | lia |].
    destruct (where_rows_defined cond C C1) as (Cn & HCn); [lia | lia |].
    destruct (where_rows_defined cond Hs H1) as (Hn & HHn); [lia | lia |].
    pose proof (where_rows_length _ _ _ _ HOut) as (HlOut & _).
    pose proof (where_rows_length _ _ _ _ HCn) as (HlCn & _).
    pose proof (where_rows_length _ _ _ _ HHn) as (HlHn & _).
    destruct (IH (S time) Cn Hn s1 Hv1 ltac:(lia) ltac:(lia)
                (where_rows_Forall _ _ _ _ _ HCn HCw HC1)
                (where_rows_Forall _ _ _ _ _ HHn HHw HH1))
      as (outs & fin & s2 & Hrest & Hv2 & Hlo & Hshape).
    exists (Out :: outs), fin, s2.
    cbn [rnn_loop]. unfold mbind at 1. rewrite Hcell. cbn [fst snd].
    fold cond. unfold mbind at 1. unfold lift at 1. rewrite HOut.
    unfold mbind at 1. unfold lift at 1. rewrite HCn.
    unfold mbind at 1. unfold lift at 1. rewrite HHn.
    unfold mbind. rewrite Hrest. unfold ret.
    split; [reflexivity|]. split; [exact Hv2|]. split; [simpl; lia|].
    constructor; [|exact Hshape].
    split; [lia|]. apply (where_rows_Forall _ _ _ _ _ HOut Hzw HO).
Qed.

End LoopDefined.

Lemma swap01_defined (extent : nat) (t : T3) :
  Forall (fun m => length m = extent) t ->
  exists r, NN.swap01 extent t = Some r.
Proof.
  intros Hrect. unfold NN.swap01.
  replace (forallb _ t) with true.
  2:{ symmetry. apply forallb_forall. intros m Hm. apply Nat.eqb_eq.
      rewrite Forall_forall in Hrect. apply Hrect, Hm. }
  apply mapM_defined. intros k Hk. apply in_seq in Hk.
  destruct (mapM_defined (fun m : T2 => nth_error m k) t) as (row & Hrow).
  - intros m Hm. rewrite Forall_forall in Hrect. apply nth_error_Some.
    rewrite (Hrect m Hm). lia.
  - congruence.
Qed.

Lemma swap01_Forall (P : T1 -> Prop) (extent : nat) (t r : T3) :
  NN.swap01 extent t = Some r -> Forall (Forall P) t -> Forall (Forall P) r.
Proof.
  intros Hswap HP.
  destruct (swap01_entries _ _ _ Hswap) as (_ & _ & Hwide & Hent).
  apply Forall_forall. intros row Hrow. apply Forall_forall. intros x Hx.
  apply In_nth_error in Hrow. destruct Hrow as (k & Hk).
  apply In_nth_error in Hx. destruct Hx as (i & Hi).
  rewrite Forall_forall in Hwide.
  assert (Hilt : (i < length t)%nat).
  { rewrite <- (Hwide _ (nth_error_In _ _ Hk)). apply nth_error_Some. congruence. }
  destruct (nth_error t i) as [m|] eqn:Hm; [|apply nth_error_None in Hm; lia].
  destruct (Hent k i m row Hk Hm) as (x' & Hx' & Hx'').
  rewrite Hi in Hx''. injection Hx'' as <-.
  rewrite Forall_forall in HP. specialize (HP m (nth_error_In _ _ Hm)).
  rewrite Forall_forall in HP. apply HP. eapply nth_error_In; eassumption.
Qed.

Lemma length_concat_uniform {A : Type} (T : nat) (ll : list (list A)) :
  Forall (fun l => length l = T) ll -> length (concat ll) = (length ll * T)%nat.
Proof.
  induction 1 as [|l ll Hl _ IH]; simpl; [reflexivity|].
  rewrite length_app, IH, Hl. reflexivity.
Qed.

Lemma uniform_shape1 {A : Type} (T : nat) (t : list (list A)) :
  Forall (fun m => length m = T) t ->
  Forall (fun m => length m = NN.shape1 t) t /\ (length t * NN.shape1 t = length t * T)%nat.
Proof.
  intros H. destruct t as [|m t]; [split; [constructor | reflexivity]|].
  inversion H; subst. split; [|reflexivity]. simpl NN.shape1.
  eapply Forall_impl; [|exact H]. cbv beta. intros; lia.
Qed.

Lemma repeat_rows (n batch : nat) :
  rows_of_width n (repeat (repeat 0%R n) batch).
Proof.
  apply Forall_forall. intros row Hrow. apply repeat_spec in Hrow. subst row.
  apply repeat_length.
Qed.

Section GraphDefined.

Variable config : ModelConfig.
Variable vars : Variables.

Let E := embedding_size config.
Let H := num_lstm_units config.
Let V := vocab_size config.

Hypothesis shapes : well_shaped_variables config vars.

Lemma lookup_row_defined (token : Z) :
  (0 <= token < Z.of_nat V)%Z ->
  exists e, NN.lookup_row (embedding_map vars) token = Some e /\ length e = E.
Proof.
  intros Htok. destruct shapes as (Hlen & Hrows & _).
  unfold NN.lookup_row. destruct (Z.ltb_spec token 0); [lia|].
  destruct (nth_error (embedding_map vars) (Z.to_nat token)) as [e|] eqn:He.
  - exists e. split; [reflexivity|].
    unfold rows_of_width in Hrows. rewrite Forall_forall in Hrows.
    apply Hrows. eapply nth_error_In; eassumption.
  - apply nth_error_None in He. fold V in Hlen. lia.
Qed.

Lemma embedding_lookup_defined (T : nat) (ids : list (list Z)) :
  Forall (fun row => length row = T) ids ->
  tokens_in_vocabulary config ids ->
  exists SE, NN.embedding_lookup (embedding_map vars) ids = Some SE /\
             length SE = length ids /\
             Forall (fun m => length m = T /\ rows_of_width E m) SE.
Proof.
  intros HT Htok. unfold NN.embedding_lookup.
  apply mapM_defined_with. intros row Hrow.
  rewrite Forall_forall in HT. unfold tokens_in_vocabulary in Htok.
  rewrite Forall_forall in Htok. specialize (Htok row Hrow).
  destruct (mapM_defined_with (NN.lookup_row (embedding_map vars))
              (fun e => length e = E) row) as (m & Hm & Hl & Hw).
  - intros token Hin. rewrite Forall_forall in Htok.
    apply lookup_row_defined, Htok, Hin.
  - exists m. split; [exact Hm|]. split; [rewrite Hl; apply HT, Hrow | exact Hw].
Qed.

Lemma dynamic_rnn_defined (mode : Mode) (batch T : nat) (inputs : T3)
    (seqlen : list Z) (C Hs : T2) (s : Session) :
  variables s = vars ->
  length inputs = batch ->
  Forall (fun m => length m = T /\ rows_of_width (2 * E) m) inputs ->
  length seqlen = batch ->
  length C = batch -> length Hs = batch ->
  rows_of_width H C -> rows_of_width H Hs ->
  exists outputs fin s',
    dynamic_rnn config (lstm_cell config mode) inputs seqlen (C, Hs) s
    = Some ((outputs, fin), s') /\
    variables s' = vars /\ length outputs = batch /\
    Forall (fun m => length m = NN.shape1 inputs) outputs /\
    Forall (Forall (fun row => length row = H)) outputs.
Proof.
  intros Hv Hlen Hin Hsl HlC HlH HCw HHw.
  assert (HinT : Forall (fun m : T2 => length m = T) inputs)
    by (eapply Forall_impl; [|exact Hin]; cbv beta; tauto).
  assert (HinW : Forall (Forall (fun row : T1 => length row = (2 * E)%nat)) inputs)
    by (eapply Forall_impl; [|exact Hin]; cbv beta; tauto).
  destruct (uniform_shape1 T inputs HinT) as (Hrect & _).
  destruct (swap01_defined _ _ Hrect) as (inputs_tm & Hswap_in).
  destruct (swap01_entries _ _ _ Hswap_in) as (Hlen_in & _ & Hwide_in & _).
  pose proof (swap01_Forall _ _ _ _ Hswap_in HinW) as Hin_w.
  assert (Htm : Forall (fun X => length X = batch /\ rows_of_width (2 * E) X) inputs_tm).
  { apply Forall_forall. intros X HX. rewrite Forall_forall in Hwide_in, Hin_w.
    split; [rewrite (Hwide_in X HX); exact Hlen | apply Hin_w, HX]. }
  destruct (rnn_loop_defined config vars shapes mode batch seqlen
              (repeat (repeat 0%R H) batch) inputs_tm Hsl
              (repeat_length _ _) (repeat_rows H batch) Htm 0%nat C Hs s Hv HlC HlH HCw HHw)
    as (outs & fin & s' & Hloop & Hv' & Hlo & Hshape).
  assert (Hob : Forall (fun m : T2 => length m = batch) outs)
    by (eapply Forall_impl; [|exact Hshape]; cbv beta; tauto).
  assert (How : Forall (Forall (fun row : T1 => length row = H)) outs)
    by (eapply Forall_impl; [|exact Hshape]; cbv beta; tauto).
  destruct (swap01_defined _ _ Hob) as (outputs & Hswap_out).
  destruct (swap01_entries _ _ _ Hswap_out) as (Hlen_out & _ & Hwide_out & _).
  exists outputs, fin, s'.
  unfold dynamic_rnn. unfold mbind at 1. unfold lift at 1. rewrite Hswap_in.
  unfold mbind at 1. unfold lift at 1. rewrite Hsl, Hlen, Nat.eqb_refl.
  unfold mbind at 1. fold H. rewrite Hloop.
  unfold mbind, lift, ret. rewrite Hswap_out.
  split; [reflexivity|]. split; [exact Hv'|]. split; [exact Hlen_out|].
  split.
  - eapply Forall_impl; [|exact Hwide_out]. cbv beta. intros m Hm. lia.
  - apply (swap01_Forall _ _ _ _ Hswap_out How).
Qed.

End GraphDefined.

Lemma Forall_combine_rows {A B C : Type} (P : C -> Prop) (h : A -> B -> C)
    (la : list A) (lb : list B) :
  (forall a b, In a la -> In b lb -> P (h a b)) ->
  Forall P (map (fun p => h (fst p) (snd p)) (combine la lb)).
Proof.
  intros HP. apply Forall_forall. intros c Hc.
  apply in_map_iff in Hc. destruct Hc as ([a b] & <- & Hin).
  apply HP; [eapply in_combine_l | eapply in_combine_r]; eassumption.
Qed.

Section UnrolledDefined.

Variable config : ModelConfig.

Let E := embedding_size config.
Let H := num_lstm_units config.
Let V := vocab_size config.

Lemma project_logits_defined (rows : T2) (s : Session) :
  well_shaped_variables config (variables s) ->
  rows_of_width H rows ->
  exists lg, project_logits config rows s = Some (lg, s) /\
             length lg = length rows /\ rows_of_width V lg.
Proof.
  intros (_ & _ & _ & _ & _ & HlW & HW & Hb) Hrows.
  unfold project_logits, mbind, get_variables, lift, NN.fully_connected.
  destruct (mapM_defined_with
              (NN.linear (logits_weights (variables s)) (logits_biases (variables s))
                 (vocab_size config))
              (fun y => length y = V) rows) as (lg & Hlg & Hl & Hw).
  - intros x Hx. unfold rows_of_width in Hrows. rewrite Forall_forall in Hrows.
    apply linear_defined; [exact Hb | rewrite (Hrows x Hx); symmetry; exact HlW | exact HW].
  - rewrite Hlg. exists lg. split; [reflexivity|]. split; assumption.
Qed.

Lemma unrolled_logits_defined (mode : Mode) (feeds : Feeds) (s : Session) (B T : nat) :
  mode <> inference -> H <> 0%nat ->
  well_shaped_variables config (variables s) ->
  well_shaped_batch config B T feeds ->
  exists with_aspect seq_with_aspect lg s',
    unrolled_logits config mode feeds s
    = Some ((with_aspect, seq_with_aspect, lg), s') /\
    variables s' = variables s /\
    length lg = (B * T)%nat /\ rows_of_width V lg.
Proof.
  intros Hmode HH Hvars Hbatch.
  destruct Hbatch as (HlI & HwI & HlR & HwR & HlS & HTS & HtokS & _ & _ & _ & HlM & HTM).
  fold E in HwI, HwR.
  destruct (embedding_lookup_defined config (variables s) Hvars T (input_seqs feeds)
              HTS HtokS) as (SE & HSE & HlSE & HSEshape).
  fold E in HSEshape.
  assert (HSET : Forall (fun m : T2 => length m = T) SE)
    by (eapply Forall_impl; [|exact HSEshape]; cbv beta; tauto).
  (* the fused contexts *)
  set (WA := map (fun p => fst p ++ snd p)
                 (combine (image_embeddings feeds) (region_aspect_embeddings feeds))).
  set (SA := map (fun p : T2 * T1 => map (fun w => w ++ snd p) (fst p))
                 (combine SE (image_embeddings feeds))).
  assert (Hfuse : process_lstm_input mode (image_embeddings feeds)
                    (region_aspect_embeddings feeds) SE = Some (WA, SA))
    by (apply (process_lstm_input_unrolled mode T); [exact Hmode | lia | lia | exact HSET]).
  assert (HWAl : length WA = B)
    by (unfold WA; rewrite length_map, length_combine; lia).
  assert (HWAw : rows_of_width (2 * E) WA).
  { unfold WA. apply (Forall_combine_rows _ (fun g r : T1 => g ++ r)).
    intros g r Hg Hr. unfold rows_of_width in HwI, HwR.
    rewrite Forall_forall in HwI, HwR. rewrite length_app, (HwI g Hg), (HwR r Hr). lia. }
  assert (HSAl : length SA = B)
    by (unfold SA; rewrite length_map, length_combine; lia).
  assert (HSAshape : Forall (fun m => length m = T /\ rows_of_width (2 * E) m) SA).
  { unfold SA.
    apply (Forall_combine_rows _ (fun (m : T2) (g : T1) => map (fun w => w ++ g) m)).
    intros m g Hm Hg. rewrite Forall_forall in HSEshape.
    destruct (HSEshape m Hm) as (HmT & Hmw).
    split; [rewrite length_map; exact HmT|].
    unfold rows_of_width in *. rewrite Forall_map.
    eapply Forall_impl; [|exact Hmw]. cbv beta. intros w Hw.
    rewrite Forall_forall in HwI. rewrite length_app, Hw, (HwI g Hg). lia. }
  (* the seed *)
  destruct (lstm_cell_defined config (variables s) Hvars mode WA
              (repeat (repeat 0%R H) B) (repeat (repeat 0%R H) B) s eq_refl HWAw
              (repeat_rows H B) (repeat_rows H B)
              ltac:(rewrite repeat_length; lia) ltac:(rewrite repeat_length; lia))
    as (O0 & C0 & H0 & s0 & Hseed & Hv0 & _ & HlC0 & HlH0 & _ & HC0 & HH0).
  (* the loop *)
  destruct (dynamic_rnn_defined config (variables s) Hvars mode B T SA
              (NN.reduce_sum_rows (input_mask feeds)) C0 H0 s0 Hv0 HSAl HSAshape)
    as (outputs & fin & s1 & Hdyn & Hv1 & Hlo & Hot & How);
    try lia; try assumption.
  { unfold NN.reduce_sum_rows. rewrite length_map. exact HlM. }
  pose proof (reshape_rows_concat H outputs HH How) as Hresh.
  assert (Hrows : rows_of_width H (concat outputs))
    by (apply concat_rows_uniform; exact How).
  destruct (project_logits_defined (concat outputs) s1 ltac:(rewrite Hv1; exact Hvars)
              Hrows) as (lg & Hlg & Hll & Hlw).
  exists WA, SA, lg, s1.
  unfold unrolled_logits. unfold mbind at 1.
  unfold build_seq_embeddings, mbind at 1, get_variables, lift at 1.
  rewrite HSE. unfold mbind at 1. unfold lift at 1. rewrite Hfuse.
  unfold mbind at 1. unfold seed_state, NN.zero_state. unfold mbind at 1.
  fold H. rewrite HlI, Hseed. unfold ret at 1.
  unfold mbind at 1. rewrite Hdyn.
  unfold mbind at 1. unfold lift at 1. rewrite Hresh.
  unfold mbind. rewrite Hlg. unfold ret.
  split; [reflexivity|]. split; [exact Hv1|]. split; [|exact Hlw].
  rewrite Hll, (length_concat_uniform _ _ Hot), Hlo.
  assert (HSAT : Forall (fun m : T2 => length m = T) SA)
    by (eapply Forall_impl; [|exact HSAshape]; cbv beta; tauto).
  destruct (uniform_shape1 T SA HSAT) as (_ & Heq). rewrite HSAl in Heq. exact Heq.
Qed.

Lemma build_model_unrolled_defined (mode : Mode) (feeds : Feeds) (s : Session) (B T : nat) :
  mode <> inference -> H <> 0%nat ->
  well_shaped_variables config (variables s) ->
  well_shaped_batch config B T feeds ->
  exists out s' losses l,
    build_model config mode feeds s = Some (out, s') /\
    variables s' = variables s /\
    length (logits out) = (B * T)%nat /\ rows_of_width V (logits out) /\
    target_cross_entropy_losses out = Some losses /\
    length losses = (B * T)%nat /\
    target_cross_entropy_loss_weights out
    = Some (map IZR (concat (input_mask feeds))) /\
    batch_loss out = Some l.
Proof.
  intros Hmode HH Hvars Hbatch.
  destruct (unrolled_logits_defined mode feeds s B T Hmode HH Hvars Hbatch)
    as (WA & SA & lg & s' & Hlog & Hv & Hll & Hlw).
  destruct Hbatch as (_ & _ & _ & _ & _ & _ & _ & HlT & HTT & HtokT & HlM & HTM).
  rewrite build_model_unrolled by exact Hmode. rewrite Hlog.
  unfold loss_head, weighted_losses, NN.sparse_softmax_cross_entropy_with_logits.
  destruct (zipWithM_defined NN.xent_row (fun _ => True)
              (concat (target_seqs feeds)) lg) as (losses & Hlosses & Hlen & _).
  { rewrite (length_concat_uniform _ _ HTT), HlT, Hll. reflexivity. }
  { intros label row Hin.
    destruct (xent_row_valid label row) as (l & Hl).
    - unfold rows_of_width in Hlw. rewrite Forall_forall in Hlw.
      rewrite (Hlw row (in_combine_r _ _ _ _ Hin)).
      apply in_combine_l in Hin. apply in_concat in Hin.
      destruct Hin as (seq & Hseq & Hlabel).
      unfold tokens_in_vocabulary in HtokT. rewrite Forall_forall in HtokT.
      specialize (HtokT seq Hseq). rewrite Forall_forall in HtokT.
      apply HtokT, Hlabel.
    - exists l. split; [exact Hl | exact I]. }
  rewrite Hlosses. cbn [obind]. unfold NN.multiply1.
  destruct (zip_total_length Rmult losses (map IZR (concat (input_mask feeds))))
    as (weighted & Hweighted & _).
  { rewrite Hlen, length_map, !(length_concat_uniform T) by assumption. lia. }
  rewrite Hweighted. cbn [obind option_map].
  do 4 eexists. split; [reflexivity|]. cbn [logits target_cross_entropy_losses
    target_cross_entropy_loss_weights batch_loss].
  split; [exact Hv|]. split; [exact Hll|]. split; [exact Hlw|].
  split; [reflexivity|]. split.
  - rewrite Hlen, (length_concat_uniform _ _ HTT), HlT. reflexivity.
  - split; reflexivity.
Qed.

End UnrolledDefined.

(** X3: a batch of the documented shapes (image and region embeddings
    [batch, embedding_size]; input tokens, target tokens and mask
    [batch, padded_length]; every token in the vocabulary), run in train or
    eval mode on variables of the shapes the graph creates them with and
    a keep probability in (0, 1], never fails: it returns
    [batch * padded_length] rows of [vocab_size] logits, as many per-token
    losses and weights, and a batch loss; the variables are left as they
    were. *)
Theorem unrolled_run_is_defined (config : ModelConfig) (mode : Mode)
    (feeds : Feeds) (s : Session) (B T : nat) :
  mode <> inference ->
  num_lstm_units config <> 0%nat ->
  (0 < lstm_dropout_keep_prob config <= 1)%R ->
  well_shaped_variables config (variables s) ->
  well_shaped_batch config B T feeds ->
  exists out s' losses l,
    build_model config mode feeds s = Some (out, s') /\
    variables s' = variables s /\
    length (logits out) = (B * T)%nat /\
    rows_of_width (vocab_size config) (logits out) /\
    target_cross_entropy_losses out = Some losses /\
    length losses = (B * T)%nat /\
    target_cross_entropy_loss_weights out
    = Some (map IZR (concat (input_mask feeds))) /\
    batch_loss out = Some l.
Proof.
  intros Hmode Hunits _ Hvars Hbatch.
  apply (build_model_unrolled_defined config mode feeds s B T Hmode Hunits
           Hvars Hbatch).
Qed.

Lemma tiny_variables_well_shaped :
  well_shaped_variables tiny_config (variables tiny_session).
Proof. unfold well_shaped_variables, rows_of_width. simpl. repeat constructor. Qed.

Lemma unrolled_run_is_defined_witness :
  exists out s' losses l,
    build_model tiny_config train tiny_feeds tiny_session = Some (out, s') /\
    variables s' = variables tiny_session /\
    length (logits out) = (1 * 2)%nat /\
    rows_of_width (vocab_size tiny_config) (logits out) /\
    target_cross_entropy_losses out = Some losses /\
    length losses = (1 * 2)%nat /\
    target_cross_entropy_loss_weights out
    = Some (map IZR (concat (input_mask tiny_feeds))) /\
    batch_loss out = Some l.
Proof.
  apply (unrolled_run_is_defined tiny_config train tiny_feeds tiny_session 1 2).
  - discriminate.
  - discriminate.
  - simpl. lra.
  - exact tiny_variables_well_shaped.
  - unfold well_shaped_batch, tokens_in_vocabulary, rows_of_width. simpl.
    repeat split; repeat constructor; lia.
Defined.

Lemma concat1_pair_defined (n m : nat) (a b : T2) :
  length a = length b -> rows_of_width n a -> rows_of_width m b ->
  exists r, NN.concat1 [a; b] = Some r /\ length r = length a /\
            rows_of_width (n + m) r.
Proof.
  intros Hl Ha Hb. unfold NN.concat1, NN.concat1_from, NN.concat1_pair.
  rewrite (zipWithM_combine _ (fun x y => x ++ y)) by (try lia; intros; reflexivity).
  cbn [obind]. eexists. split; [reflexivity|].
  split; [rewrite length_map, length_combine; lia|].
  apply (Forall_combine_rows _ (fun x y : T1 => x ++ y)).
  intros x y Hx Hy. unfold rows_of_width in Ha, Hb. rewrite Forall_forall in Ha, Hb.
  rewrite length_app, (Ha x Hx), (Hb y Hy). reflexivity.
Qed.

Section StepwiseDefined.

Variable config : ModelConfig.

Let E := embedding_size config.
Let H := num_lstm_units config.
Let V := vocab_size config.

Lemma stepwise_call_defined (image region : T1) (input_feed : list Z)
    (fed : T2) (s : Session) :
  H <> 0%nat ->
  well_shaped_variables config (variables s) ->
  length image = E -> length region = E ->
  Forall (fun token => (0 <= token < Z.of_nat V)%Z) input_feed ->
  length fed = length input_feed ->
  rows_of_width (2 * H) fed ->
  exists out init new_state sm,
    build_model config inference
      (stepwise_feeds image region input_feed fed) s = Some (out, s) /\
    initial_state out = Some init /\
    length init = 1%nat /\ rows_of_width (2 * H) init /\
    state out = Some new_state /\
    length new_state = length input_feed /\ rows_of_width (2 * H) new_state /\
    length (logits out) = length input_feed /\ rows_of_width V (logits out) /\
    softmax out = Some sm /\
    length sm = length input_feed /\ rows_of_width V sm.
Proof.
  intros HH Hvars Hi Hr Htok Hsl Hsw.
  set (n := length input_feed) in *.
  (* the embeddings *)
  destruct (embedding_lookup_defined config (variables s) Hvars 1
              (map (fun token => [token]) input_feed))
    as (SE & HSE & HlSE & HSEshape).
  { rewrite Forall_map. apply Forall_forall. intros; reflexivity. }
  { unfold tokens_in_vocabulary. rewrite Forall_map.
    eapply Forall_impl; [|exact Htok]. cbv beta. intros token Ht.
    constructor; [exact Ht | constructor]. }
  fold E in HSEshape. rewrite length_map in HlSE. fold n in HlSE.
  assert (HSE1 : Forall (fun m : T2 => length m = 1%nat) SE)
    by (eapply Forall_impl; [|exact HSEshape]; cbv beta; tauto).
  pose proof (process_lstm_input_stepwise image region SE HSE1) as Hfuse.
  (* the seed *)
  destruct (lstm_cell_defined config (variables s) Hvars inference [image ++ region]
              (repeat (repeat 0%R H) 1) (repeat (repeat 0%R H) 1) s eq_refl)
    as (O0 & C0 & H0 & s0 & Hseed & Hv0 & _ & HlC0 & HlH0 & _ & HC0 & HH0);
    try apply repeat_rows; try reflexivity.
  { repeat constructor. rewrite length_app. fold E. lia. }
  assert (Hs0 : s0 = s).
  { rewrite lstm_cell_without_dropout in Hseed by discriminate.
    destruct (NN.BasicLSTMCell _ _ _ _ _); [|discriminate].
    cbn [option_map] in Hseed. congruence. }
  subst s0.
  destruct (concat1_pair_defined H H C0 H0) as (init & Hinit & Hlinit & Hwinit);
    [simpl in *; lia | exact HC0 | exact HH0 |].
  (* the fed state *)
  pose proof (placeholder_accepts H fed Hsw) as Hplace.
  pose proof (split1_halves H fed Hsw) as Hsplit.
  (* the inputs of the step *)
  assert (Hsq : NN.squeeze1 (map (map (fun w => w ++ image)) SE)
                = Some (map (fun m => hd [] (map (fun w => w ++ image) m)) SE)).
  { unfold NN.squeeze1.
    apply (mapM_map_Some (map (fun w => w ++ image))). intros m Hm.
    rewrite Forall_forall in HSE1. specialize (HSE1 m Hm).
    destruct m as [|w [|w' m]]; try discriminate. reflexivity. }
  set (X := map (fun m => hd [] (map (fun w => w ++ image) m)) SE) in *.
  assert (HXl : length X = n) by (unfold X; rewrite length_map; exact HlSE).
  assert (HXw : rows_of_width (2 * E) X).
  { unfold X, rows_of_width. rewrite Forall_map.
    eapply Forall_impl; [|exact HSEshape]. cbv beta. intros m (Hm1 & Hmw).
    destruct m as [|w [|w' m]]; try discriminate. cbn [map hd].
    inversion Hmw; subst. rewrite length_app. lia. }
  destruct (lstm_cell_defined config (variables s) Hvars inference X
              (map (firstn H) fed) (map (skipn H) fed) s eq_refl HXw)
    as (O & C1 & H1 & s1 & Hcell & Hv1 & HlO & HlC1 & HlH1 & HO & HC1 & HH1).
  { unfold rows_of_width. rewrite Forall_map.
    eapply Forall_impl; [|exact Hsw]. cbv beta. intros row Hrow.
    rewrite length_firstn. lia. }
  { unfold rows_of_width. rewrite Forall_map.
    eapply Forall_impl; [|exact Hsw]. cbv beta. intros row Hrow.
    rewrite length_skipn. lia. }
  { rewrite length_map. lia. }
  { rewrite length_map. lia. }
  assert (Hs1 : s1 = s).
  { rewrite lstm_cell_without_dropout in Hcell by discriminate.
    destruct (NN.BasicLSTMCell _ _ _ _ _); [|discriminate].
    cbn [option_map] in Hcell. congruence. }
  subst s1.
  destruct (concat1_pair_defined H H C1 H1) as (st & Hst & Hlst & Hwst);
    [lia | exact HC1 | exact HH1 |].
  pose proof (reshape_rows_concat H [O] HH ltac:(constructor; [exact HO | constructor]))
    as Hresh.
  cbn [concat] in Hresh. rewrite app_nil_r in Hresh.
  destruct (project_logits_defined config O s Hvars HO) as (lg & Hlg & Hll & Hlw).
  exists {| image_embeddings_with_aspect := [image ++ region];
            seq_embeddings_with_aspect := map (map (fun w => w ++ image)) SE;
            logits := lg;
            initial_state := Some init;
            state := Some st;
            softmax := Some (NN.softmax lg);
            batch_loss := None;
            target_cross_entropy_losses := None;
            target_cross_entropy_loss_weights := None |}, init, st, (NN.softmax lg).
  cbn [logits initial_state state softmax].
  split.
  - unfold build_model, stepwise_feeds.
    cbn [input_seqs image_embeddings region_aspect_embeddings state_feed].
    unfold mbind at 1.
    unfold build_seq_embeddings, mbind at 1, get_variables, lift at 1.
    rewrite HSE. unfold mbind at 1. unfold lift at 1. rewrite Hfuse.
    unfold mbind at 1. unfold seed_state, NN.zero_state. unfold mbind at 1.
    cbn [length]. fold H. rewrite Hseed. unfold ret at 1. cbn [fst snd].
    unfold mbind at 1. unfold lift at 1. rewrite Hinit.
    unfold mbind at 1. unfold lift at 1. rewrite Hplace.
    unfold mbind at 1. unfold lift at 1. rewrite Hsplit.
    unfold mbind at 1. unfold lift at 1. rewrite Hsq.
    unfold mbind at 1. rewrite Hcell. cbn [fst snd].
    unfold mbind at 1. unfold lift at 1. rewrite Hst.
    unfold mbind at 1. unfold lift at 1. rewrite Hresh.
    unfold mbind. rewrite Hlg. reflexivity.
  - repeat split; try reflexivity; try assumption; try lia.
    + simpl in *. lia.
    + replace (2 * H)%nat with (H + H)%nat by lia. exact Hwinit.
    + replace (2 * H)%nat with (H + H)%nat by lia. exact Hwst.
    + unfold NN.softmax. rewrite length_map. lia.
    + unfold NN.softmax, rows_of_width. rewrite Forall_map.
      eapply Forall_impl; [|exact Hlw]. cbv beta. intros row Hrow.
      unfold NN.softmax_row. rewrite length_map. exact Hrow.
Qed.

End StepwiseDefined.

(** X4: one call in inference mode on one image and any number of
    hypotheses, each with a token of the vocabulary and a state vector of
    length [2 * num_lstm_units], never fails and leaves the session as it
    was.  It returns the initial state of the image (one vector of length
    [2 * num_lstm_units]) and, per hypothesis, a new state vector of that
    length (so that it can be fed to the next call), [vocab_size] logits
    and [vocab_size] softmax entries. *)
Theorem stepwise_call_is_defined (config : ModelConfig) (image region : T1)
    (input_feed : list Z) (fed : T2) (s : Session) :
  num_lstm_units config <> 0%nat ->
  well_shaped_variables config (variables s) ->
  length image = embedding_size config ->
  length region = embedding_size config ->
  Forall (fun token => (0 <= token < Z.of_nat (vocab_size config))%Z) input_feed ->
  length fed = length input_feed ->
  rows_of_width (2 * num_lstm_units config) fed ->
  exists out init new_state sm,
    build_model config inference (stepwise_feeds image region input_feed fed) s
    = Some (out, s) /\
    initial_state out = Some init /\
    length init = 1%nat /\ rows_of_width (2 * num_lstm_units config) init /\
    state out = Some new_state /\
    length new_state = length input_feed /\
    rows_of_width (2 * num_lstm_units config) new_state /\
    length (logits out) = length input_feed /\
    rows_of_width (vocab_size config) (logits out) /\
    softmax out = Some sm /\
    length sm = length input_feed /\ rows_of_width (vocab_size config) sm.
Proof. apply stepwise_call_defined. Qed.

Lemma stepwise_call_is_defined_witness :
  exists out init new_state sm,
    build_model tiny_config inference
      (stepwise_feeds [1]%R [1]%R [0; 1]%Z [[0; 0]; [0; 0]]%R) tiny_session
    = Some (out, tiny_session) /\
    initial_state out = Some init /\
    length init = 1%nat /\ rows_of_width (2 * num_lstm_units tiny_config) init /\
    state out = Some new_state /\
    length new_state = length [0; 1]%Z /\
    rows_of_width (2 * num_lstm_units tiny_config) new_state /\
    length (logits out) = length [0; 1]%Z /\
    rows_of_width (vocab_size tiny_config) (logits out) /\
    softmax out = Some sm /\
    length sm = length [0; 1]%Z /\ rows_of_width (vocab_size tiny_config) sm.
Proof.
  apply (stepwise_call_is_defined tiny_config [1]%R [1]%R [0; 1]%Z
           [[0; 0]; [0; 0]]%R tiny_session).
  - discriminate.
  - exact tiny_variables_well_shaped.
  - reflexivity.
  - reflexivity.
  - repeat constructor; simpl; lia.
  - reflexivity.
  - repeat constructor.
Defined.

(** ** The inference branch as a function of the variables and the feeds *)

Lemma build_model_inference (config : ModelConfig) (feeds : Feeds) (s : Session) :
  build_model config inference feeds s
  = option_map (fun out => (out, s)) (inference_graph config (variables s) feeds).
Proof.
  unfold build_model, inference_graph, build_seq_embeddings, seed_state,
    project_logits, lstm_cell, basic_lstm_cell, mbind, lift, ret, get_variables, obind.
  repeat (cbn beta iota zeta;
          first [ step_bind
                | match goal with
                  | |- context [match ?l with [] => _ | _ :: _ => _ end] =>
                      is_var l; destruct l as [|? [|? [|? ?]]]; try reflexivity
                  end ]).
Qed.

(** X5: a token that is not an index into the embedding map (negative, or
    at least the number of its rows) anywhere in the input sequences makes
    the graph fail, in every mode: the lookup runs on the CPU, where an
    index out of range is an error. *)
Theorem unknown_token_is_rejected (config : ModelConfig) (mode : Mode)
    (feeds : Feeds) (s : Session) (seq : list Z) (token : Z) :
  In seq (input_seqs feeds) -> In token seq ->
  (token < 0 \/ Z.of_nat (length (embedding_map (variables s))) <= token)%Z ->
  build_model config mode feeds s = None.
Proof.
  intros Hseq Htok Hout.
  assert (Hlookup : NN.embedding_lookup (embedding_map (variables s)) (input_seqs feeds)
                    = None).
  { unfold NN.embedding_lookup. apply (mapM_None_In _ _ seq Hseq).
    apply (mapM_None_In _ _ token Htok). unfold NN.lookup_row.
    destruct (Z.ltb_spec token 0); [reflexivity|].
    apply nth_error_None. lia. }
  unfold build_model. unfold mbind at 1.
  unfold build_seq_embeddings, mbind, get_variables, lift. rewrite Hlookup.
  reflexivity.
Qed.

Lemma unknown_token_is_rejected_witness :
  build_model tiny_config eval unknown_token_feeds tiny_session = None.
Proof.
  apply (unknown_token_is_rejected tiny_config eval unknown_token_feeds
           tiny_session [0; 5]%Z 5%Z).
  - left. reflexivity.
  - right. left. reflexivity.
  - right. simpl. lia.
Defined.

Lemma length_replicate {A : Type} (n : nat) (l : list A) :
  length (NN.replicate n l) = (n * length l)%nat.
Proof.
  unfold NN.replicate. induction n as [|n IH]; simpl; [reflexivity|].
  rewrite length_app, IH. reflexivity.
Qed.

Lemma fusion_sequence_context (mode : Mode) (image_embeddings region : T2)
    (seq_embeddings : T3) (with_aspect : T2) (seq_with_aspect : T3) :
  process_lstm_input mode image_embeddings region seq_embeddings
  = Some (with_aspect, seq_with_aspect) ->
  length region = length image_embeddings /\
  NN.concat2 seq_embeddings
    (match mode with
     | inference =>
         NN.tile3 (NN.shape0 seq_embeddings) 1 1 (NN.expand_dims1 image_embeddings)
     | _ =>
         NN.tile3 1 (NN.shape1 seq_embeddings) 1 (NN.expand_dims1 image_embeddings)
     end) = Some seq_with_aspect.
Proof.
  unfold process_lstm_input.
  destruct (NN.concat1 _) as [wa|] eqn:Hwa; [|discriminate]. cbn [obind].
  destruct (NN.concat2 _ _) as [sa|]; [|discriminate]. cbn [obind].
  intros Heq. injection Heq as <- <-. split; [|reflexivity].
  unfold NN.concat1, NN.concat1_from in Hwa.
  destruct (NN.concat1_pair _ _) as [r|] eqn:Hr; [|discriminate].
  unfold NN.concat1_pair in Hr. apply zipWithM_Some_length in Hr. lia.
Qed.

Lemma split1_two_lengths (value c h : T2) :
  NN.split1 2 value = Some [c; h] -> length c = length value /\ length h = length value.
Proof.
  unfold NN.split1.
  destruct (mapM _ value) as [rows|] eqn:Hrows; [|discriminate]. cbn [obind seq map].
  intros Heq. injection Heq as <- <-.
  rewrite !length_map. rewrite (mapM_Some_length _ _ _ Hrows). split; reflexivity.
Qed.

Lemma placeholder_inv (width : nat) (fed value : T2) :
  NN.placeholder width fed = Some value ->
  value = fed /\ rows_of_width width fed.
Proof.
  unfold NN.placeholder. destruct (forallb _ fed) eqn:Hall; [|discriminate].
  intros Heq. injection Heq as <-. split; [reflexivity|].
  apply Forall_forall. intros row Hrow. rewrite forallb_forall in Hall.
  apply Nat.eqb_eq, Hall, Hrow.
Qed.

(** X6: a call in inference mode that decodes at least one hypothesis
    succeeds only on a batch of exactly one image (with one region
    embedding), with exactly one token per hypothesis and one state vector
    of length [2 * num_lstm_units] per hypothesis: the global embedding is
    tiled over the hypotheses, so a second image makes the fusion fail. *)
Theorem stepwise_call_shapes (config : ModelConfig) (feeds : Feeds)
    (s s' : Session) (out : Fetches) :
  build_model config inference feeds s = Some (out, s') ->
  input_seqs feeds <> [] ->
  length (image_embeddings feeds) = 1%nat /\
  length (region_aspect_embeddings feeds) = 1%nat /\
  Forall (fun seq => length seq = 1%nat) (input_seqs feeds) /\
  length (state_feed feeds) = length (input_seqs feeds) /\
  rows_of_width (2 * num_lstm_units config) (state_feed feeds).
Proof.
  rewrite build_model_inference. unfold inference_graph. intros Hrun Hne.
  destruct (NN.embedding_lookup _ _) as [SE|] eqn:HSE; [|discriminate].
  cbn [obind] in Hrun.
  destruct (process_lstm_input _ _ _ SE) as [[WA SA]|] eqn:Hfuse; [|discriminate].
  cbn [obind] in Hrun.
  destruct (NN.BasicLSTMCell _ _ _ WA _) as [[O0 st0]|]; [|discriminate].
  cbn [obind] in Hrun.
  destruct (NN.concat1 _) as [init|]; [|discriminate]. cbn [obind] in Hrun.
  destruct (NN.placeholder _ _) as [fed|] eqn:Hfed; [|discriminate].
  cbn [obind] in Hrun.
  destruct (NN.split1 2 fed) as [[|c [|h [|x tuple]]]|] eqn:Hsplit; try discriminate.
  cbn [obind] in Hrun.
  destruct (NN.squeeze1 SA) as [X|] eqn:HX; [|discriminate]. cbn [obind] in Hrun.
  destruct (NN.BasicLSTMCell _ _ _ X _) as [[O [C1 H1]]|] eqn:Hcell; [|discriminate].
  clear Hrun.
  destruct (fusion_sequence_context _ _ _ _ _ _ Hfuse) as (Hreg & Hsa).
  unfold NN.concat2 in Hsa.
  set (tiles := NN.tile3 _ 1 1 _) in Hsa.
  pose proof (zipWithM_Some_length _ _ _ _ Hsa) as (HlSE & Htile).
  assert (Htiles : length tiles = (length SE * length (image_embeddings feeds))%nat).
  { unfold tiles, NN.tile3, NN.shape0, NN.expand_dims1.
    rewrite length_replicate, !length_map. reflexivity. }
  unfold NN.embedding_lookup in HSE.
  pose proof (mapM_Some_length _ _ _ HSE) as HlSE'.
  assert (Hn : (0 < length (input_seqs feeds))%nat)
    by (destruct (input_seqs feeds); [congruence | simpl; lia]).
  assert (Himg : length (image_embeddings feeds) = 1%nat) by nia.
  split; [exact Himg|]. split; [lia|].
  destruct (placeholder_inv _ _ _ Hfed) as (-> & Hwidth).
  destruct (split1_two_lengths _ _ _ Hsplit) as (Hlc & _).
  destruct (BasicLSTMCell_rows _ _ _ _ _ _ _ _ _ Hcell) as (HlC & _).
  unfold NN.squeeze1 in HX. pose proof (mapM_Some_length _ _ _ HX) as HlX.
  split; [|split; [lia | exact Hwidth]].
  apply Forall_forall. intros seq Hseq.
  apply In_nth_error in Hseq. destruct Hseq as (k & Hk).
  destruct (mapM_Some_nth _ _ _ k seq HSE Hk) as (m & Hm & HSEk).
  assert (Hklt : (k < length SA)%nat)
    by (rewrite <- HlSE; apply nth_error_Some; congruence).
  destruct (nth_error SA k) as [m'|] eqn:Hm'; [|apply nth_error_None in Hm'; lia].
  destruct (mapM_Some_nth _ _ _ k m' HX Hm') as (row & Hrow & _).
  assert (Hm'1 : length m' = 1%nat)
    by (destruct m' as [|r [|r' m']]; try discriminate; reflexivity).
  destruct (nth_error tiles k) as [tile|] eqn:Htk;
    [|apply nth_error_None in Htk; lia].
  destruct (zipWithM_Some_nth _ _ _ _ k m tile Hsa HSEk Htk) as (r & Hr & Hrk).
  rewrite Hm' in Hrk. injection Hrk as <-.
  apply zipWithM_Some_length in Hr.
  rewrite <- (mapM_Some_length _ _ _ Hm). lia.
Qed.

(** A concrete run that fails would contradict its evaluation. *)
Ltac run_is_defined H := exfalso; revert H; run_model; discriminate.

Lemma stepwise_call_shapes_witness :
  (exists out s',
     build_model tiny_config inference one_call_feeds tiny_session
     = Some (out, s')) /\
  length (image_embeddings one_call_feeds) = 1%nat /\
  length (region_aspect_embeddings one_call_feeds) = 1%nat /\
  Forall (fun seq => length seq = 1%nat) (input_seqs one_call_feeds) /\
  length (state_feed one_call_feeds) = length (input_seqs one_call_feeds) /\
  rows_of_width (2 * num_lstm_units tiny_config) (state_feed one_call_feeds).
Proof.
  destruct (build_model tiny_config inference one_call_feeds tiny_session)
    as [[out s']|] eqn:Hrun.
  - split; [exists out, s'; reflexivity|].
    apply (stepwise_call_shapes tiny_config one_call_feeds tiny_session s' out
             Hrun).
    discriminate.
  - run_is_defined Hrun.
Defined.

Section Softmax.

Local Open Scope R_scope.

Lemma sum_exp_pos (row : T1) : row <> [] -> 0 < NN.sum (map exp row).
Proof.
  assert (Hnn : forall l, 0 <= NN.sum (map exp l)).
  { induction l as [|x l IH]; simpl; [unfold NN.sum; simpl; lra|].
    unfold NN.sum in *. simpl. pose proof (exp_pos x). lra. }
  destruct row as [|x row]; [congruence|]. intros _.
  unfold NN.sum. simpl. pose proof (exp_pos x). specialize (Hnn row).
  unfold NN.sum in Hnn. lra.
Qed.

Lemma sum_scaled (z : R) (l : T1) :
  NN.sum (map (fun v => v / z) l) = NN.sum l / z.
Proof.
  unfold NN.sum. induction l as [|v l IH]; simpl; [unfold Rdiv; ring|].
  rewrite IH. unfold Rdiv. ring.
Qed.

Lemma softmax_row_distribution (row : T1) :
  row <> [] ->
  Forall (fun p => 0 < p) (NN.softmax_row row) /\ NN.sum (NN.softmax_row row) = 1.
Proof.
  intros Hne. pose proof (sum_exp_pos row Hne) as Hz. unfold NN.softmax_row.
  split.
  - rewrite Forall_map. apply Forall_forall. intros x _.
    apply Rdiv_lt_0_compat; [apply exp_pos | exact Hz].
  - rewrite <- (map_map exp (fun v => v / NN.sum (map exp row))).
    rewrite sum_scaled. field. lra.
Qed.

End Softmax.

(** X7: the softmax a call in inference mode returns holds, for every
    hypothesis, a probability distribution over the vocabulary:
    [vocab_size] positive numbers whose sum is one. *)
Theorem stepwise_softmax_is_a_distribution (config : ModelConfig) (feeds : Feeds)
    (s s' : Session) (out : Fetches) :
  build_model config inference feeds s = Some (out, s') ->
  vocab_size config <> 0%nat ->
  exists sm,
    softmax out = Some sm /\
    length sm = length (logits out) /\
    Forall (fun row => length row = vocab_size config /\
                       Forall (fun p => (0 < p)%R) row /\ NN.sum row = 1%R) sm.
Proof.
  rewrite build_model_inference. unfold inference_graph. intros Hrun HV.
  destruct (NN.embedding_lookup _ _) as [SE|]; [|discriminate]. cbn [obind] in Hrun.
  destruct (process_lstm_input _ _ _ SE) as [[WA SA]|]; [|discriminate].
  cbn [obind] in Hrun.
  destruct (NN.BasicLSTMCell _ _ _ WA _) as [[O0 st0]|]; [|discriminate].
  cbn [obind] in Hrun.
  destruct (NN.concat1 _) as [init|]; [|discriminate]. cbn [obind] in Hrun.
  destruct (NN.placeholder _ _) as [fed|]; [|discriminate]. cbn [obind] in Hrun.
  destruct (NN.split1 2 fed) as [[|c [|h [|x tuple]]]|]; try discriminate.
  cbn [obind] in Hrun.
  destruct (NN.squeeze1 SA) as [X|]; [|discriminate]. cbn [obind] in Hrun.
  destruct (NN.BasicLSTMCell _ _ _ X _) as [[O st1]|]; [|discriminate].
  cbn [obind] in Hrun.
  destruct (NN.concat1 _) as [st|]; [|discriminate]. cbn [obind] in Hrun.
  destruct (NN.reshape_rows _ _) as [rows|]; [|discriminate]. cbn [obind] in Hrun.
  destruct (NN.fully_connected _ _ _ rows) as [lg|] eqn:Hlg; [|discriminate].
  cbn [obind option_map] in Hrun. injection Hrun as <- _.
  cbn [softmax logits]. exists (NN.softmax lg). split; [reflexivity|].
  unfold NN.softmax. split; [apply length_map|].
  rewrite Forall_map. apply Forall_forall. intros row Hrow.
  assert (Hlen : length row = vocab_size config).
  { unfold NN.fully_connected in Hlg.
    apply In_nth_error in Hrow. destruct Hrow as (k & Hk).
    assert (Hklt : (k < length rows)%nat).
    { rewrite <- (mapM_Some_length _ _ _ Hlg). apply nth_error_Some. congruence. }
    destruct (nth_error rows k) as [x|] eqn:Hx; [|apply nth_error_None in Hx; lia].
    destruct (mapM_Some_nth _ _ _ k x Hlg Hx) as (y & Hy & Hyk).
    rewrite Hk in Hyk. injection Hyk as ->.
    apply (linear_length _ _ _ _ _ Hy). }
  split; [unfold NN.softmax_row; rewrite length_map; exact Hlen|].
  apply softmax_row_distribution. destruct row; [simpl in Hlen; congruence | discriminate].
Qed.

Lemma stepwise_softmax_is_a_distribution_witness :
  exists out s',
    build_model tiny_config inference one_call_feeds tiny_session
    = Some (out, s') /\
    exists sm,
      softmax out = Some sm /\
      length sm = length (logits out) /\
      Forall (fun row => length row = vocab_size tiny_config /\
                         Forall (fun p => (0 < p)%R) row /\ NN.sum row = 1%R) sm.
Proof.
  destruct (build_model tiny_config inference one_call_feeds tiny_session)
    as [[out s']|] eqn:Hrun.
  - exists out, s'. split; [reflexivity|].
    apply (stepwise_softmax_is_a_distribution tiny_config one_call_feeds
             tiny_session s' out Hrun).
    discriminate.
  - run_is_defined Hrun.
Defined.

(** X8: in inference mode the region embedding reaches the decoder through
    the initial state only: two calls that differ in nothing but the
    region embedding return the same sequence context, the same logits,
    the same softmax and the same new state (the sequence context is the
    word embedding followed by the global image embedding). *)
Theorem region_reaches_the_decoder_through_the_initial_state
    (config : ModelConfig) (feeds : Feeds) (region : T2)
    (s s1 s2 : Session) (out out' : Fetches) :
  build_model config inference feeds s = Some (out, s1) ->
  build_model config inference (with_region feeds region) s = Some (out', s2) ->
  seq_embeddings_with_aspect out' = seq_embeddings_with_aspect out /\
  logits out' = logits out /\ softmax out' = softmax out /\ state out' = state out.
Proof.
  rewrite !build_model_inference. unfold inference_graph, with_region.
  cbn [image_embeddings region_aspect_embeddings input_seqs state_feed].
  intros Hrun Hrun'.
  destruct (NN.embedding_lookup _ _) as [SE|]; [|discriminate].
  cbn [obind] in Hrun, Hrun'.
  destruct (process_lstm_input _ _ (region_aspect_embeddings feeds) SE)
    as [[WA SA]|] eqn:Hfuse; [|discriminate].
  destruct (process_lstm_input _ _ region SE) as [[WA' SA']|] eqn:Hfuse';
    [|discriminate].
  cbn [obind] in Hrun, Hrun'.
  destruct (fusion_sequence_context _ _ _ _ _ _ Hfuse) as (_ & Hsa).
  destruct (fusion_sequence_context _ _ _ _ _ _ Hfuse') as (_ & Hsa').
  assert (SA' = SA) by congruence. subst SA'. clear Hsa Hsa' Hfuse Hfuse'.
  destruct (NN.BasicLSTMCell _ _ _ WA _) as [[O0 st0]|]; [|discriminate].
  destruct (NN.BasicLSTMCell _ _ _ WA' _) as [[O0' st0']|]; [|discriminate].
  cbn [obind] in Hrun, Hrun'.
  destruct (NN.concat1 [fst st0; snd st0]) as [init|]; [|discriminate].
  destruct (NN.concat1 [fst st0'; snd st0']) as [init'|]; [|discriminate].
  cbn [obind] in Hrun, Hrun'.
  destruct (NN.placeholder _ _) as [fed|]; [|discriminate].
  cbn [obind] in Hrun, Hrun'.
  destruct (NN.split1 2 fed) as [[|c [|h [|x tuple]]]|]; try discriminate.
  cbn [obind] in Hrun, Hrun'.
  destruct (NN.squeeze1 SA) as [X|]; [|discriminate]. cbn [obind] in Hrun, Hrun'.
  destruct (NN.BasicLSTMCell _ _ _ X _) as [[O st1]|]; [|discriminate].
  cbn [obind] in Hrun, Hrun'.
  destruct (NN.concat1 _) as [st|]; [|discriminate]. cbn [obind] in Hrun, Hrun'.
  destruct (NN.reshape_rows _ _) as [rows|]; [|discriminate].
  cbn [obind] in Hrun, Hrun'.
  destruct (NN.fully_connected _ _ _ rows) as [lg|]; [|discriminate].
  cbn [obind option_map] in Hrun, Hrun'.
  injection Hrun as <- _. injection Hrun' as <- _.
  repeat split; reflexivity.
Qed.

Lemma region_reaches_the_decoder_through_the_initial_state_witness :
  exists out out' s1 s2,
    build_model tiny_config inference one_call_feeds tiny_session
    = Some (out, s1) /\
    build_model tiny_config inference (with_region one_call_feeds [[2]]%R)
      tiny_session = Some (out', s2) /\
    seq_embeddings_with_aspect out' = seq_embeddings_with_aspect out /\
    logits out' = logits out /\ softmax out' = softmax out /\
    state out' = state out.
Proof.
  destruct (build_model tiny_config inference one_call_feeds tiny_session)
    as [[out s1]|] eqn:Hrun; [|run_is_defined Hrun].
  destruct (build_model tiny_config inference (with_region one_call_feeds [[2]]%R)
              tiny_session) as [[out' s2]|] eqn:Hrun'; [|run_is_defined Hrun'].
  exists out, out', s1, s2. split; [reflexivity|]. split; [reflexivity|].
  apply (region_reaches_the_decoder_through_the_initial_state tiny_config
           one_call_feeds [[2]]%R tiny_session s1 s2 out out' Hrun Hrun').
Defined.

(** ** The sign of the loss *)

Lemma zipWithM_Forall {A B C : Type} (f : A -> B -> option C)
    (PA : A -> Prop) (PB : B -> Prop) (PC : C -> Prop)
    (la : list A) (lb : list B) (lc : list C) :
  (forall a b c, PA a -> PB b -> f a b = Some c -> PC c) ->
  zipWithM f la lb = Some lc -> Forall PA la -> Forall PB lb -> Forall PC lc.
Proof.
  intros Hf. revert lb lc. induction la as [|a la IH]; intros [|b lb] lc H HA HB;
    simpl in H; try discriminate.
  - injection H as <-. constructor.
  - destruct (f a b) as [c|] eqn:Hc; [|discriminate]. cbn [obind] in H.
    destruct (zipWithM f la lb) as [cs|] eqn:Hcs; [|discriminate].
    injection H as <-. inversion HA; inversion HB; subst.
    constructor; [eapply Hf; eassumption | eapply IH; eauto].
Qed.

Section LossSign.

Local Open Scope R_scope.

Lemma sum_nonneg (l : T1) : Forall (fun v => 0 <= v) l -> 0 <= NN.sum l.
Proof.
  unfold NN.sum. induction 1 as [|v l Hv _ IH]; simpl; lra.
Qed.

Lemma sum_pos (l : T1) :
  Forall (fun v => 0 <= v) l -> Exists (fun v => 0 < v) l -> 0 < NN.sum l.
Proof.
  intros Hnn Hex. induction Hex as [v l Hv|v l _ IH].
  - inversion Hnn; subst. pose proof (sum_nonneg l ltac:(assumption)).
    unfold NN.sum in *. simpl. lra.
  - inversion Hnn; subst. specialize (IH ltac:(assumption)).
    unfold NN.sum in *. simpl. lra.
Qed.

Lemma exp_le_sum (row : T1) (k : nat) (x : R) :
  nth_error row k = Some x -> exp x <= NN.sum (map exp row).
Proof.
  assert (Hnn : forall l, 0 <= NN.sum (map exp l)).
  { intros l. apply sum_nonneg. rewrite Forall_map. apply Forall_forall.
    intros y _. left. apply exp_pos. }
  revert k. induction row as [|y row IH]; intros [|k] Hk; try discriminate.
  - injection Hk as ->. specialize (Hnn row). unfold NN.sum in *. simpl. lra.
  - simpl in Hk. specialize (IH k Hk). pose proof (exp_pos y).
    unfold NN.sum in *. simpl. lra.
Qed.

(** The cross entropy of a row against any label is not negative. *)
Lemma xent_row_nonneg (label : Z) (row : T1) (l : R) :
  NN.xent_row label row = Some l -> 0 <= l.
Proof.
  unfold NN.xent_row. destruct (label <? 0)%Z; [discriminate|].
  destruct (nth_error row (Z.to_nat label)) as [x|] eqn:Hx; [|discriminate].
  cbn [obind]. intros Heq. injection Heq as <-.
  pose proof (exp_le_sum row _ x Hx) as Hle. pose proof (exp_pos x) as Hpos.
  destruct Hle as [Hlt|Heq].
  - pose proof (ln_increasing _ _ Hpos Hlt) as Hln. rewrite ln_exp in Hln. lra.
  - rewrite <- Heq, ln_exp. lra.
Qed.

End LossSign.

(** X9: in train and eval mode every per-token cross entropy is at least
    zero, and so is the batch loss, for every mask without a negative
    entry and with at least one positive entry. *)
Theorem batch_loss_is_nonnegative (config : ModelConfig) (mode : Mode)
    (feeds : Feeds) (s s' : Session) (out : Fetches) :
  mode <> inference ->
  build_model config mode feeds s = Some (out, s') ->
  Forall (Forall (fun m => 0 <= m)%Z) (input_mask feeds) ->
  Exists (Exists (fun m => 0 < m)%Z) (input_mask feeds) ->
  exists losses l,
    target_cross_entropy_losses out = Some losses /\
    Forall (fun v => 0 <= v)%R losses /\
    batch_loss out = Some l /\ (0 <= l)%R.
Proof.
  intros Hmode Hrun Hnn Hex.
  rewrite build_model_unrolled in Hrun by exact Hmode.
  destruct (unrolled_logits config mode feeds s) as [[[[WA SA] lg] s1]|];
    [|discriminate].
  unfold loss_head, weighted_losses in Hrun.
  destruct (NN.sparse_softmax_cross_entropy_with_logits _ lg) as [losses|] eqn:Hlosses;
    [|discriminate].
  cbn [obind] in Hrun.
  destruct (NN.multiply1 losses _) as [weighted|] eqn:Hweighted; [|discriminate].
  cbn [obind option_map] in Hrun. injection Hrun as <- _.
  cbn [target_cross_entropy_losses batch_loss].
  exists losses. eexists. split; [reflexivity|].
  assert (Hlnn : Forall (fun v => 0 <= v)%R losses).
  { unfold NN.sparse_softmax_cross_entropy_with_logits in Hlosses.
    apply (zipWithM_Forall NN.xent_row (fun _ => True) (fun _ => True) _ _ _ _
             ltac:(intros a b c _ _; apply xent_row_nonneg) Hlosses);
      apply Forall_forall; intros; exact I. }
  split; [exact Hlnn|]. split; [reflexivity|].
  set (weights := map IZR (concat (input_mask feeds))) in *.
  assert (Hwnn : Forall (fun v => 0 <= v)%R weights).
  { unfold weights. rewrite Forall_map. apply Forall_concat.
    eapply Forall_impl; [|exact Hnn]. cbv beta. intros row Hrow.
    eapply Forall_impl; [|exact Hrow]. cbv beta. intros m Hm. apply IZR_le. exact Hm. }
  assert (Hwpos : (0 < NN.sum weights)%R).
  { apply sum_pos; [exact Hwnn|]. unfold weights. apply Exists_exists.
    apply Exists_exists in Hex. destruct Hex as (row & Hrow & Hm).
    apply Exists_exists in Hm. destruct Hm as (m & Hm & Hpos).
    exists (IZR m). split; [|apply IZR_lt; exact Hpos].
    apply in_map. apply in_concat. exists row. split; assumption. }
  assert (Hsum : (0 <= NN.sum weighted)%R).
  { apply sum_nonneg. unfold NN.multiply1 in Hweighted.
    apply (zipWithM_Forall (fun x y : R => Some (x * y)%R)
             (fun v => (0 <= v)%R) (fun v => (0 <= v)%R) (fun v => (0 <= v)%R)
             losses weights weighted);
      [|exact Hweighted | exact Hlnn | exact Hwnn].
    intros a b c Ha Hb Hc. injection Hc as <-.
    apply Rmult_le_pos; [exact Ha | exact Hb]. }
  apply Rmult_le_pos; [exact Hsum|]. left. apply Rinv_0_lt_compat. exact Hwpos.
Qed.

Lemma batch_loss_is_nonnegative_witness :
  exists out s',
    build_model tiny_config eval tiny_feeds tiny_session = Some (out, s') /\
    exists losses l,
      target_cross_entropy_losses out = Some losses /\
      Forall (fun v => 0 <= v)%R losses /\
      batch_loss out = Some l /\ (0 <= l)%R.
Proof.
  destruct (build_model tiny_config eval tiny_feeds tiny_session)
    as [[out s']|] eqn:Hrun; [|run_is_defined Hrun].
  exists out, s'. split; [reflexivity|].
  apply (batch_loss_is_nonnegative tiny_config eval tiny_feeds tiny_session s' out).
  - discriminate.
  - exact Hrun.
  - simpl. repeat constructor; lia.
  - simpl. constructor. constructor. lia.
Defined.

(** ** A keep probability of one *)

Lemma mbind_ext {A B : Type} (m : M A) (k1 k2 : A -> M B) (s : Session) :
  (forall a s', k1 a s' = k2 a s') -> mbind m k1 s = mbind m k2 s.
Proof.
  intros Hk. unfold mbind. destruct (m s) as [[a s']|]; [apply Hk | reflexivity].
Qed.

Lemma mbind_ext_l {A B : Type} (m1 m2 : M A) (k : A -> M B) (s : Session) :
  m1 s = m2 s -> mbind m1 k s = mbind m2 k s.
Proof. intros Hm. unfold mbind. rewrite Hm. reflexivity. Qed.

Section KeepAll.

Variable config : ModelConfig.
Hypothesis keep_all : lstm_dropout_keep_prob config = 1%R.

Lemma lstm_cell_keep_all (X : T2) (st : T2 * T2) (s : Session) :
  lstm_cell config train X st s = lstm_cell config eval X st s.
Proof.
  unfold lstm_cell, maybe_dropout. rewrite keep_all.
  destruct (Rlt_dec 1 1) as [Hlt|_]; [lra|].
  unfold mbind, ret.
  destruct (basic_lstm_cell config X st s) as [[[O st'] s']|]; reflexivity.
Qed.

Lemma rnn_loop_keep_all (seqlen : list Z) (zero : T2) (inputs : list T2) :
  forall time st s,
    rnn_loop (lstm_cell config train) inputs time seqlen zero st s
    = rnn_loop (lstm_cell config eval) inputs time seqlen zero st s.
Proof.
  induction inputs as [|X inputs IH]; intros time st s; [reflexivity|].
  cbn [rnn_loop].
  rewrite (mbind_ext_l _ _ _ _ (lstm_cell_keep_all X st s)).
  apply mbind_ext. intros [O st'] s1.
  apply mbind_ext. intros out s2.
  apply mbind_ext. intros c s3.
  apply mbind_ext. intros h s4.
  apply mbind_ext_l. apply IH.
Qed.

Lemma dynamic_rnn_keep_all (inputs : T3) (seqlen : list Z) (st : T2 * T2) (s : Session) :
  dynamic_rnn config (lstm_cell config train) inputs seqlen st s
  = dynamic_rnn config (lstm_cell config eval) inputs seqlen st s.
Proof.
  unfold dynamic_rnn.
  apply mbind_ext. intros inputs_tm s1.
  apply mbind_ext. intros _ s2.
  apply mbind_ext_l. apply rnn_loop_keep_all.
Qed.

Lemma unrolled_logits_keep_all (feeds : Feeds) (s : Session) :
  unrolled_logits config train feeds s = unrolled_logits config eval feeds s.
Proof.
  unfold unrolled_logits.
  apply mbind_ext. intros SE s1.
  apply mbind_ext. intros [WA SA] s2.
  etransitivity.
  - apply mbind_ext_l. unfold seed_state. apply mbind_ext_l. apply lstm_cell_keep_all.
  - apply mbind_ext. intros init s3.
    apply mbind_ext_l. apply dynamic_rnn_keep_all.
Qed.

End KeepAll.

(** X10: with a keep probability of one the dropout wrapper drops nothing:
    the run in train mode is the run in eval mode, with the same fetched
    tensors and the same session afterwards (no random number is
    drawn). *)
Theorem keep_probability_one_means_no_dropout (config : ModelConfig)
    (feeds : Feeds) (s : Session) :
  lstm_dropout_keep_prob config = 1%R ->
  build_model config train feeds s = build_model config eval feeds s.
Proof.
  intros Hkeep. rewrite !build_model_unrolled by discriminate.
  rewrite (unrolled_logits_keep_all config Hkeep). reflexivity.
Qed.

Lemma keep_probability_one_means_no_dropout_witness :
  build_model keep_all_config train tiny_feeds tiny_session
  = build_model keep_all_config eval tiny_feeds tiny_session.
Proof.
  apply (keep_probability_one_means_no_dropout keep_all_config tiny_feeds
           tiny_session).
  reflexivity.
Defined.

(** ** Padding positions *)

Section AnyMode.

Variable config : ModelConfig.

Let H := num_lstm_units config.

Lemma maybe_dropout_shape (keep_prob : R) (x x' : T2) (s s' : Session) :
  maybe_dropout keep_prob x s = Some (x', s') ->
  Forall2 (fun row row' : T1 => length row' = length row) x x' /\
  variables s' = variables s.
Proof.
  intros Hrun.
  destruct (maybe_dropout_defined keep_prob x s) as (x1 & s1 & Hrun1 & Hshape & Hv).
  rewrite Hrun in Hrun1. injection Hrun1 as <- <-. split; assumption.
Qed.

Lemma basic_lstm_cell_shape (X : T2) (st : T2 * T2) (O : T2) (st' : T2 * T2)
    (s s' : Session) :
  basic_lstm_cell config X st s = Some ((O, st'), s') ->
  s' = s /\ rows_of_width H O /\ length O = length X.
Proof.
  unfold basic_lstm_cell, mbind, get_variables, lift.
  destruct (NN.BasicLSTMCell _ _ _ X st) as [[O1 st1]|] eqn:Hcell; [|discriminate].
  intros Heq. injection Heq as <- <- <-. split; [reflexivity|].
  split; [eapply BasicLSTMCell_output_rows; eassumption|].
  destruct st as [C Hs]. destruct st1 as [C1 H1].
  apply (BasicLSTMCell_rows _ _ _ _ _ _ _ _ _ Hcell).
Qed.

Lemma lstm_cell_shape (mode : Mode) (X : T2) (st : T2 * T2) (O : T2)
    (st' : T2 * T2) (s s' : Session) :
  lstm_cell config mode X st s = Some ((O, st'), s') ->
  variables s' = variables s /\ rows_of_width H O /\ length O = length X.
Proof.
  destruct mode; cbn [lstm_cell].
  - unfold mbind at 1.
    destruct (maybe_dropout _ X s) as [[X1 s1]|] eqn:HX1; [|discriminate].
    unfold mbind at 1.
    destruct (basic_lstm_cell config X1 st s1) as [[[O1 st1] s2]|] eqn:Hcell;
      [|discriminate].
    unfold mbind.
    destruct (maybe_dropout _ O1 s2) as [[O2 s3]|] eqn:HO2; [|discriminate].
    unfold ret. intros Heq. injection Heq as <- <- <-.
    destruct (maybe_dropout_shape _ _ _ _ _ HX1) as (HsX & Hv1).
    destruct (basic_lstm_cell_shape _ _ _ _ _ _ Hcell) as (-> & HO1 & HlO1).
    destruct (maybe_dropout_shape _ _ _ _ _ HO2) as (HsO & Hv3).
    destruct (same_widths _ _ _ HsO HO1) as (HO2w & HO2l).
    split; [congruence|]. split; [exact HO2w|].
    rewrite HO2l, HlO1. symmetry. apply (Forall2_length HsX).
  - intros Hrun. destruct (basic_lstm_cell_shape _ _ _ _ _ _ Hrun) as (-> & Hrest).
    split; [reflexivity | exact Hrest].
  - intros Hrun. destruct (basic_lstm_cell_shape _ _ _ _ _ _ Hrun) as (-> & Hrest).
    split; [reflexivity | exact Hrest].
Qed.

(** Shape of what the loop returns, in any mode. *)
Lemma rnn_loop_shape_any (mode : Mode) (seqlen : list Z) (zero : T2)
    (inputs : list T2) :
  rows_of_width H zero ->
  forall time st s outs fin s',
    rnn_loop (lstm_cell config mode) inputs time seqlen zero st s
    = Some ((outs, fin), s') ->
    variables s' = variables s /\ length outs = length inputs /\
    Forall (fun o => length o = length zero) outs /\
    Forall (rows_of_width H) outs.
Proof.
  intros Hzero. induction inputs as [|X inputs IH]; intros time st s outs fin s' Hrun;
    cbn [rnn_loop] in Hrun.
  - injection Hrun as <- _ <-. repeat split; constructor.
  - unfold mbind at 1 in Hrun.
    destruct (lstm_cell config mode X st s) as [[[O st1] s1]|] eqn:Hcell;
      [|discriminate].
    unfold mbind, lift in Hrun.
    destruct (NN.where_rows _ zero O) as [Out|] eqn:HOut; [|discriminate].
    destruct (NN.where_rows _ (fst st) (fst st1)) as [Cn|]; [|discriminate].
    destruct (NN.where_rows _ (snd st) (snd st1)) as [Hn|]; [|discriminate].
    destruct (rnn_loop _ inputs (S time) seqlen zero (Cn, Hn) s1)
      as [[[outs' fin'] s2]|] eqn:Hrest; [|discriminate].
    unfold ret in Hrun. injection Hrun as <- <- <-.
    destruct (IH _ _ _ _ _ _ Hrest) as (Hv & Hlen & Hbatch & Hrows).
    destruct (lstm_cell_shape _ _ _ _ _ _ _ Hcell) as (Hv1 & HO & _).
    destruct (where_rows_length _ _ _ _ HOut) as (_ & HlZ & _).
    split; [congruence|]. split; [simpl; lia|].
    split; constructor; auto.
    apply (where_rows_Forall _ _ _ _ _ HOut Hzero HO).
Qed.

End AnyMode.

(** Once the length of an example is reached, the loop emits the zero
    output for it. *)
Lemma rnn_loop_padding (cell : T2 -> T2 * T2 -> M (T2 * (T2 * T2)))
    (seqlen : list Z) (zero : T2) (b : nat) (len : Z) (z : T1) :
  nth_error seqlen b = Some len -> nth_error zero b = Some z ->
  forall inputs time st s outs fin s',
    rnn_loop cell inputs time seqlen zero st s = Some ((outs, fin), s') ->
    forall k o, nth_error outs k = Some o -> (len <= Z.of_nat (time + k))%Z ->
      nth_error o b = Some z.
Proof.
  intros Hlen Hz. induction inputs as [|X inputs IH];
    intros time st s outs fin s' Hrun k o Hk Hpad; cbn [rnn_loop] in Hrun.
  - injection Hrun as <- _ _. destruct k; discriminate.
  - unfold mbind at 1 in Hrun.
    destruct (cell X st s) as [[[O st1] s1]|]; [|discriminate].
    unfold mbind, lift in Hrun.
    destruct (NN.where_rows _ zero O) as [Out|] eqn:HOut; [|discriminate].
    destruct (NN.where_rows _ (fst st) (fst st1)) as [Cn|]; [|discriminate].
    destruct (NN.where_rows _ (snd st) (snd st1)) as [Hn|]; [|discriminate].
    destruct (rnn_loop _ inputs (S time) seqlen zero (Cn, Hn) s1)
      as [[[outs' fin'] s2]|] eqn:Hrest; [|discriminate].
    unfold ret in Hrun. injection Hrun as <- _ _.
    destruct k as [|k]; simpl in Hk.
    + injection Hk as <-.
      destruct (where_rows_length _ _ _ _ HOut) as (_ & HlZ & HlO).
      assert (Hb : (b < length zero)%nat) by (apply nth_error_Some; congruence).
      destruct (nth_error O b) as [ob|] eqn:Hob; [|apply nth_error_None in Hob; lia].
      rewrite (where_rows_nth _ _ _ _ b true z ob HOut); [reflexivity | | exact Hz | exact Hob].
      rewrite nth_error_map, Hlen. cbn [option_map]. f_equal.
      apply Z.leb_le. lia.
    + apply (IH _ _ _ _ _ _ Hrest k o Hk). lia.
Qed.

Section UnrolledOutputs.

Variable config : ModelConfig.

Let H := num_lstm_units config.

(** The unrolled run, opened up: the embeddings, the seed, the loop over
    the time-major inputs, and where each output of the loop lands in the
    flattened logits. *)
Lemma unrolled_outputs (mode : Mode) (feeds : Feeds) (s s' : Session) (out : Fetches) :
  mode <> inference ->
  build_model config mode feeds s = Some (out, s') ->
  exists (SE : T3) (inputs_tm outs_tm : list T2) (C0 H0 : T2) (fin : T2 * T2)
         (s0 s1 : Session),
    let SA := map (fun p : T2 * T1 => map (fun w => w ++ snd p) (fst p))
                  (combine SE (image_embeddings feeds)) in
    let WA := map (fun p => fst p ++ snd p)
                  (combine (image_embeddings feeds) (region_aspect_embeddings feeds)) in
    NN.embedding_lookup (embedding_map (variables s)) (input_seqs feeds) = Some SE /\
    length (region_aspect_embeddings feeds) = length (image_embeddings feeds) /\
    length SE = length (image_embeddings feeds) /\
    seed_state config mode WA (length (image_embeddings feeds)) s
    = Some ((C0, H0), s0) /\
    variables s0 = variables s /\
    NN.swap01 (NN.shape1 SA) SA = Some inputs_tm /\
    length (input_mask feeds) = length SA /\
    rnn_loop (lstm_cell config mode) inputs_tm 0
      (NN.reduce_sum_rows (input_mask feeds))
      (repeat (repeat 0%R H) (length SA)) (C0, H0) s0
    = Some ((outs_tm, fin), s1) /\
    forall b t o row,
      nth_error outs_tm t = Some o -> nth_error o b = Some row ->
      exists lg,
        NN.linear (logits_weights (variables s)) (logits_biases (variables s))
          (vocab_size config) row = Some lg /\
        nth_error (logits out) (b * NN.shape1 SA + t) = Some lg.
Proof.
  intros Hmode Hrun.
  rewrite build_model_unrolled in Hrun by exact Hmode.
  destruct (unrolled_logits config mode feeds s)
    as [[[[WAr SAr] L] s1]|] eqn:Hlog; [|discriminate].
  destruct (loss_head feeds WAr SAr L) as [out0|] eqn:Hloss; [|discriminate].
  cbn [option_map] in Hrun. injection Hrun as <- <-.
  rewrite (loss_head_logits _ _ _ _ _ Hloss). clear Hloss out0.
  unfold unrolled_logits in Hlog. unfold mbind at 1 in Hlog.
  unfold build_seq_embeddings, mbind at 1, get_variables, lift at 1 in Hlog.
  destruct (NN.embedding_lookup _ (input_seqs feeds)) as [SE|] eqn:HSE;
    [|discriminate].
  unfold mbind at 1 in Hlog. unfold lift at 1 in Hlog.
  destruct (process_lstm_input mode _ _ SE) as [[WA0 SA0]|] eqn:Hfuse;
    [|discriminate].
  destruct (process_lstm_input_unrolled_inv mode _ _ _ _ _ Hmode Hfuse)
    as (HlR & HlS & -> & ->).
  set (WA := map _ (combine (image_embeddings feeds) _)) in *.
  set (SA := map _ (combine SE _)) in *.
  unfold mbind at 1 in Hlog.
  destruct (seed_state config mode WA _ s) as [[[C0 H0] s0]|] eqn:Hseed;
    [|discriminate].
  assert (Hv0 : variables s0 = variables s).
  { unfold seed_state, mbind in Hseed.
    destruct (lstm_cell config mode WA _ s) as [[[O0 st0] s0']|] eqn:Hcell0;
      [|discriminate].
    unfold ret in Hseed. injection Hseed as _ <-.
    apply (lstm_cell_shape _ _ _ _ _ _ _ _ Hcell0). }
  unfold mbind at 1 in Hlog.
  destruct (dynamic_rnn config (lstm_cell config mode) SA _ (C0, H0) s0)
    as [[[outputs fin] s2]|] eqn:Hdyn; [|discriminate].
  unfold mbind at 1 in Hlog. unfold lift at 1 in Hlog.
  destruct (NN.reshape_rows _ outputs) as [rows|] eqn:Hresh; [|discriminate].
  unfold mbind in Hlog.
  destruct (project_logits config rows s2) as [[L0 s3]|] eqn:Hproj;
    [|discriminate].
  unfold ret in Hlog. injection Hlog as _ _ <- _.
  unfold dynamic_rnn, mbind, lift in Hdyn.
  destruct (NN.swap01 (NN.shape1 SA) SA) as [inputs_tm|] eqn:Hswap_in;
    [|discriminate].
  destruct (Nat.eqb_spec (length (NN.reduce_sum_rows (input_mask feeds))) (length SA))
    as [Hmask|]; [|discriminate].
  unfold NN.reduce_sum_rows in Hmask. rewrite length_map in Hmask.
  destruct (rnn_loop _ inputs_tm 0 _ _ (C0, H0) s0)
    as [[[outs_tm fin'] s2']|] eqn:Hloop; [|discriminate].
  destruct (NN.swap01 (length SA) outs_tm) as [outputs'|] eqn:Hswap_out;
    [|discriminate].
  unfold ret in Hdyn. injection Hdyn as <- _ <-.
  exists SE, inputs_tm, outs_tm, C0, H0, fin', s0, s2'.
  cbv zeta. fold WA SA. fold H.
  repeat (split; [first [assumption | reflexivity]|]).
  set (T := NN.shape1 SA) in *.
  destruct (swap01_entries _ _ _ Hswap_in) as (Hlen_in & _ & _ & _).
  destruct (rnn_loop_shape_any config mode _ _ _ (repeat_rows _ _) _ _ _ _ _ _ Hloop)
    as (Hv2 & Hlen_outs & Hbatch & Hrows_outs).
  destruct (swap01_entries _ _ _ Hswap_out) as (Hlen_out & _ & Hwide & Hent_out).
  assert (Hnarrow : Forall (Forall (fun row : T1 => length row = H)) outputs')
    by (apply (swap01_Forall _ _ _ _ Hswap_out Hrows_outs)).
  assert (Hnu : H <> 0%nat).
  { intros Hzero'. unfold NN.reshape_rows in Hresh. fold H in Hresh.
    rewrite Hzero' in Hresh. discriminate. }
  fold H in Hresh. rewrite (reshape_rows_concat H _ Hnu Hnarrow) in Hresh.
  injection Hresh as <-.
  destruct (project_logits_rows _ _ _ _ _ Hproj) as (_ & HL & _).
  rewrite Hv2, Hv0 in HL. unfold NN.fully_connected in HL.
  assert (Hwide' : Forall (fun l : T2 => length l = T) outputs').
  { eapply Forall_impl; [|exact Hwide]. cbv beta. intros l Hl. lia. }
  intros b t o row Ho Hob.
  assert (Hblt : (b < length outputs')%nat).
  { rewrite Forall_forall in Hbatch.
    pose proof (Hbatch o (nth_error_In _ _ Ho)) as Hol.
    rewrite repeat_length in Hol.
    rewrite Hlen_out, <- Hol. apply nth_error_Some. congruence. }
  destruct (nth_error outputs' b) as [orow|] eqn:Horow;
    [|apply nth_error_None in Horow; lia].
  destruct (Hent_out b t o orow Horow Ho) as (x & Hx & Hxt).
  rewrite Hob in Hx. injection Hx as <-.
  assert (Htlt : (t < T)%nat).
  { rewrite <- Hlen_in, <- Hlen_outs. apply nth_error_Some. congruence. }
  apply (mapM_Some_nth _ _ _ (b * T + t) row HL).
  rewrite (nth_error_concat_uniform T outputs' b t orow Hwide' Horow Htlt).
  exact Hxt.
Qed.

End UnrolledOutputs.

Section ZeroInput.

Local Open Scope R_scope.

Lemma zip_fixes_left (f : R -> R -> R) (acc w acc' : T1) :
  (forall a x, f a x = a) ->
  zipWithM (fun a x => Some (f a x)) acc w = Some acc' -> acc' = acc.
Proof.
  intros Hf. revert w acc'. induction acc as [|a acc IH]; intros [|x w] acc' H;
    simpl in H; try discriminate.
  - injection H as <-. reflexivity.
  - destruct (zipWithM _ acc w) as [r|] eqn:Hr; [|discriminate].
    injection H as <-. rewrite Hf, (IH w r Hr). reflexivity.
Qed.

Lemma matvec_from_zero (n : nat) (W : T2) :
  forall acc y, NN.matvec_from acc (repeat 0 n) W = Some y -> y = acc.
Proof.
  revert W. induction n as [|n IH]; intros [|wk W] acc y Hy; simpl in Hy;
    try discriminate.
  - injection Hy as <-. reflexivity.
  - destruct (zipWithM _ acc wk) as [acc'|] eqn:Hacc; [|discriminate].
    cbn [obind] in Hy.
    rewrite (zip_fixes_left (fun a w => a + 0 * w) acc wk acc') in Hy.
    + apply (IH W acc y Hy).
    + intros; ring.
    + exact Hacc.
Qed.

Lemma zip_fixes_right (acc w r : T1) :
  zipWithM (fun x y => Some (x + y)) (repeat 0 (length w)) w = Some r -> r = w.
Proof.
  revert r. induction w as [|x w IH]; intros r H; simpl in H.
  - injection H as <-. reflexivity.
  - destruct (zipWithM _ (repeat 0 (length w)) w) as [r'|] eqn:Hr; [|discriminate].
    injection H as <-. rewrite (IH r' eq_refl). f_equal. ring.
Qed.

(** A dense layer maps the zero row to its bias. *)
Lemma linear_zero_input (W : T2) (b : T1) (n m : nat) (y : T1) :
  NN.linear W b n (repeat 0 m) = Some y -> y = b.
Proof.
  unfold NN.linear. destruct (Nat.eqb_spec (length b) n) as [<-|]; [|discriminate].
  destruct (NN.matvec_from _ _ W) as [y0|] eqn:Hy0; [|discriminate].
  cbn [obind]. apply matvec_from_zero in Hy0. subst y0.
  unfold NN.add1. apply (zip_fixes_right b).
Qed.

End ZeroInput.

(** X11: in train and eval mode the logits at a padding position (a
    position of an example at or after its number of valid tokens, the sum
    of its mask) are the bias vector of the logits layer: the loop emits
    a zero output there, whatever the tokens, the image and the random
    source are. *)
Theorem padding_positions_yield_the_bias (config : ModelConfig) (mode : Mode)
    (feeds : Feeds) (s s' : Session) (out : Fetches)
    (b t : nat) (tokens mask : list Z) :
  mode <> inference ->
  build_model config mode feeds s = Some (out, s') ->
  nth_error (input_seqs feeds) b = Some tokens ->
  nth_error (input_mask feeds) b = Some mask ->
  (fold_right Z.add 0 mask <= Z.of_nat t)%Z ->
  (t < length tokens)%nat ->
  nth_error (logits out) (b * length tokens + t)
  = Some (logits_biases (variables s)).
Proof.
  intros Hmode Hrun Htok Hmask Hpad Ht.
  destruct (unrolled_outputs config mode feeds s s' out Hmode Hrun)
    as (SE & inputs_tm & outs_tm & C0 & H0 & fin & s0 & s1 & Hrest).
  cbv zeta in Hrest.
  destruct Hrest as (HSE & HlR & HlS & Hseed & Hv0 & Hswap & HlM & Hloop & Hlogit).
  set (SA := map _ (combine SE _)) in *.
  unfold NN.embedding_lookup in HSE.
  destruct (mapM_Some_nth _ _ _ b tokens HSE Htok) as (embs & Hembs & HSEb).
  assert (Hblt : (b < length SE)%nat) by (apply nth_error_Some; congruence).
  destruct (nth_error (image_embeddings feeds) b) as [image|] eqn:Himg;
    [|apply nth_error_None in Himg; lia].
  assert (HSAb : nth_error SA b = Some (map (fun w => w ++ image) embs))
    by (apply (nth_error_map_combine
                 (fun p : T2 * T1 => map (fun w => w ++ snd p) (fst p)));
        assumption).
  destruct (swap01_entries _ _ _ Hswap) as (Hlen_in & Hrect & _ & _).
  assert (HT : NN.shape1 SA = length tokens).
  { rewrite Forall_forall in Hrect.
    rewrite <- (Hrect _ (nth_error_In _ _ HSAb)), length_map.
    apply (mapM_Some_length _ _ _ Hembs). }
  destruct (rnn_loop_shape_any config mode _ _ _ (repeat_rows _ _) _ _ _ _ _ _ Hloop)
    as (_ & Hlen_outs & Hbatch & _).
  destruct (nth_error outs_tm t) as [o|] eqn:Ho;
    [|apply nth_error_None in Ho; lia].
  assert (HlSA : length SA = length SE)
    by (unfold SA; rewrite length_map, length_combine; lia).
  assert (Hzero : nth_error (repeat (repeat 0%R (num_lstm_units config)) (length SA)) b
                  = Some (repeat 0%R (num_lstm_units config)))
    by (apply nth_error_repeat; lia).
  assert (Hob : nth_error o b = Some (repeat 0%R (num_lstm_units config))).
  { apply (rnn_loop_padding _ _ _ b _ _
             ltac:(unfold NN.reduce_sum_rows; rewrite nth_error_map, Hmask; reflexivity)
             Hzero _ _ _ _ _ _ _ Hloop t o Ho).
    simpl. exact Hpad. }
  destruct (Hlogit b t o _ Ho Hob) as (lg & Hlg & Hnth).
  rewrite HT in Hnth. rewrite Hnth.
  rewrite (linear_zero_input _ _ _ _ _ Hlg). reflexivity.
Qed.

Lemma padding_positions_yield_the_bias_witness :
  exists out s',
    build_model tiny_config eval tiny_feeds tiny_session = Some (out, s') /\
    nth_error (logits out) (0 * length [0; 1]%Z + 1)
    = Some (logits_biases (variables tiny_session)).
Proof.
  destruct (build_model tiny_config eval tiny_feeds tiny_session)
    as [[out s']|] eqn:Hrun; [|run_is_defined Hrun].
  exists out, s'. split; [reflexivity|].
  apply (padding_positions_yield_the_bias tiny_config eval tiny_feeds
           tiny_session s' out 0 1 [0; 1]%Z [1; 0]%Z).
  - discriminate.
  - exact Hrun.
  - reflexivity.
  - reflexivity.
  - simpl. lia.
  - simpl. lia.
Defined.

(** ** One example at a time *)

Lemma row_run_firstn (cell : T1 -> T1 * T1 -> option (T1 * (T1 * T1))) (n : nat) :
  forall xs st outs,
    row_run cell xs st = Some outs ->
    row_run cell (firstn n xs) st = Some (firstn n outs).
Proof.
  induction n as [|n IH]; intros xs st outs H; [reflexivity|].
  destruct xs as [|x xs]; simpl in H.
  - injection H as <-. reflexivity.
  - destruct (cell x st) as [[out st']|] eqn:Hcell; [|discriminate].
    cbn [obind] in H.
    destruct (row_run cell xs st') as [rest|] eqn:Hrest; [|discriminate].
    injection H as <-. cbn [firstn row_run]. rewrite Hcell. cbn [obind].
    rewrite (IH xs st' rest Hrest). reflexivity.
Qed.

Lemma example_logits_firstn (config : ModelConfig) (vars : Variables)
    (image region : T1) (tokens : list Z) (rows : list T1) (n : nat) :
  example_logits config vars image region tokens = Some rows ->
  example_logits config vars image region (firstn n tokens) = Some (firstn n rows).
Proof.
  unfold example_logits.
  destruct (mapM _ tokens) as [embs|] eqn:Hembs; [|discriminate]. cbn [obind].
  destruct (NN.BasicLSTMCell_row _ _ _ _ _) as [[o0 seed]|]; [|discriminate].
  cbn [obind].
  destruct (row_run _ _ seed) as [outs|] eqn:Houts; [|discriminate]. cbn [obind].
  intros Hrows.
  rewrite (mapM_firstn _ n _ _ Hembs). cbn [obind].
  rewrite <- firstn_map, (row_run_firstn _ n _ _ _ Houts). cbn [obind].
  apply mapM_firstn. exact Hrows.
Qed.

Section PerExample.

Variable config : ModelConfig.

(** The unrolled run in eval mode computes, at the valid positions of every
    example, the logits of that example decoded on its own. *)
Lemma unrolled_rows_are_example_logits (feeds : Feeds) (s s' : Session)
    (out : Fetches) (b : nat) (image region : T1) (tokens mask : list Z) :
  build_model config eval feeds s = Some (out, s') ->
  nth_error (image_embeddings feeds) b = Some image ->
  nth_error (region_aspect_embeddings feeds) b = Some region ->
  nth_error (input_seqs feeds) b = Some tokens ->
  nth_error (input_mask feeds) b = Some mask ->
  let valid := Z.to_nat (fold_right Z.add 0%Z mask) in
  exists rows,
    example_logits config (variables s) image region (firstn valid tokens)
    = Some rows /\
    length rows = Nat.min valid (length tokens) /\
    forall t lg, nth_error rows t = Some lg ->
      nth_error (logits out) (b * length tokens + t) = Some lg.
Proof.
  intros Hrun Himg Hreg Htok Hmask valid.
  destruct (unrolled_outputs config eval feeds s s' out ltac:(discriminate) Hrun)
    as (SE & inputs_tm & outs_tm & C0 & H0 & fin & s0 & s1 & Hrest).
  cbv zeta in Hrest.
  destruct Hrest as (HSE & HlR & HlS & Hseed & Hv0 & Hswap & HlM & Hloop & Hlogit).
  set (SA := map _ (combine SE _)) in *.
  set (WA := map _ (combine (image_embeddings feeds) _)) in *.
  set (nu := num_lstm_units config) in *.
  unfold NN.embedding_lookup in HSE.
  destruct (mapM_Some_nth _ _ _ b tokens HSE Htok) as (embs & Hembs & HSEb).
  assert (HWAb : nth_error WA b = Some (image ++ region))
    by (apply (nth_error_map_combine (fun p => fst p ++ snd p)); assumption).
  assert (HSAb : nth_error SA b = Some (map (fun w => w ++ image) embs))
    by (apply (nth_error_map_combine
                 (fun p => map (fun w => w ++ snd p) (fst p))); assumption).
  (* the seed *)
  unfold seed_state, mbind in Hseed.
  rewrite lstm_cell_without_dropout in Hseed by discriminate.
  destruct (NN.BasicLSTMCell _ _ _ WA _) as [[O0 [C0' H0']]|] eqn:Hcell0;
    [|discriminate].
  cbn [option_map] in Hseed. unfold ret in Hseed.
  injection Hseed as <- <- <-.
  assert (Hb : (b < length (image_embeddings feeds))%nat)
    by (apply nth_error_Some; congruence).
  unfold NN.zero_state in Hcell0.
  destruct (BasicLSTMCell_rows _ _ _ _ _ _ _ _ _ Hcell0)
    as (_ & _ & _ & _ & _ & Hrow0).
  destruct (Hrow0 b (image ++ region) (repeat 0%R nu) (repeat 0%R nu) HWAb
              (nth_error_repeat _ Hb) (nth_error_repeat _ Hb))
    as (o0 & c0 & h0 & Hseed_row & _ & HC0b & HH0b).
  clear Hrow0.
  (* the loop *)
  destruct (swap01_entries _ _ _ Hswap) as (Hlen_in & Hrect & _ & Hent_in).
  assert (HT : length tokens = NN.shape1 SA).
  { rewrite Forall_forall in Hrect.
    rewrite <- (Hrect _ (nth_error_In _ _ HSAb)), length_map.
    symmetry. apply (mapM_Some_length _ _ _ Hembs). }
  assert (Hxs : Forall2 (fun inp x => nth_error inp b = Some x) inputs_tm
                  (map (fun w => w ++ image) embs)).
  { apply Forall2_of_nth.
    - rewrite Hlen_in, length_map, <- HT.
      symmetry. apply (mapM_Some_length _ _ _ Hembs).
    - intros k inp x Hk Hx.
      destruct (Hent_in k b _ inp Hk HSAb) as (x' & Hx' & Hinp). congruence. }
  assert (Hlenb : nth_error (NN.reduce_sum_rows (input_mask feeds)) b
                  = Some (fold_right Z.add 0%Z mask))
    by (unfold NN.reduce_sum_rows; rewrite nth_error_map, Hmask; reflexivity).
  destruct (rnn_loop_row config s b _ _ _ Hlenb _ _ _ _ _ _ _ _ c0 h0
              Hloop HC0b HH0b Hxs) as (row_outs & Hrr & Hnth).
  replace (Z.to_nat (fold_right Z.add 0%Z mask - Z.of_nat 0)) with valid in Hrr
    by (unfold valid; lia).
  rewrite firstn_map in Hrr.
  destruct (mapM_defined
              (NN.linear (logits_weights (variables s)) (logits_biases (variables s))
                 (vocab_size config)) row_outs) as (rows & Hrows).
  { intros r Hr. apply In_nth_error in Hr. destruct Hr as (k & Hk).
    destruct (Hnth k r Hk) as (o & Ho & Hob).
    destruct (Hlogit b k o r Ho Hob) as (lg & Hlg & _). congruence. }
  subst nu. exists rows. split; [|split].
  - unfold example_logits. cbv zeta.
    rewrite (mapM_firstn _ valid _ _ Hembs). cbn [obind].
    rewrite Hseed_row. cbn [obind]. rewrite Hrr. cbn [obind].
    exact Hrows.
  - rewrite (mapM_Some_length _ _ _ Hrows), (row_run_length _ _ _ _ Hrr).
    rewrite length_map, length_firstn, (mapM_Some_length _ _ _ Hembs). reflexivity.
  - intros t lg Hlg.
    assert (Htlt : (t < length row_outs)%nat).
    { rewrite <- (mapM_Some_length _ _ _ Hrows). apply nth_error_Some. congruence. }
    destruct (nth_error row_outs t) as [r|] eqn:Hr;
      [|apply nth_error_None in Hr; lia].
    destruct (mapM_Some_nth _ _ _ t r Hrows Hr) as (lg' & Hlg' & Hlgt).
    destruct (Hnth t r Hr) as (o & Ho & Hob).
    destruct (Hlogit b t o r Ho Hob) as (lg'' & Hlg'' & HL).
    rewrite HT, HL. congruence.
Qed.

End PerExample.

(** X12: in eval mode the logits at a valid position [t] of an example are
    determined by its image embedding, its region embedding and its tokens
    up to [t]: two runs on the same variables (batches of any sizes and
    padded lengths, the example at any place in them, any later tokens,
    any other examples) return the same logits for it there. *)
Theorem logits_depend_on_the_example_prefix (config : ModelConfig) (s s1 s2 : Session)
    (feeds feeds' : Feeds) (out out' : Fetches) (b b' t : nat)
    (image region : T1) (tokens tokens' mask mask' : list Z) :
  build_model config eval feeds s = Some (out, s1) ->
  build_model config eval feeds' s = Some (out', s2) ->
  nth_error (image_embeddings feeds) b = Some image ->
  nth_error (image_embeddings feeds') b' = Some image ->
  nth_error (region_aspect_embeddings feeds) b = Some region ->
  nth_error (region_aspect_embeddings feeds') b' = Some region ->
  nth_error (input_seqs feeds) b = Some tokens ->
  nth_error (input_seqs feeds') b' = Some tokens' ->
  nth_error (input_mask feeds) b = Some mask ->
  nth_error (input_mask feeds') b' = Some mask' ->
  firstn (S t) tokens = firstn (S t) tokens' ->
  (Z.of_nat t < fold_right Z.add 0 mask)%Z ->
  (Z.of_nat t < fold_right Z.add 0 mask')%Z ->
  (t < length tokens)%nat -> (t < length tokens')%nat ->
  exists lg,
    nth_error (logits out) (b * length tokens + t) = Some lg /\
    nth_error (logits out') (b' * length tokens' + t) = Some lg.
Proof.
  intros Hrun Hrun' Himg Himg' Hreg Hreg' Htok Htok' Hmask Hmask' Hpre Hv Hv' Ht Ht'.
  destruct (unrolled_rows_are_example_logits config feeds s s1 out b image region
              tokens mask Hrun Himg Hreg Htok Hmask) as (rows & Hrows & Hlen & Hnth).
  destruct (unrolled_rows_are_example_logits config feeds' s s2 out' b' image region
              tokens' mask' Hrun' Himg' Hreg' Htok' Hmask')
    as (rows' & Hrows' & Hlen' & Hnth').
  apply (example_logits_firstn _ _ _ _ _ _ (S t)) in Hrows, Hrows'.
  rewrite firstn_firstn in Hrows, Hrows'.
  rewrite Nat.min_l in Hrows, Hrows' by lia.
  assert (Heq : firstn (S t) rows = firstn (S t) rows') by congruence.
  assert (Htr : (t < length rows)%nat) by lia.
  destruct (nth_error rows t) as [lg|] eqn:Hlg; [|apply nth_error_None in Hlg; lia].
  exists lg. split; [apply Hnth, Hlg|]. apply Hnth'.
  assert (Hcut : forall l : list T1,
            nth_error (firstn (S t) l) t = nth_error l t).
  { intros l. rewrite nth_error_firstn.
    destruct (Nat.ltb_spec t (S t)); [reflexivity | lia]. }
  rewrite <- (Hcut rows'), <- Heq, Hcut. exact Hlg.
Qed.

Lemma logits_depend_on_the_example_prefix_witness :
  exists out out' s1 s2,
    build_model tiny_config eval tiny_feeds tiny_session = Some (out, s1) /\
    build_model tiny_config eval other_feeds tiny_session = Some (out', s2) /\
    exists lg,
      nth_error (logits out) (0 * length [0; 1]%Z + 0) = Some lg /\
      nth_error (logits out') (0 * length [0; 0]%Z + 0) = Some lg.
Proof.
  destruct (build_model tiny_config eval tiny_feeds tiny_session)
    as [[out s1]|] eqn:Hrun; [|run_is_defined Hrun].
  destruct (build_model tiny_config eval other_feeds tiny_session)
    as [[out' s2]|] eqn:Hrun'; [|run_is_defined Hrun'].
  exists out, out', s1, s2. split; [reflexivity|]. split; [reflexivity|].
  apply (logits_depend_on_the_example_prefix tiny_config tiny_session s1 s2
           tiny_feeds other_feeds out out' 0 0 0 [1]%R [1]%R
           [0; 1]%Z [0; 0]%Z [1; 0]%Z [1; 1]%Z Hrun Hrun');
    try reflexivity; simpl; lia.
Defined.

(** ** The drivers: short hypotheses, failures, progress, patterns *)

Lemma slice_inner {A : Type} (l : list A) :
  Py.slice (Some 1%Z) (Some (-1)%Z) l = removelast (tl l).
Proof.
  unfold Py.slice, Py.bound.
  destruct l as [|a l]; [reflexivity|].
  cbn [tl]. 
  replace (-1 <? 0)%Z with true by reflexivity.
  replace (1 <? 0)%Z with false by reflexivity.
  rewrite Z.min_l by (simpl length; lia).
  change (Z.to_nat 1) with 1%nat. cbn [skipn].
  replace (Z.to_nat (Z.max (-1 + Z.of_nat (length (a :: l))) 0 - 1)) with (length l - 1)%nat
    by (simpl length; lia).
  induction l as [|b l IH] using rev_ind; [reflexivity|].
  rewrite removelast_last, length_app. simpl.
  rewrite Nat.add_sub. rewrite firstn_app, firstn_all, Nat.sub_diag. simpl. apply app_nil_r.
Qed.

Lemma succ_mod_ten (k : nat) :
  ((Z.of_nat k + 1) mod 10 = Z.of_nat (S k mod 10))%Z.
Proof. rewrite Nat2Z.inj_mod, Nat2Z.inj_succ. reflexivity. Qed.

Section DriverEdges.

Variable id_to_word : Z -> string.
Variable beam_search : string -> list Caption.
Variable read_file : string -> option string.
Variable basename : string -> string.
Variable path_join : string -> string -> string.
Variable image_dir : string.
Variable img_objs : list ImgObj.
Variable eval_num : Z.

Let round :=
  create_results_round id_to_word beam_search read_file path_join image_dir
    img_objs eval_num.
Let record :=
  record_of id_to_word beam_search read_file path_join image_dir.
Let total := Z.min (Z.of_nat (length img_objs)) eval_num.

Lemma rounds_after_exception (idxs : list nat) :
  fold_left round idxs None = None.
Proof. induction idxs as [|i idxs IH]; [reflexivity | exact IH]. Qed.

(** One round appends the record of image [i], and a progress line when
    [i + 1] is a multiple of ten. *)
Lemma round_spec (i : nat) (result : list CaptionRecord) (printed : list Line) :
  round (Some (result, printed)) i
  = match nth_error img_objs i with
    | Some img =>
        match record img with
        | Some r =>
            Some (result ++ [r],
                  if ((Z.of_nat i + 1) mod 10 =? 0)%Z
                  then printed ++ [Progress (Z.of_nat i + 1) total]
                  else printed)
        | None => None
        end
    | None => None
    end.
Proof.
  unfold round, create_results_round, record, record_of. cbn [obind].
  destruct (nth_error img_objs i) as [img|]; [|reflexivity]. cbn [obind].
  destruct (read_file _) as [image|]; [|reflexivity]. cbn [obind].
  destruct (nth_error (beam_search image) 0) as [c|]; reflexivity.
Qed.

Lemma progress_lines_succ (k : nat) :
  progress_lines total (S k)
  = if ((Z.of_nat k + 1) mod 10 =? 0)%Z
    then progress_lines total k ++ [Progress (Z.of_nat k + 1) total]
    else progress_lines total k.
Proof.
  unfold progress_lines.
  destruct (Z.eqb_spec ((Z.of_nat k + 1) mod 10) 0) as [Hz|Hnz].
  - assert (Hd : (S k / 10 = S (k / 10))%nat).
    { pose proof (Nat.div_mod_eq (S k) 10). pose proof (Nat.div_mod_eq k 10).
      pose proof (Nat.mod_upper_bound (S k) 10 ltac:(lia)).
      pose proof (Nat.mod_upper_bound k 10 ltac:(lia)).
      pose proof (succ_mod_ten k). lia. }
    rewrite Hd, seq_S, map_app. cbn [map Nat.add]. do 3 f_equal.
    pose proof (Nat.div_mod_eq (S k) 10).
    pose proof (succ_mod_ten k). lia.
  - assert (Hd : (S k / 10 = k / 10)%nat).
    { pose proof (Nat.div_mod_eq (S k) 10). pose proof (Nat.div_mod_eq k 10).
      pose proof (Nat.mod_upper_bound (S k) 10 ltac:(lia)).
      pose proof (Nat.mod_upper_bound k 10 ltac:(lia)).
      pose proof (succ_mod_ten k). lia. }
    rewrite Hd. reflexivity.
Qed.

(** The state of the loop after [k] rounds. *)
Lemma rounds_state (k : nat) :
  fold_left round (seq 0 k) (Some ([], []))
  = match mapM record (firstn k img_objs) with
    | Some records =>
        if (k <=? length img_objs)%nat then Some (records, progress_lines total k)
        else None
    | None => None
    end.
Proof.
  induction k as [|k IH]; [reflexivity|].
  rewrite seq_S, fold_left_app, IH. cbn [Nat.add fold_left].
  destruct (nth_error img_objs k) as [img|] eqn:Himg.
  - assert (Hk : (k < length img_objs)%nat) by (apply nth_error_Some; congruence).
    rewrite (firstn_succ_snoc _ _ _ Himg).
    destruct (Nat.leb_spec k (length img_objs)); [|lia].
    destruct (Nat.leb_spec (S k) (length img_objs)); [|lia].
    destruct (mapM record (firstn k img_objs)) as [rs|] eqn:Hrs.
    + rewrite round_spec, Himg.
      destruct (record img) as [r|] eqn:Hr.
      * rewrite (mapM_app_Some _ _ _ _ [r] Hrs) by (simpl; rewrite Hr; reflexivity).
        rewrite progress_lines_succ. reflexivity.
      * rewrite mapM_app_None_r; [reflexivity|]. simpl. rewrite Hr. reflexivity.
    + rewrite mapM_app_None_l by exact Hrs. reflexivity.
  - pose proof Himg as Hnone. apply nth_error_None in Hnone.
    destruct (Nat.leb_spec (S k) (length img_objs)); [lia|].
    rewrite firstn_all2 by lia.
    rewrite (firstn_all2 (n := S k)) by lia.
    destruct (mapM record img_objs) as [rs|]; [|reflexivity].
    destruct (Nat.leb_spec k (length img_objs)); [|reflexivity].
    rewrite round_spec, Himg. reflexivity.
Qed.

End DriverEdges.

Section CreateResults.

Variable id_to_word : Z -> string.
Variable beam_search : string -> list Caption.
Variable read_file : string -> option string.
Variable basename : string -> string.
Variable path_join : string -> string -> string.
Variable image_dir : string.
Variable img_objs : list ImgObj.
Variable eval_num : Z.

Lemma create_results_state :
  let total := Z.min (Z.of_nat (length img_objs)) eval_num in
  create_results id_to_word beam_search read_file path_join image_dir
    img_objs eval_num
  = match mapM (record_of id_to_word beam_search read_file path_join image_dir)
            (firstn (Z.to_nat total) img_objs) with
    | Some records =>
        Some (records, progress_lines total (Z.to_nat total))
    | None => None
    end.
Proof.
  intros total. unfold create_results, Py.range. fold total.
  rewrite rounds_state.
  destruct (mapM _ _) as [records|]; [|reflexivity].
  destruct (Nat.leb_spec (Z.to_nat total) (length img_objs)); [reflexivity|].
  unfold total in *. lia.
Qed.

End CreateResults.

(** X13: [create_results] writes all records or none: when one of the
    images it is to caption cannot be read, or the beam search returns no
    caption for it, the loop raises before [json.dump] is reached, whatever
    was collected for the images before it. *)
Theorem create_results_fails_as_a_whole
    (id_to_word : Z -> string) (beam_search : string -> list Caption)
    (read_file : string -> option string)
    (path_join : string -> string -> string)
    (image_dir : string) (img_objs : list ImgObj) (eval_num : Z) (img : ImgObj) :
  In img (firstn (Z.to_nat (Z.min (Z.of_nat (length img_objs)) eval_num)) img_objs) ->
  (read_file (path_join image_dir (file_name img)) = None \/
   exists image, read_file (path_join image_dir (file_name img)) = Some image /\
                 beam_search image = []) ->
  create_results id_to_word beam_search read_file path_join image_dir
    img_objs eval_num = None.
Proof.
  intros Hin Hbad. rewrite create_results_state. cbv zeta.
  rewrite (mapM_None_In _ _ img Hin); [reflexivity|].
  unfold record_of. destruct Hbad as [->|(image & -> & Hbeam)]; [reflexivity|].
  cbn [obind]. rewrite Hbeam. reflexivity.
Qed.

Lemma create_results_fails_as_a_whole_witness :
  create_results two_words one_hypothesis all_but_b in_current_directory
    "val" two_images 5 = None.
Proof.
  apply (create_results_fails_as_a_whole two_words one_hypothesis all_but_b
           in_current_directory "val"%string two_images 5
           {| file_name := "b.jpg"; id := 9%Z |}).
  - simpl. right. left. reflexivity.
  - left. reflexivity.
Defined.

(** X14: a run of [create_results] that writes its records has printed
    one progress line for every tenth image and nothing else: the lines
    "10 in total", "20 in total", ..., up to the last multiple of ten that
    is at most [total = min(len(img_objs), eval_num)]. *)
Theorem create_results_progress_lines
    (id_to_word : Z -> string) (beam_search : string -> list Caption)
    (read_file : string -> option string)
    (path_join : string -> string -> string)
    (image_dir : string) (img_objs : list ImgObj) (eval_num : Z)
    (records : list CaptionRecord) (printed : list Line) :
  create_results id_to_word beam_search read_file path_join image_dir
    img_objs eval_num = Some (records, printed) ->
  let total := Z.min (Z.of_nat (length img_objs)) eval_num in
  printed = map (fun j => Progress (10 * (Z.of_nat j + 1)) total)
                (seq 0 (Z.to_nat total / 10)).
Proof.
  intros Hrun total. rewrite create_results_state in Hrun. cbv zeta in Hrun.
  destruct (mapM _ _) as [rs|]; [|discriminate].
  injection Hrun as _ <-. reflexivity.
Qed.

Lemma create_results_progress_lines_witness :
  exists records printed,
    create_results two_words one_hypothesis every_file String.append "val/"
      twelve_images 11 = Some (records, printed) /\
    printed = map (fun j => Progress (10 * (Z.of_nat j + 1)) 11) (seq 0 1).
Proof.
  destruct (create_results two_words one_hypothesis every_file String.append
              "val/" twelve_images 11) as [[records printed]|] eqn:Hrun.
  - exists records, printed. split; [reflexivity|].
    apply (create_results_progress_lines two_words one_hypothesis every_file
             String.append "val/"%string twelve_images 11 records printed Hrun).
  - run_is_defined Hrun.
Defined.

Section RunInference.

Variable id_to_word : Z -> string.
Variable beam_search : string -> list Caption.
Variable read_file : string -> option string.
Variable basename : string -> string.

Lemma run_inference_app (pre rest : list string) :
  Forall (fun f => read_file f <> None) pre ->
  run_inference id_to_word beam_search read_file basename (pre ++ rest)
  = (fst (run_inference id_to_word beam_search read_file basename pre)
       ++ fst (run_inference id_to_word beam_search read_file basename rest),
     snd (run_inference id_to_word beam_search read_file basename rest)).
Proof.
  induction 1 as [|f pre Hf _ IH]; cbn [app run_inference].
  - destruct (run_inference _ _ _ _ rest); reflexivity.
  - destruct (read_file f) as [image|]; [|congruence].
    rewrite IH.
    destruct (run_inference _ _ _ _ pre) as [lines fin].
    cbn [fst snd]. rewrite app_assoc. reflexivity.
Qed.

End RunInference.

(** X15: [run_inference] stops at the first file it cannot read: the
    lines of the files before it are printed in full, nothing is printed
    for that file or for any file after it, and the loop does not run to
    its end. *)
Theorem run_inference_stops_at_unreadable_file
    (id_to_word : Z -> string) (beam_search : string -> list Caption)
    (read_file : string -> option string) (basename : string -> string)
    (pre rest : list string) (bad : string) :
  Forall (fun f => read_file f <> None) pre ->
  read_file bad = None ->
  run_inference id_to_word beam_search read_file basename (pre ++ bad :: rest)
  = (fst (run_inference id_to_word beam_search read_file basename pre), false).
Proof.
  intros Hpre Hbad. rewrite run_inference_app by exact Hpre.
  cbn [run_inference]. rewrite Hbad. cbn [fst snd]. rewrite app_nil_r. reflexivity.
Qed.

Lemma run_inference_stops_at_unreadable_file_witness :
  run_inference two_words one_hypothesis all_but_b (fun f => f)
    (["a.jpg"%string] ++ "b.jpg"%string :: ["c.jpg"%string])
  = (fst (run_inference two_words one_hypothesis all_but_b (fun f => f)
            ["a.jpg"%string]), false).
Proof.
  apply (run_inference_stops_at_unreadable_file two_words one_hypothesis
           all_but_b (fun f => f) ["a.jpg"%string] ["c.jpg"%string]
           "b.jpg"%string).
  - repeat constructor; discriminate.
  - reflexivity.
Defined.

Lemma split_on_nonempty (sep : ascii) (s : string) : split_on sep s <> [].
Proof.
  destruct s as [|c s]; simpl; [discriminate|].
  destruct (Ascii.eqb c sep); [discriminate|].
  destruct (split_on sep s); discriminate.
Qed.

Lemma split_on_free (sep : ascii) (s : string) :
  occurs sep s = false -> split_on sep s = [s].
Proof.
  induction s as [|c s IH]; simpl; intros H; [reflexivity|].
  apply orb_false_iff in H. destruct H as (Hc & Hs).
  rewrite Hc, (IH Hs). reflexivity.
Qed.

Lemma split_on_app (sep : ascii) (p rest : string) :
  occurs sep p = false ->
  split_on sep (p ++ String sep rest) = p :: split_on sep rest.
Proof.
  induction p as [|c p IH]; simpl; intros H.
  - rewrite Ascii.eqb_refl. reflexivity.
  - apply orb_false_iff in H. destruct H as (Hc & Hp).
    rewrite Hc, (IH Hp). reflexivity.
Qed.

Lemma split_on_join (sep : ascii) (pieces : list string) :
  pieces <> [] ->
  Forall (fun p => occurs sep p = false) pieces ->
  split_on sep (Py.join (String sep EmptyString) pieces) = pieces.
Proof.
  intros Hne Hfree. induction Hfree as [|p pieces Hp Hrest IH]; [congruence|].
  destruct pieces as [|q pieces].
  - simpl. apply split_on_free, Hp.
  - change (Py.join (String sep EmptyString) (p :: q :: pieces))
      with (p ++ String sep EmptyString ++ Py.join (String sep EmptyString) (q :: pieces))%string.
    cbn [String.append].
    rewrite split_on_app by exact Hp.
    rewrite IH by discriminate. reflexivity.
Qed.

Lemma join_split_on (sep : ascii) (s : string) :
  Py.join (String sep EmptyString) (split_on sep s) = s.
Proof.
  induction s as [|c s IH]; [reflexivity|].
  cbn [split_on]. pose proof (split_on_nonempty sep s) as Hne.
  destruct (Ascii.eqb_spec c sep) as [->|Hc].
  - destruct (split_on sep s) as [|q qs]; [congruence|].
    change (Py.join (String sep EmptyString) (EmptyString :: q :: qs))
      with ((EmptyString ++ String sep EmptyString
             ++ Py.join (String sep EmptyString) (q :: qs)))%string.
    cbn [String.append]. rewrite IH. reflexivity.
  - destruct (split_on sep s) as [|q qs]; [congruence|].
    destruct qs as [|q' qs].
    + simpl in *. rewrite IH. reflexivity.
    + change (Py.join (String sep EmptyString) (String c q :: q' :: qs))
        with ((String c q ++ String sep EmptyString
               ++ Py.join (String sep EmptyString) (q' :: qs)))%string.
      change (Py.join (String sep EmptyString) (q :: q' :: qs))
        with ((q ++ String sep EmptyString
               ++ Py.join (String sep EmptyString) (q' :: qs)))%string in IH.
      cbn [String.append] in *. rewrite IH. reflexivity.
Qed.

Lemma split_on_pieces_free (sep : ascii) (s : string) :
  Forall (fun p => occurs sep p = false) (split_on sep s).
Proof.
  induction s as [|c s IH]; cbn [split_on].
  - repeat constructor.
  - destruct (Ascii.eqb c sep) eqn:Hc.
    + constructor; [reflexivity | exact IH].
    + destruct (split_on sep s) as [|q qs]; [repeat constructor; simpl; rewrite Hc; reflexivity|].
      inversion IH; subst. constructor; [|assumption].
      simpl. rewrite Hc. assumption.
Qed.

(** X16: the flag [input_files] is read as a comma-separated list of
    patterns: for patterns without a comma (at least one), joined by
    commas, the files captioned are the matches of the first pattern, then
    those of the second, and so on; and whatever the flag holds, its
    pieces have no comma and joined by commas give the flag back. *)
Theorem input_files_are_comma_separated_patterns
    (glob : string -> list string) :
  (forall patterns,
     patterns <> [] ->
     Forall (fun p => occurs "," p = false) patterns ->
     gather_filenames glob (Py.join "," patterns) = flat_map glob patterns)
  /\ (forall input_files,
        Py.join "," (split_on "," input_files) = input_files /\
        Forall (fun p => occurs "," p = false) (split_on "," input_files)).
Proof.
  split.
  - intros patterns Hne Hfree. unfold gather_filenames.
    rewrite split_on_join by assumption. reflexivity.
  - intros input_files. split; [apply join_split_on | apply split_on_pieces_free].
Qed.

Lemma input_files_are_comma_separated_patterns_witness :
  gather_filenames (fun pattern => [pattern])
    (Py.join "," ["test1.jpg"; "test?.png"]%string)
  = flat_map (fun pattern => [pattern]) ["test1.jpg"; "test?.png"]%string.
Proof.
  apply (proj1 (input_files_are_comma_separated_patterns
                  (fun pattern => [pattern]))
           ["test1.jpg"; "test?.png"]%string).
  - discriminate.
  - repeat constructor.
Defined.

(** X17: for a hypothesis of any length, both drivers join the words of
    the tokens that remain when the first and the last are removed; a
    hypothesis of two tokens or fewer (none at all included) gives the
    empty string, without an error. *)
Theorem caption_words_are_the_inner_tokens (id_to_word : Z -> string) :
  (forall c, joined_sentence id_to_word c
             = Py.join " " (map id_to_word (removelast (tl (sentence c)))))
  /\ (forall c, (length (sentence c) <= 2)%nat ->
        joined_sentence id_to_word c = EmptyString).
Proof.
  assert (H : forall c, joined_sentence id_to_word c
             = Py.join " " (map id_to_word (removelast (tl (sentence c))))).
  { intros c. unfold joined_sentence. rewrite slice_inner. reflexivity. }
  split; [exact H|].
  intros c Hlen. rewrite H.
  destruct (sentence c) as [|a [|b [|d l]]]; try reflexivity.
  simpl in Hlen. lia.
Qed.

Lemma caption_words_are_the_inner_tokens_witness :
  joined_sentence two_words (mkCaption [1]%Z 0%R) = EmptyString.
Proof.
  apply (proj2 (caption_words_are_the_inner_tokens two_words)
           (mkCaption [1]%Z 0%R)).
  simpl. lia.
Defined.

(** ** The whole graph *)

Lemma fully_connected_without_biases_defined (W : T2) (n D : nat) (inputs : T2) :
  length W = D -> rows_of_width n W -> rows_of_width D inputs ->
  exists out,
    fully_connected_without_biases W n inputs = Some out /\
    length out = length inputs /\ rows_of_width n out.
Proof.
  intros HW HWn Hin. unfold fully_connected_without_biases.
  apply mapM_defined_with. intros x Hx.
  unfold rows_of_width in Hin. rewrite Forall_forall in Hin.
  apply matvec_from_defined; [apply repeat_length | rewrite (Hin x Hx); lia | exact HWn].
Qed.

Lemma reshape_like_same_shape (n : nat) (t like : T2) :
  length t = length like -> rows_of_width n t -> rows_of_width n like ->
  reshape_like t like = Some t.
Proof.
  intros Hlen Ht Hlike. unfold reshape_like.
  destruct (chunks_concat n t Ht) as (Hchunks & Hflat).
  destruct (uniform_shape1 n like Hlike) as (_ & Hshape).
  replace (length (concat t) =? length like * NN.shape1 like)%nat with true
    by (symmetry; apply Nat.eqb_eq; lia).
  destruct like as [|row like].
  - destruct t; [reflexivity | discriminate].
  - pose proof (Forall_inv Hlike) as Hrow. cbv beta in Hrow.
    cbn [NN.shape1]. rewrite <- Hlen, Hrow, Hchunks. reflexivity.
Qed.

Section BuildFacts.

Variable Image : Type.
Variable process_image : bool -> string -> Image.
Variable inception_v3 : bool -> list Image -> T2.
Variable region_inception_v3 : bool -> list Image -> T2.
Variable resize_300x300 : Image -> Image.
Variable ssd : list Image -> T3.
Variable crop : Image -> T1 -> Image.
Variable config : ModelConfig.
Variable image_variables : ImageVariables.

Let E := embedding_size config.

(** The networks answer every batch with one row per image, of the width
    the embedding layer expects. *)
Variable D D' : nat.
Hypothesis inception_rows :
  forall flag images,
    length (inception_v3 flag images) = length images /\
    rows_of_width D (inception_v3 flag images).
Hypothesis region_inception_rows :
  forall flag images,
    length (region_inception_v3 flag images) = length images /\
    rows_of_width D' (region_inception_v3 flag images).
Hypothesis image_weights :
  length (image_embedding_weights image_variables) = D /\
  rows_of_width E (image_embedding_weights image_variables).
Hypothesis region_weights :
  length (region_embedding_weights image_variables) = D' /\
  rows_of_width E (region_embedding_weights image_variables).

Lemma build_embeddings_defined (mode : Mode) (images : list Image)
    (dets : list (list Candidate)) :
  ssd (map resize_300x300 images) = map (map pack) dets ->
  length dets = length images ->
  Forall (fun row => row <> []) dets ->
  Forall (Forall (fun c => cand_conf c <> [])) dets ->
  exists image_embeddings region_aspect_embeddings,
    build_image_embeddings Image inception_v3 config image_variables mode images
    = Some image_embeddings /\
    build_region_aspect_embeddings Image region_inception_v3 resize_300x300 ssd
      crop config image_variables mode images image_embeddings
    = Some region_aspect_embeddings /\
    length image_embeddings = length images /\
    rows_of_width E image_embeddings /\
    length region_aspect_embeddings = length images /\
    rows_of_width E region_aspect_embeddings.
Proof.
  intros Hssd Hlen Hrows Hconf.
  destruct (inception_rows (is_training mode) images) as (Hil & Hiw).
  destruct image_weights as (HWl & HWw).
  destruct (fully_connected_without_biases_defined _ E D _ HWl HWw Hiw)
    as (ie & Hie & Hiel & Hiew).
  destruct (build_image_ssd_embeddings_picks Image resize_300x300 ssd crop
              images dets Hssd Hlen Hrows Hconf) as (picks & Hbest & Hout).
  pose proof (Forall2_length Hbest) as Hpl.
  set (regions := map _ (combine _ (map resize_300x300 images))) in Hout.
  assert (Hrl : length regions = length images).
  { unfold regions. rewrite length_map, length_combine, !length_map. lia. }
  destruct (region_inception_rows (is_training mode) regions) as (Hrl' & Hrw).
  destruct region_weights as (HWl' & HWw').
  destruct (fully_connected_without_biases_defined _ E D' _ HWl' HWw' Hrw)
    as (re & Hre & Hrel & Hrew).
  exists ie, re.
  unfold build_image_embeddings, build_region_aspect_embeddings,
    image_inception_embeddings. fold E.
  rewrite Hie, Hout. cbn [obind region_images]. rewrite Hre. cbn [obind].
  rewrite (reshape_like_same_shape E re ie) by (try assumption; lia).
  repeat split; try assumption; lia.
Qed.

End BuildFacts.

Lemma unit_network_rows : network_rows unit_network 1.
Proof.
  intros flag images. unfold unit_network. split; [apply length_map|].
  unfold rows_of_width. apply Forall_forall. intros row Hin.
  apply in_map_iff in Hin. destruct Hin as (x & <- & _). reflexivity.
Qed.

(** X18: in inference mode the whole graph is defined on one fed image
    string and any number of hypotheses: when the two Inception networks
    return one row per image, the embedding weights fit them, the detector
    returns at least one prior with at least one class confidence for the
    image, the variables have the shapes the graph creates them with, and
    every hypothesis comes with a token of the vocabulary and a state
    vector of length [2 * num_lstm_units], [build] never fails and leaves
    the session as it was; the fused image context has one row whatever the
    number of hypotheses, and the state and the softmax have one row per
    hypothesis. *)
Theorem build_is_defined_on_one_image
    (Image : Type) (process_image : bool -> string -> Image)
    (inception_v3 region_inception_v3 : bool -> list Image -> T2)
    (resize_300x300 : Image -> Image) (ssd : list Image -> T3)
    (crop : Image -> T1 -> Image)
    (config : ModelConfig) (image_variables : ImageVariables) (D D' : nat)
    (image_feed : string) (input_feed : list Z) (fed : T2) (s : Session)
    (row : list Candidate) :
  network_rows inception_v3 D ->
  network_rows region_inception_v3 D' ->
  embedding_weights config (image_embedding_weights image_variables) D ->
  embedding_weights config (region_embedding_weights image_variables) D' ->
  detector_rows resize_300x300 ssd [process_image false image_feed] [row] ->
  num_lstm_units config <> 0%nat ->
  well_shaped_variables config (variables s) ->
  Forall (fun token => (0 <= token < Z.of_nat (vocab_size config))%Z) input_feed ->
  length fed = length input_feed ->
  rows_of_width (2 * num_lstm_units config) fed ->
  exists out init new_state sm,
    build Image process_image inception_v3 region_inception_v3 resize_300x300
      ssd crop config image_variables inference
      (Placeholders image_feed input_feed fed) s = Some (out, s) /\
    length (image_embeddings_with_aspect out) = 1%nat /\
    initial_state out = Some init /\
    length init = 1%nat /\ rows_of_width (2 * num_lstm_units config) init /\
    state out = Some new_state /\
    length new_state = length input_feed /\
    rows_of_width (2 * num_lstm_units config) new_state /\
    softmax out = Some sm /\
    length sm = length input_feed /\ rows_of_width (vocab_size config) sm.
Proof.
  intros Hnet Hnet' HW HW' (Hssd & Hlen & Hrows & Hconf) Hunits Hvars Htok Hfl Hfw.
  destruct (build_embeddings_defined Image inception_v3 region_inception_v3
              resize_300x300 ssd crop config image_variables D D'
              Hnet Hnet' HW HW' inference [process_image false image_feed] [row]
              Hssd Hlen Hrows Hconf)
    as (ie & re & Hie & Hre & Hiel & Hiew & Hrel & Hrew).
  destruct ie as [|image [|image' ie]]; try discriminate.
  destruct re as [|region [|region' re]]; try discriminate.
  destruct (stepwise_call_defined config image region input_feed fed s Hunits
              Hvars (Forall_inv Hiew) (Forall_inv Hrew) Htok Hfl Hfw)
    as (out & init & new_state & sm & Hrun & Hinit & Hil & Hiw & Hst & Hsl & Hsw
        & _ & _ & Hsm & Hsml & Hsmw).
  exists out, init, new_state, sm.
  split.
  - unfold build. cbn [build_inputs is_training]. unfold mbind at 1. cbn [lift].
    unfold mbind at 1. rewrite Hie. cbn [lift].
    unfold mbind. rewrite Hre. cbn [lift]. exact Hrun.
  - repeat split; try assumption.
    rewrite build_model_inference in Hrun. unfold inference_graph, stepwise_feeds in Hrun.
    cbn [image_embeddings region_aspect_embeddings input_seqs] in Hrun.
    destruct (NN.embedding_lookup _ _) as [SE|]; [|discriminate].
    cbn [obind] in Hrun.
    destruct (process_lstm_input _ _ _ SE) as [[WA SA]|] eqn:Hfuse; [|discriminate].
    cbn [obind] in Hrun.
    assert (HWA : length WA = 1%nat).
    { unfold process_lstm_input in Hfuse.
      cbn [NN.concat1 NN.concat1_from NN.concat1_pair zipWithM obind] in Hfuse.
      destruct (NN.concat2 _ _); [|discriminate]. cbn [obind] in Hfuse.
      injection Hfuse as <- _. reflexivity. }
    destruct (NN.BasicLSTMCell _ _ _ WA _) as [[O0 st0]|]; [|discriminate].
    cbn [obind] in Hrun.
    destruct (NN.concat1 _) as [init'|]; [|discriminate]. cbn [obind] in Hrun.
    destruct (NN.placeholder _ _) as [fed'|]; [|discriminate]. cbn [obind] in Hrun.
    destruct (NN.split1 2 fed') as [[|c [|h [|x tuple]]]|]; try discriminate.
    cbn [obind] in Hrun.
    destruct (NN.squeeze1 SA) as [X|]; [|discriminate]. cbn [obind] in Hrun.
    destruct (NN.BasicLSTMCell _ _ _ X _) as [[O st1]|]; [|discriminate].
    cbn [obind] in Hrun.
    destruct (NN.concat1 _) as [st|]; [|discriminate]. cbn [obind] in Hrun.
    destruct (NN.reshape_rows _ _) as [rows|]; [|discriminate]. cbn [obind] in Hrun.
    destruct (NN.fully_connected _ _ _ rows) as [lg|]; [|discriminate].
    cbn [obind option_map] in Hrun. injection Hrun as <-. exact HWA.
Qed.

Lemma build_is_defined_on_one_image_witness :
  exists out init new_state sm,
    build unit unit_image unit_network unit_network (fun img => img)
      (constant_ssd [confident_candidate; doubtful_candidate]) keep_image
      tiny_config unit_image_variables inference
      (Placeholders "jpeg"%string [0; 1]%Z [[0; 0]; [0; 0]]%R) tiny_session
    = Some (out, tiny_session) /\
    length (image_embeddings_with_aspect out) = 1%nat /\
    initial_state out = Some init /\
    length init = 1%nat /\ rows_of_width (2 * num_lstm_units tiny_config) init /\
    state out = Some new_state /\
    length new_state = length [0; 1]%Z /\
    rows_of_width (2 * num_lstm_units tiny_config) new_state /\
    softmax out = Some sm /\
    length sm = length [0; 1]%Z /\ rows_of_width (vocab_size tiny_config) sm.
Proof.
  apply (build_is_defined_on_one_image unit unit_image unit_network unit_network
           (fun img => img)
           (constant_ssd [confident_candidate; doubtful_candidate]) keep_image
           tiny_config unit_image_variables 1 1 "jpeg"%string [0; 1]%Z
           [[0; 0]; [0; 0]]%R tiny_session
           [confident_candidate; doubtful_candidate]).
  - exact (unit_network_rows).
  - exact (unit_network_rows).
  - split; [reflexivity | repeat constructor].
  - split; [reflexivity | repeat constructor].
  - unfold detector_rows. simpl.
    repeat split; repeat constructor; discriminate.
  - discriminate.
  - exact tiny_variables_well_shaped.
  - repeat constructor; simpl; lia.
  - reflexivity.
  - repeat constructor.
Defined.

(** X19: in train and eval mode the whole graph is defined on a batch:
    under the same assumptions on the networks, the detector and the
    variables, a dequeued batch of [B] images with [B] input sequences,
    target sequences and masks, all padded to the length [T] and with every
    token in the vocabulary, runs through [build] without failure for a keep
    probability in (0, 1]: there are [B * T] rows of [vocab_size] logits,
    as many per-token losses, the flattened mask as weights and a batch
    loss, and the variables are left as they were. *)
Theorem build_is_defined_on_a_batch
    (Image : Type) (process_image : bool -> string -> Image)
    (inception_v3 region_inception_v3 : bool -> list Image -> T2)
    (resize_300x300 : Image -> Image) (ssd : list Image -> T3)
    (crop : Image -> T1 -> Image)
    (config : ModelConfig) (image_variables : ImageVariables) (D D' : nat)
    (mode : Mode) (images : list Image)
    (input_seqs target_seqs input_mask : list (list Z)) (s : Session)
    (dets : list (list Candidate)) (T : nat) :
  mode <> inference ->
  network_rows inception_v3 D ->
  network_rows region_inception_v3 D' ->
  embedding_weights config (image_embedding_weights image_variables) D ->
  embedding_weights config (region_embedding_weights image_variables) D' ->
  detector_rows resize_300x300 ssd images dets ->
  num_lstm_units config <> 0%nat ->
  (0 < lstm_dropout_keep_prob config <= 1)%R ->
  well_shaped_variables config (variables s) ->
  length input_seqs = length images ->
  Forall (fun row => length row = T) input_seqs ->
  tokens_in_vocabulary config input_seqs ->
  length target_seqs = length images ->
  Forall (fun row => length row = T) target_seqs ->
  tokens_in_vocabulary config target_seqs ->
  length input_mask = length images ->
  Forall (fun row => length row = T) input_mask ->
  exists out s' losses l,
    build Image process_image inception_v3 region_inception_v3 resize_300x300
      ssd crop config image_variables mode
      (Batch images input_seqs target_seqs input_mask) s = Some (out, s') /\
    variables s' = variables s /\
    length (logits out) = (length images * T)%nat /\
    rows_of_width (vocab_size config) (logits out) /\
    target_cross_entropy_losses out = Some losses /\
    length losses = (length images * T)%nat /\
    target_cross_entropy_loss_weights out = Some (map IZR (concat input_mask)) /\
    batch_loss out = Some l.
Proof.
  intros Hmode Hnet Hnet' HW HW' (Hssd & Hlen & Hrows & Hconf) Hunits _ Hvars
    Hil HiT Hitok Htl HtT Httok Hml HmT.
  destruct (build_embeddings_defined Image inception_v3 region_inception_v3
              resize_300x300 ssd crop config image_variables D D'
              Hnet Hnet' HW HW' mode images dets Hssd Hlen Hrows Hconf)
    as (ie & re & Hie & Hre & Hiel & Hiew & Hrel & Hrew).
  set (feeds := {| image_embeddings := ie;
                   region_aspect_embeddings := re;
                   input_seqs := input_seqs;
                   target_seqs := target_seqs;
                   input_mask := input_mask;
                   state_feed := [] |}).
  assert (Hbatch : well_shaped_batch config (length images) T feeds).
  { unfold well_shaped_batch, feeds. cbn. repeat split; assumption. }
  destruct (build_model_unrolled_defined config mode feeds s (length images) T
              Hmode Hunits Hvars Hbatch)
    as (out & s' & losses & l & Hrun & Hrest).
  exists out, s', losses, l. split; [|exact Hrest].
  unfold build.
  assert (Hin : build_inputs Image process_image mode
                  (Batch images input_seqs target_seqs input_mask)
                = Some (images, input_seqs, target_seqs, input_mask)).
  { destruct mode; [reflexivity | reflexivity | contradiction]. }
  unfold mbind at 1. rewrite Hin. cbn [lift].
  unfold mbind at 1. rewrite Hie. cbn [lift].
  unfold mbind. rewrite Hre. cbn [lift]. exact Hrun.
Qed.

Lemma build_is_defined_on_a_batch_witness :
  exists out s' losses l,
    build unit unit_image unit_network unit_network (fun img => img)
      (constant_ssd [confident_candidate; doubtful_candidate]) keep_image
      tiny_config unit_image_variables train
      (Batch [tt; tt] [[0; 1]; [1; 1]]%Z [[1; 0]; [1; 0]]%Z [[1; 0]; [1; 1]]%Z)
      tiny_session = Some (out, s') /\
    variables s' = variables tiny_session /\
    length (logits out) = (length [tt; tt] * 2)%nat /\
    rows_of_width (vocab_size tiny_config) (logits out) /\
    target_cross_entropy_losses out = Some losses /\
    length losses = (length [tt; tt] * 2)%nat /\
    target_cross_entropy_loss_weights out
    = Some (map IZR (concat [[1; 0]; [1; 1]]%Z)) /\
    batch_loss out = Some l.
Proof.
  apply (build_is_defined_on_a_batch unit unit_image unit_network unit_network
           (fun img => img)
           (constant_ssd [confident_candidate; doubtful_candidate]) keep_image
           tiny_config unit_image_variables 1 1 train [tt; tt]
           [[0; 1]; [1; 1]]%Z [[1; 0]; [1; 0]]%Z [[1; 0]; [1; 1]]%Z tiny_session
           [[confident_candidate; doubtful_candidate];
            [confident_candidate; doubtful_candidate]] 2).
  - discriminate.
  - exact (unit_network_rows).
  - exact (unit_network_rows).
  - split; [reflexivity | repeat constructor].
  - split; [reflexivity | repeat constructor].
  - unfold detector_rows. simpl.
    repeat split; repeat constructor; discriminate.
  - discriminate.
  - simpl. lra.
  - exact tiny_variables_well_shaped.
  - reflexivity.
  - repeat constructor.
  - unfold tokens_in_vocabulary. repeat constructor; simpl; lia.
  - reflexivity.
  - repeat constructor.
  - unfold tokens_in_vocabulary. repeat constructor; simpl; lia.
  - reflexivity.
  - repeat constructor.
Defined.
